(** * Memory arbitration participant and hash-join build operator of Velox

    A shallow embedding of
    - [velox/common/memory/ArbitrationParticipant.cpp] and
    - [velox/exec/HashBuild.cpp]
    together with the properties their specification states about them.

    Unsigned 64-bit quantities are integers of [Z] with the wrap-around
    written where the C++ arithmetic can wrap; [double] is IEEE binary64
    through the executable [SpecFloat] model; exceptions, [noexcept]
    termination and undefined casts are the constructors of [outcome].

    The members run one at a time: a member that holds [stateLock_] for
    its whole body is one step of the model.  [TestValue::adjust] is an
    injection point for tests and does nothing otherwise; logging that
    evaluates nothing but getters is left out. *)

From Stdlib Require Import ZArith List Bool Lia String SpecFloat Sorted.
Import ListNotations.
Local Open Scope string_scope.
Local Open Scope Z_scope.

(** ** Machine integers *)

Module U64.
Definition modulus : Z := 2 ^ 64.

(** Value of a [uint64_t] after an arithmetic operation: reduction modulo
    [2^64]. *)
Definition wrap (x : Z) : Z := x mod modulus.

(** [static_cast<int64_t>] of a [uint64_t]. *)
Definition to_int64 (x : Z) : Z :=
  let y := wrap x in if y <? 2 ^ 63 then y else y - modulus.

(** Largest [int64_t], the engine's [kMaxMemory]. *)
Definition kMaxMemory : Z := 2 ^ 63 - 1.

Definition MB : Z := 1024 * 1024.
End U64.

(** ** IEEE binary64 *)

Module Double.
Definition prec : Z := 53.
Definition emax : Z := 1024.

Definition double : Type := spec_float.

(** Conversion of an unsigned integer to [double] (round to nearest even). *)
Definition of_uint64 (n : Z) : double := binary_normalize prec emax n 0 false.

(** [m * 2^e] as a double; used to write literals such as [0.25]. *)
Definition ldexp (m e : Z) : double := binary_normalize prec emax m e false.

Definition zero : double := S754_zero false.
Definition one : double := of_uint64 1.

Definition mul (x y : double) : double := SFmul prec emax x y.
Definition eqb (x y : double) : bool := SFeqb x y.
Definition leb (x y : double) : bool := SFleb x y.

(** The values a C++ [double] can hold: [spec_float] also has finite
    constructors whose mantissa is not normalised, which no [double] is. *)
Definition representable (x : double) : bool := valid_binary prec emax x.

(** Truncation toward zero of a finite double. *)
Definition trunc (x : double) : option Z :=
  match x with
  | S754_zero _ => Some 0
  | S754_finite s m e =>
      let mag := if 0 <=? e then Zpos m * 2 ^ e else Zpos m / 2 ^ (- e) in
      Some (if s then - mag else mag)
  | S754_infinity _ | S754_nan => None
  end.

(** [static_cast<uint64_t>(x)]: the truncated value when it is
    representable; the conversion is undefined otherwise ([None]). *)
Definition to_uint64 (x : double) : option Z :=
  match trunc x with
  | Some z => if (0 <=? z) && (z <? U64.modulus) then Some z else None
  | None => None
  end.

(** [static_cast<uint64_t>(n * r)] for [uint64_t n] and [double r]. *)
Definition scale (n : Z) (r : double) : option Z :=
  to_uint64 (mul (of_uint64 n) r).
End Double.

(** ** Outcomes of a call *)

Inductive exn : Type :=
| VeloxRuntimeError (msg : string)   (* a failed VELOX_CHECK *)
| ArbitrationTimeout                 (* VELOX_MEM_ARBITRATION_TIMEOUT *)
| ExternalError (code : Z).          (* thrown by a collaborator *)

Inductive outcome (A : Type) : Type :=
| Ret (a : A)          (* normal return *)
| Throw (e : exn)      (* a C++ exception leaves the call *)
| Terminate (e : exn)  (* an exception reached a [noexcept] boundary *)
| Undefined.           (* undefined behaviour (out-of-range cast) *)

Arguments Ret {A} a.
Arguments Throw {A} e.
Arguments Terminate {A} e.
Arguments Undefined {A}.

Definition obind {A B} (c : outcome A) (k : A -> outcome B) : outcome B :=
  match c with
  | Ret a => k a
  | Throw e => Throw e
  | Terminate e => Terminate e
  | Undefined => Undefined
  end.

(** [VELOX_CHECK(cond, msg)]. *)
Definition velox_check (cond : bool) (msg : string) : outcome unit :=
  if cond then Ret tt else Throw (VeloxRuntimeError msg).

(** A cast whose result may be undefined. *)
Definition cast_or_undefined (c : option Z) : outcome Z :=
  match c with
  | Some z => Ret z
  | None => Undefined
  end.

Declare Scope outcome_scope.
Delimit Scope outcome_scope with outcome.
Notation "x <- c ;; k" := (obind c (fun x => k))
  (at level 61, c at next level, right associativity) : outcome_scope.
Notation "c ;;; k" := (obind c (fun _ => k))
  (at level 61, right associativity) : outcome_scope.

(** State and outcome: the state reached when an exception is thrown is
    kept, as the C++ side effects made before the throw are. *)
Definition M (S A : Type) : Type := S -> outcome A * S.

Definition mret {S A} (a : A) : M S A := fun s => (Ret a, s).

Definition mbind {S A B} (c : M S A) (k : A -> M S B) : M S B :=
  fun s =>
    match c s with
    | (Ret a, s') => k a s'
    | (Throw e, s') => (Throw e, s')
    | (Terminate e, s') => (Terminate e, s')
    | (Undefined, s') => (Undefined, s')
    end.

Definition mget {S} : M S S := fun s => (Ret s, s).
Definition mmodify {S} (f : S -> S) : M S unit := fun s => (Ret tt, f s).
Definition mlift {S A} (c : outcome A) : M S A := fun s => (c, s).
Definition mthrow {S A} (e : exn) : M S A := fun s => (Throw e, s).

(** [try { body } catch (const std::exception& e) { handler(e) }]. *)
Definition try_catch {S A} (body : M S A) (handler : exn -> M S A) : M S A :=
  fun s =>
    match body s with
    | (Throw e, s') => handler e s'
    | r => r
    end.

(** A function declared [noexcept]: an escaping exception calls
    [std::terminate]. *)
Definition noexcept {S A} (body : M S A) : M S A :=
  fun s =>
    match body s with
    | (Throw e, s') => (Terminate e, s')
    | r => r
    end.

Declare Scope m_scope.
Delimit Scope m_scope with M.
Notation "x <- c ;; k" := (mbind c (fun x => k))
  (at level 61, c at next level, right associativity) : m_scope.
Notation "' pat <- c ;; k" := (mbind c (fun x => match x with pat => k end))
  (at level 61, pat pattern, c at next level, right associativity) : m_scope.
Notation "c ;;; k" := (mbind c (fun _ => k))
  (at level 61, right associativity) : m_scope.

(** ** The memory pool, an external collaborator

    [MemoryPool] is an abstract class of the engine; the participant only
    uses the members below.  A pool is a state of type [P]; the mutating
    members return the new state, and may throw. *)

(** [MemoryReclaimer::Stats], passed by reference through the reclaim
    calls. *)
Record ReclaimerStats : Type := mkReclaimerStats {
  numNonReclaimableAttempts : Z
}.

Class MemoryPool (P : Type) : Type := {
  capacity : P -> Z;
  freeBytes : P -> Z;
  reservedBytes : P -> Z;
  peakBytes : P -> Z;
  maxCapacity : P -> Z;
  reclaimableBytes : P -> option Z;
  aborted : P -> bool;
  pool_reclaim : Z -> Z -> ReclaimerStats -> P -> outcome Z * ReclaimerStats * P;
  pool_shrink : Z -> P -> outcome Z * P;
  pool_grow : Z -> Z -> P -> outcome bool * P;
  pool_abort : exn -> P -> outcome unit * P
}.

(** The values the getters of a pool can report: [capacity()] is an
    [int64_t] bounded by [kMaxMemory], the others fit 64 bits. *)
Record pool_wf {P} `{MemoryPool P} (p : P) : Prop := {
  wf_capacity : 0 <= capacity p <= U64.kMaxMemory;
  wf_freeBytes : 0 <= freeBytes p < U64.modulus;
  wf_reclaimableBytes :
    forall r, reclaimableBytes p = Some r -> 0 <= r < U64.modulus
}.

(** ** ArbitrationParticipant *)

Module ArbitrationParticipant.
Local Open Scope list_scope.

(** *** Config *)

Record Config : Type := mkConfig {
  initCapacity : Z;
  minCapacity : Z;
  fastExponentialGrowthCapacityLimit : Z;
  slowCapacityGrowRatio : Double.double;
  minFreeCapacity : Z;
  minFreeCapacityRatio : Double.double;
  minReclaimBytes : Z;
  minReclaimPct : Double.double
}.

(** [Config::Config]: the constructor and its checks. *)
Definition Config_new
    (_initCapacity _minCapacity _fastExponentialGrowthCapacityLimit : Z)
    (_slowCapacityGrowRatio : Double.double)
    (_minFreeCapacity : Z) (_minFreeCapacityRatio : Double.double)
    (_minReclaimBytes : Z) (_minReclaimPct : Double.double)
  : outcome Config :=
  (velox_check (Double.leb Double.zero _slowCapacityGrowRatio)
     "slowCapacityGrowRatio >= 0" ;;;
   velox_check
     (Bool.eqb (_fastExponentialGrowthCapacityLimit =? 0)
               (Double.eqb _slowCapacityGrowRatio Double.zero))
     "fastExponentialGrowthCapacityLimit and slowCapacityGrowRatio both need to be set" ;;;
   velox_check (Double.leb Double.zero _minFreeCapacityRatio)
     "minFreeCapacityRatio >= 0" ;;;
   velox_check (Double.leb _minFreeCapacityRatio Double.one)
     "minFreeCapacityRatio <= 1" ;;;
   velox_check
     (Bool.eqb (_minFreeCapacity =? 0)
               (Double.eqb _minFreeCapacityRatio Double.zero))
     "minFreeCapacity and minFreeCapacityRatio both need to be set" ;;;
   velox_check
     (Double.leb Double.zero _minReclaimPct && Double.leb _minReclaimPct Double.one)
     "minReclaimPct must be in [0, 1]" ;;;
   Ret (mkConfig _initCapacity _minCapacity
          _fastExponentialGrowthCapacityLimit _slowCapacityGrowRatio
          _minFreeCapacity _minFreeCapacityRatio
          _minReclaimBytes _minReclaimPct))%outcome.

(** The [uint64_t] fields of a configuration hold 64-bit values. *)
Record config_wf (c : Config) : Prop := {
  wf_minCapacity : 0 <= minCapacity c < U64.modulus;
  wf_limit : 0 <= fastExponentialGrowthCapacityLimit c < U64.modulus;
  wf_minFreeCapacity : 0 <= minFreeCapacity c < U64.modulus;
  wf_minReclaimBytes : 0 <= minReclaimBytes c < U64.modulus
}.

(** A ratio the constructor accepts: a [double] in [0, 1]. *)
Record ratio_wf (r : Double.double) : Prop := {
  wf_representable : Double.representable r = true;
  wf_nonneg : Double.leb Double.zero r = true;
  wf_le_one : Double.leb r Double.one = true
}.

(** *** Capacity queries

    These members are [const]: they read the configuration, the
    [maxCapacity_] captured at construction and the pool. *)

Section Queries.
Context {P : Type} `{MemoryPool P}.
Variable config_ : Config.
Variable maxCapacity_ : Z.
Variable pool_ : P.

Definition maxGrowCapacity : outcome Z :=
  (let capacity := capacity pool_ in
   velox_check (capacity <=? maxCapacity_) "capacity <= maxCapacity_" ;;;
   Ret (U64.wrap (maxCapacity_ - capacity)))%outcome.

Definition minGrowCapacity : Z :=
  let capacity := capacity pool_ in
  if minCapacity config_ <=? capacity then 0
  else U64.wrap (minCapacity config_ - capacity).

Definition inactivePool : bool :=
  (reservedBytes pool_ =? 0) && negb (peakBytes pool_ =? 0).

Definition maxReclaimableCapacity : Z :=
  if inactivePool then capacity pool_
  else
    let capacityBytes := capacity pool_ in
    if capacityBytes <? minCapacity config_ then 0
    else U64.wrap (capacityBytes - minCapacity config_).

Definition maxShrinkCapacity : outcome Z :=
  let capacity := capacity pool_ in
  let freeBytes := freeBytes pool_ in
  if negb (minFreeCapacity config_ =? 0) && negb inactivePool then
    (scaled <- cast_or_undefined
                 (Double.scale capacity (minFreeCapacityRatio config_)) ;;
     let minFreeBytes := Z.min scaled (minFreeCapacity config_) in
     if freeBytes <=? minFreeBytes then Ret 0
     else Ret (U64.wrap (freeBytes - minFreeBytes)))%outcome
  else Ret freeBytes.

Definition reclaimableFreeCapacity : outcome Z :=
  (shrinkable <- maxShrinkCapacity ;;
   Ret (Z.min shrinkable maxReclaimableCapacity))%outcome.

(** [std::min<int64_t>] compares both operands as signed integers; the
    result is returned as a [uint64_t]. *)
Definition reclaimableUsedCapacity : Z :=
  let maxReclaimableBytes := maxReclaimableCapacity in
  let reclaimableBytes := reclaimableBytes pool_ in
  U64.wrap
    (Z.min (U64.to_int64 maxReclaimableBytes)
           (U64.to_int64 (match reclaimableBytes with
                          | Some r => r
                          | None => 0
                          end))).

Definition checkCapacityGrowth (requestBytes : Z) : outcome bool :=
  (g <- maxGrowCapacity ;; Ret (requestBytes <=? g))%outcome.

(** The two reference parameters are the returned pair
    [(maxGrowBytes, minGrowBytes)]. *)
Definition getGrowTargets (requestBytes : Z) : outcome (Z * Z) :=
  (let capacity := capacity pool_ in
   maxGrowBytes <-
     (if (fastExponentialGrowthCapacityLimit config_ =? 0)
         && Double.eqb (slowCapacityGrowRatio config_) Double.zero
      then Ret requestBytes
      else if U64.wrap (capacity * 2)
                <=? fastExponentialGrowthCapacityLimit config_
      then Ret capacity
      else cast_or_undefined
             (Double.scale capacity (slowCapacityGrowRatio config_))) ;;
   let maxGrowBytes := Z.max requestBytes maxGrowBytes in
   let minGrowBytes := minGrowCapacity in
   let maxGrowBytes := Z.max maxGrowBytes minGrowBytes in
   growCapacity <- maxGrowCapacity ;;
   let maxGrowBytes := Z.min growCapacity maxGrowBytes in
   velox_check (minGrowBytes <=? maxGrowBytes) "minGrowBytes <= maxGrowBytes" ;;;
   velox_check (requestBytes <=? maxGrowBytes) "requestBytes <= maxGrowBytes" ;;;
   Ret (maxGrowBytes, minGrowBytes))%outcome.
End Queries.

(** *** The participant object *)

(** An [ArbitrationOperation*]. *)
Definition OpId : Type := Z.

(** Calls made to the collaborators and to the locks, oldest first.  The
    trace is a record kept by the model: it has no C++ counterpart and no
    member reads it. *)
Inductive Event : Type :=
| EvLockReclaimMutex
| EvUnlockReclaimMutex
| EvPoolReclaim (targetBytes maxWaitMs : Z)
| EvPoolShrink (targetBytes : Z)
| EvPoolGrow (growBytes reservationBytes : Z)
| EvPoolAbort (error : exn)
| EvSetWaiting (op : OpId)
| EvEnqueue (op : OpId)
| EvResume (op : OpId).

Record Participant (P : Type) : Type := mkParticipant {
  id_ : Z;
  config_ : Config;
  maxCapacity_ : Z;
  pool_ : P;
  runningOp_ : option OpId;
  waitOps_ : list OpId;
  aborted_ : bool;
  numRequests_ : Z;
  numReclaims_ : Z;
  numShrinks_ : Z;
  numGrows_ : Z;
  reclaimedBytes_ : Z;
  growBytes_ : Z;
  trace_ : list Event
}.

Arguments mkParticipant {P}.
Arguments id_ {P}.
Arguments config_ {P}.
Arguments maxCapacity_ {P}.
Arguments pool_ {P}.
Arguments runningOp_ {P}.
Arguments waitOps_ {P}.
Arguments aborted_ {P}.
Arguments numRequests_ {P}.
Arguments numReclaims_ {P}.
Arguments numShrinks_ {P}.
Arguments numGrows_ {P}.
Arguments reclaimedBytes_ {P}.
Arguments growBytes_ {P}.
Arguments trace_ {P}.

(** [ArbitrationParticipant::Stats], as [stats()] reports them. *)
Record Stats : Type := mkStats {
  numRequests : Z;
  numReclaims : Z;
  numShrinks : Z;
  numGrows : Z;
  reclaimedBytes : Z;
  growBytes : Z
}.

Section Members.
Context {P : Type} `{MemoryPool P}.

Local Abbreviation Self := (Participant P).

Definition stats (a : Self) : Stats :=
  mkStats (numRequests_ a) (numReclaims_ a) (numShrinks_ a)
          (numGrows_ a) (reclaimedBytes_ a) (growBytes_ a).

(** Field updates. *)
Definition with_pool (p : P) (a : Self) : Self :=
  mkParticipant (id_ a) (config_ a) (maxCapacity_ a) p
    (runningOp_ a) (waitOps_ a) (aborted_ a)
    (numRequests_ a) (numReclaims_ a) (numShrinks_ a) (numGrows_ a)
    (reclaimedBytes_ a) (growBytes_ a) (trace_ a).

Definition with_ops (r : option OpId) (w : list OpId) (a : Self) : Self :=
  mkParticipant (id_ a) (config_ a) (maxCapacity_ a) (pool_ a)
    r w (aborted_ a)
    (numRequests_ a) (numReclaims_ a) (numShrinks_ a) (numGrows_ a)
    (reclaimedBytes_ a) (growBytes_ a) (trace_ a).

Definition with_aborted (b : bool) (a : Self) : Self :=
  mkParticipant (id_ a) (config_ a) (maxCapacity_ a) (pool_ a)
    (runningOp_ a) (waitOps_ a) b
    (numRequests_ a) (numReclaims_ a) (numShrinks_ a) (numGrows_ a)
    (reclaimedBytes_ a) (growBytes_ a) (trace_ a).

Definition with_stats (s : Stats) (a : Self) : Self :=
  mkParticipant (id_ a) (config_ a) (maxCapacity_ a) (pool_ a)
    (runningOp_ a) (waitOps_ a) (aborted_ a)
    (numRequests s) (numReclaims s) (numShrinks s) (numGrows s)
    (reclaimedBytes s) (growBytes s) (trace_ a).

Definition emit (e : Event) (a : Self) : Self :=
  mkParticipant (id_ a) (config_ a) (maxCapacity_ a) (pool_ a)
    (runningOp_ a) (waitOps_ a) (aborted_ a)
    (numRequests_ a) (numReclaims_ a) (numShrinks_ a) (numGrows_ a)
    (reclaimedBytes_ a) (growBytes_ a) (trace_ a ++ [e]).

(** Counter updates.  The counters are declared in the header, which
    is not part of the sources at hand; they are kept unbounded. *)
Definition numRequests_incr (s : Stats) : Stats :=
  mkStats (numRequests s + 1) (numReclaims s) (numShrinks s)
          (numGrows s) (reclaimedBytes s) (growBytes s).
Definition numReclaims_incr (s : Stats) : Stats :=
  mkStats (numRequests s) (numReclaims s + 1) (numShrinks s)
          (numGrows s) (reclaimedBytes s) (growBytes s).
Definition numShrinks_incr (s : Stats) : Stats :=
  mkStats (numRequests s) (numReclaims s) (numShrinks s + 1)
          (numGrows s) (reclaimedBytes s) (growBytes s).
Definition numGrows_incr (s : Stats) : Stats :=
  mkStats (numRequests s) (numReclaims s) (numShrinks s)
          (numGrows s + 1) (reclaimedBytes s) (growBytes s).
Definition reclaimedBytes_add (n : Z) (s : Stats) : Stats :=
  mkStats (numRequests s) (numReclaims s) (numShrinks s)
          (numGrows s) (reclaimedBytes s + n) (growBytes s).
Definition growBytes_add (n : Z) (s : Stats) : Stats :=
  mkStats (numRequests s) (numReclaims s) (numShrinks s)
          (numGrows s) (reclaimedBytes s) (growBytes s + n).

Definition bump (f : Stats -> Stats) (a : Self) : Self :=
  with_stats (f (stats a)) a.

(** [ArbitrationParticipant::ArbitrationParticipant]. *)
Definition create (id : Z) (pool : P) (config : Config) : outcome Self :=
  (let maxCap := maxCapacity pool in
   velox_check (minCapacity config <=? maxCap)
     "The min capacity is larger than the max capacity" ;;;
   Ret (mkParticipant id config maxCap pool None [] false 0 0 0 0 0 0 []))%outcome.

(** The queries of the previous section, read off the object. *)
Definition self_capacity (a : Self) : Z := capacity (pool_ a).

Definition self_reclaimableFreeCapacity (a : Self) : outcome Z :=
  reclaimableFreeCapacity (config_ a) (pool_ a).

(** Calls into the pool: each is recorded, then the pool acts. *)
Definition call_pool_shrink (targetBytes : Z) : M Self Z :=
  fun a =>
    let a := emit (EvPoolShrink targetBytes) a in
    let '(r, p) := pool_shrink targetBytes (pool_ a) in
    (r, with_pool p a).

Definition call_pool_abort (error : exn) : M Self unit :=
  fun a =>
    let a := emit (EvPoolAbort error) a in
    let '(r, p) := pool_abort error (pool_ a) in
    (r, with_pool p a).

Definition call_pool_grow (growBytes reservationBytes : Z) : M Self bool :=
  fun a =>
    let a := emit (EvPoolGrow growBytes reservationBytes) a in
    let '(r, p) := pool_grow growBytes reservationBytes (pool_ a) in
    (r, with_pool p a).

Definition call_pool_reclaim (targetBytes maxWaitMs : Z)
  : M (Self * ReclaimerStats) Z :=
  fun '(a, st) =>
    let a := emit (EvPoolReclaim targetBytes maxWaitMs) a in
    let '(r, st', p) := pool_reclaim targetBytes maxWaitMs st (pool_ a) in
    (r, (with_pool p a, st')).

(** Runs a member of the participant where the reclaimer statistics are
    passed along. *)
Definition on_self {A} (c : M Self A) : M (Self * ReclaimerStats) A :=
  fun '(a, st) => let '(r, a') := c a in (r, (a', st)).

(** **** Admission: [startArbitration] and [finishArbitration]

    Both members update [runningOp_] and [waitOps_] under [stateLock_],
    so each call is one atomic step on the participant.  A caller of
    [startArbitration] that was queued then blocks on its promise; the
    promise is fulfilled by the [finishArbitration] that recorded
    [EvResume] for it. *)
Definition startArbitration (op : OpId) : M Self unit :=
  (mmodify (bump numRequests_incr) ;;;
   a <- mget ;;
   match runningOp_ a with
   | Some _ =>
       mmodify (emit (EvSetWaiting op)) ;;;
       mmodify (with_ops (runningOp_ a) (waitOps_ a ++ [op])) ;;;
       mmodify (emit (EvEnqueue op))
   | None => mmodify (with_ops (Some op) (waitOps_ a))
   end)%M.

Definition finishArbitration (op : OpId) : M Self unit :=
  (a <- mget ;;
   mlift (velox_check
            (match runningOp_ a with
             | Some r => r =? op
             | None => false
             end) "op == runningOp_") ;;;
   match waitOps_ a with
   | front :: rest =>
       mmodify (with_ops (Some front) rest) ;;;
       mmodify (emit (EvResume front))
   | [] => mmodify (with_ops None [])
   end)%M.

(** A history of admission calls on one participant, in the order in
    which they take [stateLock_]. *)
Inductive Call : Type :=
| CStart (op : OpId)
| CFinish (op : OpId).

Definition call (c : Call) : M Self unit :=
  match c with
  | CStart op => startArbitration op
  | CFinish op => finishArbitration op
  end.

Fixpoint run (cs : list Call) : M Self unit :=
  match cs with
  | [] => mret tt
  | c :: cs' => (call c ;;; run cs')%M
  end.

(** The operations whose wait promise was fulfilled, oldest first. *)
Fixpoint resumed (tr : list Event) : list OpId :=
  match tr with
  | [] => []
  | EvResume op :: tr' => op :: resumed tr'
  | _ :: tr' => resumed tr'
  end.

(** **** [grow], [shrink] and [shrinkLocked] *)
Definition grow (growBytes reservationBytes : Z) : M Self bool :=
  (mmodify (bump numGrows_incr) ;;;
   success <- call_pool_grow growBytes reservationBytes ;;
   (if success : bool then mmodify (bump (growBytes_add growBytes))
    else mret tt) ;;;
   mret success)%M.

Definition shrinkLocked (reclaimAll : bool) : M Self Z :=
  (mmodify (bump numShrinks_incr) ;;;
   reclaimedBytes <-
     (if reclaimAll then call_pool_shrink 0
      else
        a <- mget ;;
        reclaimTargetBytes <- mlift (self_reclaimableFreeCapacity a) ;;
        if 0 <? reclaimTargetBytes then call_pool_shrink reclaimTargetBytes
        else mret 0) ;;
   mmodify (bump (reclaimedBytes_add reclaimedBytes)) ;;;
   mret reclaimedBytes)%M.

Definition shrink (reclaimAll : bool) : M Self Z := shrinkLocked reclaimAll.

(** **** [abort] and [abortLocked] *)
Definition abortLocked (error : exn) : M Self Z :=
  noexcept
    (a <- mget ;;
     if aborted_ a then mret 0
     else
       mmodify (with_aborted true) ;;;
       try_catch (call_pool_abort error) (fun _ => mret tt) ;;;
       a <- mget ;;
       mlift (velox_check (aborted (pool_ a)) "pool_->aborted()") ;;;
       shrinkLocked true)%M.

(** [std::lock_guard<std::timed_mutex> l(reclaimMutex_)]: the mutex is
    released when the scope is left by a return or by an exception.  After
    [std::terminate] or undefined behaviour the guard is never destroyed
    and nothing is released. *)
Definition with_reclaimMutex {A} (body : M Self A) : M Self A :=
  fun a =>
    let '(r, a') := body (emit EvLockReclaimMutex a) in
    match r with
    | Ret _ | Throw _ => (r, emit EvUnlockReclaimMutex a')
    | Terminate _ | Undefined => (r, a')
    end.

Definition abort (error : exn) : M Self Z :=
  noexcept (with_reclaimMutex (abortLocked error)).

(** **** [reclaim]

    [ArbitrationTimedLock l(reclaimMutex_, maxWaitTimeNs)] either
    acquires the mutex or throws the arbitration timeout; which one
    happens depends on the other threads and is the argument
    [lockAcquired].  An acquired mutex is released when the scope is left
    by a return or by an exception, and never after [std::terminate] or
    undefined behaviour.  The statistics passed by reference travel with
    the participant. *)
Definition with_timedLock {A} (lockAcquired : bool)
    (body : M (Self * ReclaimerStats) A) : M (Self * ReclaimerStats) A :=
  if lockAcquired then
    fun '(a, st) =>
      let '(r, (a', st')) := body (emit EvLockReclaimMutex a, st) in
      match r with
      | Ret _ | Throw _ => (r, (emit EvUnlockReclaimMutex a', st'))
      | Terminate _ | Undefined => (r, (a', st'))
      end
  else mthrow ArbitrationTimeout.

(** The effective target of [reclaim]. *)
Definition reclaimTarget (a : Self) (targetBytes : Z) : outcome Z :=
  (scaled <- cast_or_undefined
               (Double.scale (self_capacity a) (minReclaimPct (config_ a))) ;;
   let minReclaimBytes := Z.max (minReclaimBytes (config_ a)) scaled in
   Ret (Z.max targetBytes minReclaimBytes))%outcome.

(** The block guarded by [try] in [reclaim]. *)
Definition reclaim_attempt (targetBytes maxWaitTimeNs : Z)
    (lockAcquired : bool) : M (Self * ReclaimerStats) Z :=
  with_timedLock lockAcquired
    (on_self (mmodify (bump numReclaims_incr)) ;;;
     reclaimedBytes <-
       call_pool_reclaim targetBytes (maxWaitTimeNs / 1000000) ;;
     reclaimedCapacity <- on_self (shrink false) ;;
     mret reclaimedCapacity)%M.

Definition reclaim (targetBytes maxWaitTimeNs : Z) (lockAcquired : bool)
  : M (Self * ReclaimerStats) Z :=
  noexcept
    (ctx <- mget ;;
     targetBytes <- mlift (reclaimTarget (fst ctx) targetBytes) ;;
     if targetBytes =? 0 then mret 0
     else
       try_catch
         (reclaim_attempt targetBytes maxWaitTimeNs lockAcquired)
         (fun e => on_self (abortLocked e)))%M.
End Members.

End ArbitrationParticipant.

(** ** A concrete pool

    The accounting of a root pool without any operator attached, used to run
    the participant on concrete inputs.  [failReclaim] and [failShrink] make
    the corresponding member throw; [abortSticks] tells whether [abort]
    leaves the pool marked as aborted. *)

Module SimplePool.
Record t : Type := mk {
  cap : Z;
  reserved : Z;
  peak : Z;
  maxCap : Z;
  reclaimable : option Z;
  isAborted : bool;
  failReclaim : option exn;
  failShrink : option exn;
  abortSticks : bool
}.

Definition free (p : t) : Z := cap p - reserved p.

Definition set_cap (c : Z) (p : t) : t :=
  mk c (reserved p) (peak p) (maxCap p) (reclaimable p) (isAborted p)
     (failReclaim p) (failShrink p) (abortSticks p).

Definition set_reserved (r : Z) (p : t) : t :=
  mk (cap p) r (peak p) (maxCap p) (reclaimable p) (isAborted p)
     (failReclaim p) (failShrink p) (abortSticks p).

Definition set_aborted (b : bool) (p : t) : t :=
  mk (cap p) (reserved p) (peak p) (maxCap p) (reclaimable p) b
     (failReclaim p) (failShrink p) (abortSticks p).

Definition do_reclaim (target waitMs : Z) (st : ReclaimerStats) (p : t)
  : outcome Z * ReclaimerStats * t :=
  match failReclaim p with
  | Some e => (Throw e, st, p)
  | None =>
      let n := Z.min target (match reclaimable p with Some r => r | None => 0 end) in
      (Ret n, st, set_reserved (reserved p - n) p)
  end.

Definition do_shrink (target : Z) (p : t) : outcome Z * t :=
  match failShrink p with
  | Some e => (Throw e, p)
  | None =>
      let n := if target =? 0 then free p else Z.min target (free p) in
      (Ret n, set_cap (cap p - n) p)
  end.

Definition do_grow (growBytes reservationBytes : Z) (p : t) : outcome bool * t :=
  if cap p + growBytes <=? maxCap p
  then (Ret true, set_reserved (reserved p + reservationBytes)
                    (set_cap (cap p + growBytes) p))
  else (Ret false, p).

Definition do_abort (e : exn) (p : t) : outcome unit * t :=
  (Ret tt, set_aborted (abortSticks p) (set_reserved 0 p)).

#[global] Instance pool : MemoryPool t := {
  capacity := cap;
  freeBytes := free;
  reservedBytes := reserved;
  peakBytes := peak;
  maxCapacity := maxCap;
  reclaimableBytes := reclaimable;
  aborted := isAborted;
  pool_reclaim := do_reclaim;
  pool_shrink := do_shrink;
  pool_grow := do_grow;
  pool_abort := do_abort
}.

(** A well-behaved pool of [capacity] bytes of which [reserved] are in
    use. *)
Definition make (capacity reserved peak maxCapacity : Z)
    (reclaimable : option Z) : t :=
  mk capacity reserved peak maxCapacity reclaimable false None None true.
End SimplePool.

Import ArbitrationParticipant.


(** ** HashBuild *)

Module HashBuild.
Local Open Scope list_scope.

Inductive State : Type :=
| kRunning | kYield | kWaitForBuild | kWaitForProbe | kFinish.

Definition State_eqb (x y : State) : bool :=
  match x, y with
  | kRunning, kRunning | kYield, kYield | kWaitForBuild, kWaitForBuild
  | kWaitForProbe, kWaitForProbe | kFinish, kFinish => true
  | _, _ => false
  end.

(** The join types, after the predicates [HashBuild.cpp] calls on them
    (their declarations are in the plan-node header). *)
Inductive JoinType : Type :=
| kInner | kLeft | kRight | kFull
| kLeftSemiFilter | kLeftSemiProject
| kRightSemiFilter | kRightSemiProject
| kAnti.

Definition isRightJoin (t : JoinType) : bool :=
  match t with kRight => true | _ => false end.
Definition isFullJoin (t : JoinType) : bool :=
  match t with kFull => true | _ => false end.
Definition isLeftSemiProjectJoin (t : JoinType) : bool :=
  match t with kLeftSemiProject => true | _ => false end.
Definition isRightSemiProjectJoin (t : JoinType) : bool :=
  match t with kRightSemiProject => true | _ => false end.
Definition isAntiJoin (t : JoinType) : bool :=
  match t with kAnti => true | _ => false end.

(** [core::HashJoinNode]: what the operator reads of its plan node;
    [filter] tells whether [joinNode_->filter()] is set. *)
Record JoinNode : Type := mkJoinNode {
  joinType : JoinType;
  isNullAware : bool;
  filter : bool
}.

(** "null-aware anti or left semi project join with filter set", as the
    comment in [setupTable] describes it. *)
Definition isLeftNullAwareJoinWithFilter (n : JoinNode) : bool :=
  (isAntiJoin (joinType n) || isLeftSemiProjectJoin (joinType n))
  && isNullAware n && filter n.

(** *** Input batches *)

(** A row of the build side: its join keys and its dependent columns, a
    null being [None]. *)
Record Row : Type := mkRow {
  keys : list (option Z);
  dependents : list (option Z)
}.

Definition Batch : Type := list Row.

Definition isNull (v : option Z) : bool :=
  match v with
  | None => true
  | Some _ => false
  end.

Definition hasNullKey (r : Row) : bool := existsb isNull (keys r).

(** [activeRows_]: one selection bit per row of the batch. *)
Definition Selection : Type := list bool.

Definition setAll (input : Batch) : Selection := map (fun _ => true) input.

Definition countSelected (rows : Selection) : Z :=
  Z.of_nat (List.length (List.filter (fun b => b) rows)).

Definition hasSelections (rows : Selection) : bool := existsb (fun b => b) rows.

(** [deselectRowsWithNulls(hashers, rows)]. *)
Definition deselectRowsWithNulls (input : Batch) (rows : Selection)
  : Selection :=
  map (fun '(r, b) => b && negb (hasNullKey r)) (combine input rows).

(** The rows of the batch that are still selected. *)
Definition selectedRows (input : Batch) (rows : Selection) : list Row :=
  map fst (List.filter (fun '(_, b) => b) (combine input rows)).

Definition nullAt (channel : nat) (vs : list (option Z)) : bool :=
  match nth_error vs channel with
  | Some v => isNull v
  | None => false
  end.

(** *** The spiller and the operator *)

(** [HashBuildSpiller]: the rows written out are kept in one list, the
    partition they go to is not distinguished. *)
Record Spiller : Type := mkSpiller {
  spillTriggered_ : bool;
  finalized_ : bool;
  spilled : list Row
}.

Record Op : Type := mkOp {
  state_ : State;
  joinNode_ : JoinNode;
  joinHasNullKeys_ : bool;
  noMoreInput_ : bool;
  table_ : option (list Row);       (* the rows of the table's container *)
  spiller_ : option Spiller;
  spillInputReader_ : bool;         (* [spillInputReader_ != nullptr] *)
  stateCleared_ : bool;
  nonReclaimableSection_ : bool;
  exceededMaxSpillLevelLimit_ : bool;
  spillConfig_ : bool;              (* [Operator::canSpill()] *)
  filterPropagatesNulls_ : bool;
  keyFilterChannels_ : list nat;
  dependentFilterChannels_ : list nat;
  numNullKeys : Z;                  (* [stats_.numNullKeys] *)
  reservation : Z                   (* unused reservation of [pool()] *)
}.

Definition joinType_ (o : Op) : JoinType := joinType (joinNode_ o).
Definition nullAware_ (o : Op) : bool := isNullAware (joinNode_ o).

(** [HashJoinBridge], as far as the build side writes to it. *)
Record Bridge : Type := mkBridge {
  antiJoinHasNullKeys : bool;
  bridgeTable : option (list Row);
  bridgeSpillPartitions : list Row;
  bridgeHasNullKeys : bool
}.

(** What the operator reads of its [Task] and query configuration. *)
Record Task : Type := mkTask {
  hasMixedExecutionGroupJoin : bool;
  mixedGroupedModeHashJoinSpillEnabled : bool;
  concurrentSplitGroups : Z;
  pauseRequested : bool;
  barrier : list nat    (* drivers that wait in [allPeersFinished] *)
}.

(** Calls to the collaborators, oldest first; kept by the model only. *)
Inductive Event : Type :=
| EvPoolRelease (driver : nat)
| EvSetAntiJoinHasNullKeys
| EvEnsureTableFits (numRows : Z)
| EvFinishSpill (driver : nat)
| EvPrepareJoinTable (numOtherTables : nat)
| EvSetHashTable
| EvReleasePeers (peers : list nat)
| EvSpillTable (driver : nat)
| EvClearTable (driver : nat)
| EvMetricNonReclaimable
| EvLogWarning (msg : string).

(** The build operators of one join, one per driver of the pipeline,
    with what they share. *)
Record World : Type := mkWorld {
  ops : list Op;
  bridge : Bridge;
  task : Task;
  events : list Event
}.

(** Field updates. *)
Definition set_state (v : State) (o : Op) : Op :=
  mkOp v (joinNode_ o) (joinHasNullKeys_ o) (noMoreInput_ o) (table_ o)
    (spiller_ o) (spillInputReader_ o) (stateCleared_ o)
    (nonReclaimableSection_ o) (exceededMaxSpillLevelLimit_ o)
    (spillConfig_ o) (filterPropagatesNulls_ o) (keyFilterChannels_ o)
    (dependentFilterChannels_ o) (numNullKeys o) (reservation o).

Definition set_joinHasNullKeys (v : bool) (o : Op) : Op :=
  mkOp (state_ o) (joinNode_ o) v (noMoreInput_ o) (table_ o)
    (spiller_ o) (spillInputReader_ o) (stateCleared_ o)
    (nonReclaimableSection_ o) (exceededMaxSpillLevelLimit_ o)
    (spillConfig_ o) (filterPropagatesNulls_ o) (keyFilterChannels_ o)
    (dependentFilterChannels_ o) (numNullKeys o) (reservation o).

Definition set_noMoreInput (v : bool) (o : Op) : Op :=
  mkOp (state_ o) (joinNode_ o) (joinHasNullKeys_ o) v (table_ o)
    (spiller_ o) (spillInputReader_ o) (stateCleared_ o)
    (nonReclaimableSection_ o) (exceededMaxSpillLevelLimit_ o)
    (spillConfig_ o) (filterPropagatesNulls_ o) (keyFilterChannels_ o)
    (dependentFilterChannels_ o) (numNullKeys o) (reservation o).

Definition set_table (v : option (list Row)) (o : Op) : Op :=
  mkOp (state_ o) (joinNode_ o) (joinHasNullKeys_ o) (noMoreInput_ o) v
    (spiller_ o) (spillInputReader_ o) (stateCleared_ o)
    (nonReclaimableSection_ o) (exceededMaxSpillLevelLimit_ o)
    (spillConfig_ o) (filterPropagatesNulls_ o) (keyFilterChannels_ o)
    (dependentFilterChannels_ o) (numNullKeys o) (reservation o).

Definition set_spiller (v : option Spiller) (o : Op) : Op :=
  mkOp (state_ o) (joinNode_ o) (joinHasNullKeys_ o) (noMoreInput_ o)
    (table_ o) v (spillInputReader_ o) (stateCleared_ o)
    (nonReclaimableSection_ o) (exceededMaxSpillLevelLimit_ o)
    (spillConfig_ o) (filterPropagatesNulls_ o) (keyFilterChannels_ o)
    (dependentFilterChannels_ o) (numNullKeys o) (reservation o).

Definition set_stateCleared (v : bool) (o : Op) : Op :=
  mkOp (state_ o) (joinNode_ o) (joinHasNullKeys_ o) (noMoreInput_ o)
    (table_ o) (spiller_ o) (spillInputReader_ o) v
    (nonReclaimableSection_ o) (exceededMaxSpillLevelLimit_ o)
    (spillConfig_ o) (filterPropagatesNulls_ o) (keyFilterChannels_ o)
    (dependentFilterChannels_ o) (numNullKeys o) (reservation o).

Definition set_numNullKeys (v : Z) (o : Op) : Op :=
  mkOp (state_ o) (joinNode_ o) (joinHasNullKeys_ o) (noMoreInput_ o)
    (table_ o) (spiller_ o) (spillInputReader_ o) (stateCleared_ o)
    (nonReclaimableSection_ o) (exceededMaxSpillLevelLimit_ o)
    (spillConfig_ o) (filterPropagatesNulls_ o) (keyFilterChannels_ o)
    (dependentFilterChannels_ o) v (reservation o).

Definition set_reservation (v : Z) (o : Op) : Op :=
  mkOp (state_ o) (joinNode_ o) (joinHasNullKeys_ o) (noMoreInput_ o)
    (table_ o) (spiller_ o) (spillInputReader_ o) (stateCleared_ o)
    (nonReclaimableSection_ o) (exceededMaxSpillLevelLimit_ o)
    (spillConfig_ o) (filterPropagatesNulls_ o) (keyFilterChannels_ o)
    (dependentFilterChannels_ o) (numNullKeys o) v.

Definition set_ops (v : list Op) (w : World) : World :=
  mkWorld v (bridge w) (task w) (events w).
Definition set_bridge (v : Bridge) (w : World) : World :=
  mkWorld (ops w) v (task w) (events w).
Definition set_barrier (v : list nat) (w : World) : World :=
  mkWorld (ops w) (bridge w)
    (mkTask (hasMixedExecutionGroupJoin (task w))
            (mixedGroupedModeHashJoinSpillEnabled (task w))
            (concurrentSplitGroups (task w)) (pauseRequested (task w)) v)
    (events w).
Definition emit (e : Event) (w : World) : World :=
  mkWorld (ops w) (bridge w) (task w) (events w ++ [e]).

Fixpoint update {A} (i : nat) (f : A -> A) (l : list A) : list A :=
  match l, i with
  | [], _ => []
  | x :: l', O => f x :: l'
  | x :: l', S i' => x :: update i' f l'
  end.

(** An operator is reached through its driver; a driver that does not
    exist is a dangling pointer. *)
Definition getOp (i : nat) : M World Op :=
  fun w =>
    match nth_error (ops w) i with
    | Some o => (Ret o, w)
    | None => (Undefined, w)
    end.

Definition modifyOp (i : nat) (f : Op -> Op) : M World unit :=
  mmodify (fun w => set_ops (update i f (ops w)) w).

Definition log (e : Event) : M World unit := mmodify (emit e).

(** *** State of the operator *)

Definition isRunning (o : Op) : bool := State_eqb (state_ o) kRunning.

Definition isInputFromSpill (o : Op) : bool := spillInputReader_ o.

Definition canSpill (t : Task) (o : Op) : bool :=
  if negb (spillConfig_ o) then false
  else if hasMixedExecutionGroupJoin t
  then mixedGroupedModeHashJoinSpillEnabled t && (concurrentSplitGroups t =? 1)
  else true.

Definition canReclaim (t : Task) (o : Op) : bool :=
  canSpill t o && negb (exceededMaxSpillLevelLimit_ o).

Definition nonReclaimableState (o : Op) : bool :=
  (negb (State_eqb (state_ o) kRunning)
   && negb (State_eqb (state_ o) kWaitForBuild)
   && negb (State_eqb (state_ o) kYield))
  || nonReclaimableSection_ o
  || match spiller_ o with
     | None => true
     | Some sp => finalized_ sp
     end.

Definition checkRunning (i : nat) : M World unit :=
  (o <- getOp i ;;
   mlift (velox_check (isRunning o) "isRunning()"))%M.

Definition checkStateTransition (t : Task) (o : Op) (state : State)
  : outcome unit :=
  (velox_check (negb (State_eqb (state_ o) state)) "state_ != state" ;;;
   match state with
   | kRunning =>
       if negb (canSpill t o)
       then velox_check (State_eqb (state_ o) kWaitForBuild)
              "state_ == kWaitForBuild"
       else velox_check (negb (State_eqb (state_ o) kFinish))
              "state_ != kFinish"
   | kWaitForBuild | kWaitForProbe | kFinish =>
       velox_check (State_eqb (state_ o) kRunning) "state_ == kRunning"
   | kYield => Throw (VeloxRuntimeError "unreachable")
   end)%outcome.

Definition setState (i : nat) (state : State) : M World unit :=
  (o <- getOp i ;;
   w <- mget ;;
   mlift (checkStateTransition (task w) o state) ;;;
   modifyOp i (set_state state))%M.

Definition setRunning (i : nat) : M World unit := setState i kRunning.

(** [pool()->release()]: the unused reservation goes back to the pool. *)
Definition poolRelease (i : nat) : M World unit :=
  (modifyOp i (set_reservation 0) ;;; log (EvPoolRelease i))%M.

(** [SCOPE_EXIT { cleanup }]: runs when the scope is left, also by an
    exception. *)
Definition scope_exit {A} (cleanup : M World unit) (body : M World A)
  : M World A :=
  fun w =>
    let '(r, w') := body w in
    match r with
    | Ret _ | Throw _ => (r, snd (cleanup w'))
    | _ => (r, w')
    end.

(** *** The collaborators of the build side *)

(** Modelled from the spec: [HashJoinBridge::setAntiJoinHasNullKeys] is not
    among the sources.  The bridge is "marked 'anti join has null keys'". *)
Definition setAntiJoinHasNullKeys : M World unit :=
  (mmodify (fun w =>
      set_bridge (mkBridge true (bridgeTable (bridge w))
                    (bridgeSpillPartitions (bridge w))
                    (bridgeHasNullKeys (bridge w))) w) ;;;
   log EvSetAntiJoinHasNullKeys)%M.

(** Modelled from the spec: [HashJoinBridge::setHashTable] is not among the
    sources.  "JoinBridge.setHashTable(table, spillPartitions, hasNullKeys,
    spillFn) for probe-side handoff": the bridge keeps what it is given. *)
Definition setHashTable (table : option (list Row))
    (spillPartitions : list Row) (hasNullKeys : bool) : M World unit :=
  (mmodify (fun w =>
      set_bridge (mkBridge (antiJoinHasNullKeys (bridge w)) table
                    spillPartitions hasNullKeys) w) ;;;
   log EvSetHashTable)%M.

(** Modelled from the spec: [Task::allPeersFinished] is not among the
    sources.  "The last of N parallel build drivers to reach end-of-input
    collects all peers' partial tables"; "other drivers block on a promise
    until release".  The drivers that wait are kept in arrival order; the
    call answers [true] with the waiting peers for the last driver, and
    makes the others wait. *)
Definition allPeersFinished (i : nat) : M World (bool * list nat) :=
  fun w =>
    let waiting := barrier (task w) in
    if (List.length waiting + 1 =? List.length (ops w))%nat
    then (Ret (true, waiting), set_barrier [] w)
    else (Ret (false, []), set_barrier (waiting ++ [i]) w).

(** [HashBuildSpiller::spill()] on the container of the operator's
    table: the spiller is marked as triggered, and [SpillerBase::spill]
    (not among the sources) writes the rows of the container out. *)
Definition spillTable (o : Op) : Op :=
  match spiller_ o with
  | Some sp =>
      set_spiller
        (Some (mkSpiller true (finalized_ sp)
                 (spilled sp ++ match table_ o with
                                | Some rows => rows
                                | None => []
                                end))) o
  | None => o
  end.

(** Modelled from the spec: [BaseHashTable::prepareJoinTable] is not among
    the sources.  The last driver "collects all peers' partial tables and
    spill partitions, merges them into one shared table"; "exactly one
    merged table contains the union of both drivers' rows".  The rows of
    the merged table are kept as the rows of the table itself followed by
    those of the tables it is given, in the order in which it is given
    them. *)
Definition prepareJoinTable (rows : list Row) (otherTables : list (list Row))
  : list Row := rows ++ List.concat otherTables.

(** Modelled from the spec: [SpillerBase::finishSpill] is not among the
    sources.  "Spiller{spill(partitionId,vector), finishSpill(set),
    hashBits()}": the spiller is finalized and hands its spilled rows over
    to the set. *)
Definition finishSpill (sp : Spiller) : Spiller * list Row :=
  (mkSpiller (spillTriggered_ sp) true [], spilled sp).

(** *** Reclaim *)

Definition on_world {A} (c : M World A) : M (World * ReclaimerStats) A :=
  fun '(w, st) => let '(r, w') := c w in (r, (w', st)).

(** The refusal of [reclaim] because of a peer: the metric, the counter
    of the statistics passed by reference, and the warning. *)
Definition refuseReclaim : M (World * ReclaimerStats) unit :=
  (on_world (log EvMetricNonReclaimable) ;;;
   mmodify (fun '(w, st) =>
              (w, mkReclaimerStats (numNonReclaimableAttempts st + 1))) ;;;
   on_world (log (EvLogWarning "Can't reclaim from hash build operator")))%M.

(** Modelled from the spec: [Task::findPeerOperators] is not among the
    sources.  "spills every peer build operator's table content": the
    peers are the build operators of all the drivers of the pipeline, the
    caller included. *)
Definition findPeerOperators (w : World) : list nat :=
  seq 0 (List.length (ops w)).

(** The first loop of [reclaim]: [true] when a peer made it refuse. *)
Fixpoint checkPeers (operators : list nat) : M (World * ReclaimerStats) bool :=
  match operators with
  | [] => mret false
  | op :: rest =>
      (buildOp <- on_world (getOp op) ;;
       ctx <- mget ;;
       mlift (velox_check (canSpill (task (fst ctx)) buildOp)
                "buildOp->canSpill()") ;;;
       if nonReclaimableState buildOp
       then refuseReclaim ;;; mret true
       else checkPeers rest)%M
  end.

(** Modelled from the spec: [spillHashJoinTable(spillers, config)] is not
    among the sources.  "spills every peer build operator's table
    content": each spiller of the list runs [HashBuildSpiller::spill()]. *)
Fixpoint spillHashJoinTable (operators : list nat) : M World unit :=
  match operators with
  | [] => mret tt
  | op :: rest =>
      (buildOp <- getOp op ;;
       match spiller_ buildOp with
       | None => mlift Undefined
       | Some _ =>
           modifyOp op spillTable ;;;
           log (EvSpillTable op) ;;;
           spillHashJoinTable rest
       end)%M
  end.

(** The last loop of [reclaim]: [table_->clear(true)] and
    [pool()->release()] on every peer. *)
Fixpoint clearTables (operators : list nat) : M World unit :=
  match operators with
  | [] => mret tt
  | op :: rest =>
      (buildOp <- getOp op ;;
       match table_ buildOp with
       | None => mlift Undefined
       | Some _ =>
           modifyOp op (set_table (Some [])) ;;;
           log (EvClearTable op) ;;;
           poolRelease op ;;;
           clearTables rest
       end)%M
  end.

(** [operatorCtx_->driver()] and [spillConfig()] are not null for an
    operator that runs and can spill; their checks are not repeated here. *)
Definition reclaim (i : nat) (targetBytes : Z)
  : M (World * ReclaimerStats) unit :=
  (this <- on_world (getOp i) ;;
   ctx <- mget ;;
   let t := task (fst ctx) in
   mlift (velox_check (canSpill t this) "canSpill()") ;;;
   mlift (velox_check (negb (nonReclaimableSection_ this))
            "!nonReclaimableSection_") ;;;
   if exceededMaxSpillLevelLimit_ this then
     on_world
       (log (EvLogWarning
               "Can't reclaim from hash build operator, exceeded maximum spill level"))
   else if nonReclaimableState this then
     on_world (log EvMetricNonReclaimable) ;;;
     mmodify (fun '(w, st) =>
                (w, mkReclaimerStats (numNonReclaimableAttempts st + 1))) ;;;
     (* the warning prints [spiller_->finalized()] unless the state was
        cleared *)
     (if negb (stateCleared_ this)
         && match spiller_ this with Some _ => false | None => true end
      then mlift Undefined
      else on_world
             (log (EvLogWarning "Can't reclaim from hash build operator")))
   else
     mlift (velox_check (pauseRequested t) "task->pauseRequested()") ;;;
     let operators := findPeerOperators (fst ctx) in
     refused <- checkPeers operators ;;
     if refused : bool then mret tt
     else
       on_world (spillHashJoinTable operators) ;;;
       on_world (clearTables operators))%M.

(** *** Input and end of input

    The reservation of memory ([ensureInputFits], [ensureTableFits]) runs
    the arbitrator, which may suspend this operator and reclaim from it;
    the restore of a spilled partition feeds the partition through
    [addInput] again.  The three are parameters of the members below, as
    is the answer of the bridge to [spillInputOrFuture]. *)

(** [HashJoinBridge::SpillInput]: the partition to restore, if any. *)
Definition SpillInput : Type := option (list Row).

Section Members.
Variable ensureInputFits : nat -> Batch -> M World unit.
Variable ensureTableFits : nat -> Z -> M World unit.
Variable spillInputOrFuture : nat -> M World (option SpillInput).
Variable restoreSpillPartition : nat -> list Row -> M World unit.

(** [removeInputRowsForAntiJoinFilter]: rows with a null in a column
    the filter reads are deselected. *)
Definition removeInputRowsForAntiJoinFilter (o : Op) (input : Batch)
    (activeRows : Selection) : Selection :=
  map (fun '(r, b) =>
         b && negb (existsb (fun ch => nullAt ch (keys r))
                      (keyFilterChannels_ o))
           && negb (existsb (fun ch => nullAt ch (dependents r))
                      (dependentFilterChannels_ o)))
      (combine input activeRows).

(** [spillInput]: once spilling is triggered the selected rows go to
    the spiller and are deselected. *)
Definition spillInput (i : nat) (input : Batch) (activeRows : Selection)
  : M World Selection :=
  (o <- getOp i ;;
   w <- mget ;;
   match spiller_ o with
   | Some sp =>
       if negb (canSpill (task w) o) || negb (spillTriggered_ sp)
          || negb (hasSelections activeRows)
       then mret activeRows
       else
         mlift (velox_check (negb (finalized_ sp)) "!finalized_") ;;;
         modifyOp i (set_spiller
                       (Some (mkSpiller (spillTriggered_ sp) (finalized_ sp)
                                (spilled sp ++ selectedRows input activeRows)))) ;;;
         mret (map (fun _ => false) activeRows)
   | None => mret activeRows
   end)%M.

Fixpoint gatherPeers (i : nat) (peers : list nat) (numRows : Z)
    (otherBuilds : list nat) : M World (option bool * Z * list nat) :=
  match peers with
  | [] => mret (None, numRows, otherBuilds)
  | peer :: rest =>
      (build <- getOp peer ;;
       this <- getOp i ;;
       returned <-
         (if joinHasNullKeys_ build then
            modifyOp i (set_joinHasNullKeys true) ;;;
            if isAntiJoin (joinType_ this) && nullAware_ this
               && negb (filter (joinNode_ this))
            then setAntiJoinHasNullKeys ;;; mret true
            else mret false
          else mret false) ;;
       if returned : bool then mret (Some true, numRows, otherBuilds)
       else
         mlift (velox_check (negb (stateCleared_ build))
                  "Internal state for a peer is empty") ;;;
         match table_ build with
         | None => mlift Undefined
         | Some rows =>
             gatherPeers i rest
               (U64.wrap (numRows + Z.of_nat (List.length rows)))
               (otherBuilds ++ [peer])
         end)%M
  end.

Fixpoint takeTables (otherBuilds : list nat)
    (otherTables : list (list Row)) (spillPartitions : list Row)
  : M World (list (list Row) * list Row) :=
  match otherBuilds with
  | [] => mret (otherTables, spillPartitions)
  | b :: rest =>
      (build <- getOp b ;;
       mlift (velox_check (negb (stateCleared_ build))
                "Internal state for a peer is empty") ;;;
       modifyOp b (set_stateCleared true) ;;;
       match table_ build with
       | None => mthrow (VeloxRuntimeError "build->table_ != nullptr")
       | Some rows =>
           modifyOp b (set_table None) ;;;
           modifyOp b (set_spiller None) ;;;
           match spiller_ build with
           | Some sp =>
               log (EvFinishSpill b) ;;;
               takeTables rest (otherTables ++ [rows])
                 (spillPartitions ++ snd (finishSpill sp))
           | None => takeTables rest (otherTables ++ [rows]) spillPartitions
           end
       end)%M
  end.

Definition finishHashBuild (i : nat) : M World bool :=
  (checkRunning i ;;;
   poolRelease i ;;;
   '(last, peers) <- allPeersFinished i ;;
   if negb last then setState i kWaitForBuild ;;; mret false
   else
     scope_exit (log (EvReleasePeers peers))
       (this <- getOp i ;;
        if joinHasNullKeys_ this && isAntiJoin (joinType_ this)
           && nullAware_ this && negb (filter (joinNode_ this))
        then setAntiJoinHasNullKeys ;;; mret true
        else
          match table_ this with
          | None => mlift Undefined
          | Some ownRows =>
              '(returned, numRows, otherBuilds) <-
                gatherPeers i peers
                  (U64.wrap (0 + Z.of_nat (List.length ownRows))) [] ;;
              match returned with
              | Some b => mret b
              | None =>
                  ensureTableFits i numRows ;;;
                  '(otherTables, spillPartitions) <-
                    takeTables otherBuilds [] [] ;;
                  this <- getOp i ;;
                  spillPartitions <-
                    match spiller_ this with
                    | Some sp =>
                        modifyOp i (set_spiller (Some (fst (finishSpill sp)))) ;;;
                        log (EvFinishSpill i) ;;;
                        mret (spillPartitions ++ snd (finishSpill sp))
                    | None => mret spillPartitions
                    end ;;
                  scope_exit (poolRelease i)
                    (this <- getOp i ;;
                     match table_ this with
                     | None => mlift Undefined
                     | Some rows =>
                         modifyOp i (set_table
                                       (Some (prepareJoinTable rows
                                                otherTables))) ;;;
                         log (EvPrepareJoinTable (List.length otherTables)) ;;;
                         this <- getOp i ;;
                         w <- mget ;;
                         mlift (velox_check
                                  (negb (canReclaim (task w) this)
                                   || match spiller_ this with
                                      | Some _ => true
                                      | None => false
                                      end) "spiller_ != nullptr") ;;;
                         setHashTable (table_ this) spillPartitions
                           (joinHasNullKeys_ this) ;;;
                         modifyOp i (set_table None) ;;;
                         (if canSpill (task w) this
                          then modifyOp i (set_stateCleared true)
                          else mret tt) ;;;
                         mret true
                     end)
              end
          end))%M.

Definition setupSpillInput (i : nat) (spillInput : SpillInput)
  : M World unit :=
  (checkRunning i ;;;
   match spillInput with
   | None => setState i kFinish
   | Some partition => restoreSpillPartition i partition
   end)%M.

Definition postHashBuildProcess (i : nat) : M World unit :=
  (checkRunning i ;;;
   this <- getOp i ;;
   w <- mget ;;
   if negb (canSpill (task w) this) then setState i kFinish
   else
     spillInput <- spillInputOrFuture i ;;
     match spillInput with
     | None => setState i kWaitForProbe
     | Some si => setupSpillInput i si
     end)%M.

Definition noMoreInputInternal (i : nat) : M World unit :=
  (finished <- finishHashBuild i ;;
   if finished : bool then postHashBuildProcess i else mret tt)%M.

Definition noMoreInput (i : nat) : M World unit :=
  (checkRunning i ;;;
   this <- getOp i ;;
   if noMoreInput_ this then mret tt
   else
     modifyOp i (set_noMoreInput true) ;;;
     noMoreInputInternal i)%M.

(** The part of [addInput] that follows the anti-join test: the batch
    is spilled, and what remains selected is stored in the table. *)
Definition addInputRows (i : nat) (input : Batch) (activeRows : Selection)
  : M World unit :=
  (activeRows <- spillInput i input activeRows ;;
   if negb (hasSelections activeRows) then mret tt
   else
     this <- getOp i ;;
     match table_ this with
     | None => mlift Undefined
     | Some rows =>
         modifyOp i (set_table (Some (rows ++ selectedRows input activeRows)))
     end)%M.

Definition addInput (i : nat) (input : Batch) : M World unit :=
  (checkRunning i ;;;
   ensureInputFits i input ;;;
   let activeRows := setAll input in
   this <- getOp i ;;
   (if negb (isInputFromSpill this) then
      let nonNull := deselectRowsWithNulls input activeRows in
      modifyOp i (set_numNullKeys
                    (numNullKeys this
                     + (Z.of_nat (List.length activeRows)
                        - countSelected nonNull)))
    else mret tt) ;;;
   this <- getOp i ;;
   activeRows <-
     (if negb (isRightJoin (joinType_ this))
         && negb (isFullJoin (joinType_ this))
         && negb (isRightSemiProjectJoin (joinType_ this))
         && negb (isLeftNullAwareJoinWithFilter (joinNode_ this))
      then
        let activeRows := deselectRowsWithNulls input activeRows in
        (if nullAware_ this && negb (joinHasNullKeys_ this)
            && (countSelected activeRows <? Z.of_nat (List.length input))
         then modifyOp i (set_joinHasNullKeys true)
         else mret tt) ;;;
        mret activeRows
      else
        (if nullAware_ this && negb (joinHasNullKeys_ this)
            && existsb hasNullKey input
         then modifyOp i (set_joinHasNullKeys true)
         else mret tt) ;;;
        mret activeRows) ;;
   this <- getOp i ;;
   if isAntiJoin (joinType_ this) && filter (joinNode_ this) then
     addInputRows i input
       (if filterPropagatesNulls_ this
        then removeInputRowsForAntiJoinFilter this input activeRows
        else activeRows)
   else if isAntiJoin (joinType_ this) && nullAware_ this
           && joinHasNullKeys_ this
   then noMoreInput i
   else addInputRows i input activeRows)%M.
End Members.
End HashBuild.

(** * Statements

    The definitions the theorems are stated with: what the specification
    says where it is compared with the code, and concrete participants,
    pools and operators. *)

Module ParticipantStatements.
Import ArbitrationParticipant.

(** What the specification says of [maxShrinkCapacity]: the free bytes
    above the floor [max(minFreeCapacity, capacity * minFreeCapacityRatio)],
    all the free bytes for an inactive pool or without a floor. *)
Definition spec_maxShrinkCapacity {P} `{MemoryPool P} (c : Config) (p : P)
  : outcome Z :=
  if inactivePool p || (minFreeCapacity c =? 0) then Ret (freeBytes p)
  else
    (scaled <- cast_or_undefined
                 (Double.scale (capacity p) (minFreeCapacityRatio c)) ;;
     let floor := Z.max (minFreeCapacity c) scaled in
     Ret (if floor <? freeBytes p then freeBytes p - floor else 0))%outcome.

Definition c1_config : Config :=
  mkConfig 0 0 0 Double.zero
           (128 * U64.MB) (Double.ldexp 1 (-2))
           0 Double.zero.

Definition c1_pool : SimplePool.t :=
  SimplePool.make (1024 * U64.MB) (512 * U64.MB) (512 * U64.MB)
                  (2048 * U64.MB) None.

Definition c8_config : Config :=
  mkConfig 0 (16 * U64.MB) 0 Double.zero
           (32 * U64.MB) (Double.ldexp 1 (-1))
           0 Double.zero.

Definition c8_pool : SimplePool.t :=
  SimplePool.make (64 * U64.MB) 0 (48 * U64.MB) (128 * U64.MB) None.

Definition value_or (o : option Z) (d : Z) : Z :=
  match o with
  | Some v => v
  | None => d
  end.

Definition c9_config : Config :=
  mkConfig 0 (16 * U64.MB) 0 Double.zero
           (32 * U64.MB) (Double.ldexp 1 (-1))
           0 Double.zero.

Definition c9_pool : SimplePool.t :=
  SimplePool.make (64 * U64.MB) (16 * U64.MB) (48 * U64.MB) (128 * U64.MB)
                  (Some (24 * U64.MB)).

(** What the specification says of [getGrowTargets]: the starting value of
    [maxGrowBytes], then the bounds applied to it. *)
Definition spec_growBase {P} `{MemoryPool P} (c : Config) (p : P)
    (requestBytes : Z) : option Z :=
  if (fastExponentialGrowthCapacityLimit c =? 0)
     && Double.eqb (slowCapacityGrowRatio c) Double.zero
  then Some requestBytes
  else if 2 * capacity p <=? fastExponentialGrowthCapacityLimit c
  then Some (capacity p)
  else Double.scale (capacity p) (slowCapacityGrowRatio c).

Definition spec_minGrowCapacity {P} `{MemoryPool P} (c : Config) (p : P) : Z :=
  Z.max 0 (minCapacity c - capacity p).

Definition spec_maxGrowCapacity {P} `{MemoryPool P} (maxCap : Z) (p : P) : Z :=
  maxCap - capacity p.

Definition spec_maxGrowBytes {P} `{MemoryPool P} (c : Config) (maxCap : Z)
    (p : P) (requestBytes base : Z) : Z :=
  Z.min (spec_maxGrowCapacity maxCap p)
        (Z.max (Z.max requestBytes base) (spec_minGrowCapacity c p)).

Definition c2_config : Config :=
  mkConfig 0 0 0 Double.zero 0 Double.zero 0 Double.zero.

(** Doubling up to 256MB, then growth by a quarter. *)
Definition c2_policy_config : Config :=
  mkConfig 0 0 (256 * U64.MB) (Double.ldexp 1 (-2)) 0 Double.zero 0 Double.zero.

Definition c2_pool : SimplePool.t :=
  SimplePool.make (64 * U64.MB) (16 * U64.MB) (48 * U64.MB) (128 * U64.MB) None.

Definition c10_config : Config :=
  mkConfig 0 0 0 Double.zero 0 Double.zero 0 (Double.ldexp 1 (-3)).

Definition c10_participant : Participant SimplePool.t :=
  mkParticipant 1 c10_config (128 * U64.MB)
    (SimplePool.make 0 0 0 (128 * U64.MB) None)
    None [] false 3 2 2 1 0 0 [].

Definition c7_config : Config :=
  mkConfig 0 0 0 Double.zero 0 Double.zero 0 Double.zero.

Definition c7_participant : Participant SimplePool.t :=
  mkParticipant 1 c7_config (128 * U64.MB)
    (SimplePool.mk (32 * U64.MB) 0 (64 * U64.MB) (128 * U64.MB) None
                   true None None true)
    None [] true 3 2 2 1 (32 * U64.MB) 0 [].

(** What the specification says of a failed reclaim: the call returns, the
    pool has been aborted with the exception and then force-shrunk, and the
    value returned is what that shrink freed. *)
Definition spec_reclaim_failure {P} `{MemoryPool P}
    (a : Participant P) (st : ReclaimerStats)
    (targetBytes maxWaitTimeNs : Z) (e : exn) : Prop :=
  exists n a' st',
    reclaim targetBytes maxWaitTimeNs true (a, st) = (Ret n, (a', st')) /\
    aborted_ a' = true /\
    In (EvPoolAbort e) (trace_ a') /\
    In (EvPoolShrink 0) (trace_ a').

(** The pool's reclaim callback, or the shrink that follows it, throws [e]
    under the reclaim mutex; [a1] and [st1] are the participant and the
    statistics when the exception reaches the handler. *)
Definition callbackOrShrinkThrows {P} `{MemoryPool P}
    (a : Participant P) (st : ReclaimerStats) (t maxWaitTimeNs : Z)
    (e : exn) (a1 : Participant P) (st1 : ReclaimerStats) : Prop :=
  let waitMs := maxWaitTimeNs / 1000000 in
  let called := emit (EvPoolReclaim t waitMs)
                     (bump numReclaims_incr (emit EvLockReclaimMutex a)) in
  (exists p1,
      pool_reclaim t waitMs st (pool_ a) = (Throw e, st1, p1) /\
      a1 = emit EvUnlockReclaimMutex (with_pool p1 called)) \/
  (exists rb p1 a',
      pool_reclaim t waitMs st (pool_ a) = (Ret rb, st1, p1) /\
      shrink false (with_pool p1 called) = (Throw e, a') /\
      a1 = emit EvUnlockReclaimMutex a').

Definition c3_config : Config :=
  mkConfig 0 0 0 Double.zero 0 Double.zero 0 Double.zero.

(** A pool whose reclaim callback throws [ExternalError 7]. *)
Definition c3_pool (isAborted : bool) : SimplePool.t :=
  SimplePool.mk (64 * U64.MB) (16 * U64.MB) (48 * U64.MB) (128 * U64.MB)
                (Some (8 * U64.MB)) isAborted (Some (ExternalError 7)) None true.

Definition c3_participant (isAborted : bool) : Participant SimplePool.t :=
  mkParticipant 1 c3_config (128 * U64.MB) (c3_pool isAborted)
    None [] isAborted 0 0 0 0 0 0 [].

Definition c4_config : Config :=
  mkConfig 0 0 0 Double.zero 0 Double.zero 0 Double.zero.

(** Operation 10 runs; nothing waits. *)
Definition c4_participant : Participant SimplePool.t :=
  mkParticipant 1 c4_config (128 * U64.MB)
    (SimplePool.make (64 * U64.MB) 0 0 (128 * U64.MB) None)
    (Some 10) [] false 1 0 0 0 0 0 [].

Definition c4_history : list Call :=
  [CStart 1; CStart 3; CStart 2; CFinish 10; CFinish 1; CFinish 3].

(** Tactics: running the monads and reading fields. *)
Ltac wf_bounds :=
  vm_compute; repeat split; solve [discriminate | reflexivity].

Ltac run_m :=
  cbv [mbind mget mmodify mlift mret mthrow try_catch noexcept on_self
       with_timedLock with_reclaimMutex call_pool_shrink call_pool_abort
       call_pool_grow call_pool_reclaim].

Ltac fields :=
  cbn [pool_ aborted_ trace_ config_ runningOp_ waitOps_ maxCapacity_ id_
       numRequests_ numReclaims_ numShrinks_ numGrows_ reclaimedBytes_
       growBytes_ with_pool with_aborted with_ops with_stats bump emit stats
       fst snd].
End ParticipantStatements.

Module HashBuildStatements.
Import HashBuild.
Local Open Scope list_scope.

(** An operator after [reclaim] took its memory: the table's rows are in
    the spiller, the table is empty, the reservation is released. *)
Definition clearedOp (o : Op) : Op := set_reservation 0 (set_table (Some []) o).

Definition reclaimedOp (o : Op) : Op := clearedOp (spillTable o).

Definition clearEvents (operators : list nat) : list Event :=
  flat_map (fun i => [EvClearTable i; EvPoolRelease i]) operators.

(** The world after a refusal that counts as a non-reclaimable attempt. *)
Definition refused (w : World) : World :=
  emit (EvLogWarning "Can't reclaim from hash build operator")
       (emit EvMetricNonReclaimable w).

(** What the specification says of a refusal: the call returns, one more
    non-reclaimable attempt is recorded, every operator is untouched. *)
Definition spec_reclaim_refuses (i : nat) (w : World) (st : ReclaimerStats)
    (targetBytes : Z) : Prop :=
  exists w',
    reclaim i targetBytes (w, st)
      = (Ret tt, (w', mkReclaimerStats (numNonReclaimableAttempts st + 1))) /\
    ops w' = ops w.

Definition sampleRow (k : Z) : Row := mkRow [Some k] [Some (k * 10)].

(** A running build operator of an inner join that holds [rows] and can
    spill. *)
Definition sampleOp (rows : list Row) : Op :=
  mkOp kRunning (mkJoinNode kInner false false) false false
       (Some rows) (Some (mkSpiller false false []))
       false false false false true false [] [] 0 4096.

Definition in_nonReclaimableSection (o : Op) : Op :=
  mkOp (state_ o) (joinNode_ o) (joinHasNullKeys_ o) (noMoreInput_ o)
       (table_ o) (spiller_ o) (spillInputReader_ o) (stateCleared_ o)
       true (exceededMaxSpillLevelLimit_ o)
       (spillConfig_ o) (filterPropagatesNulls_ o) (keyFilterChannels_ o)
       (dependentFilterChannels_ o) (numNullKeys o) (reservation o).

Definition exceeded_spill_level (o : Op) : Op :=
  mkOp (state_ o) (joinNode_ o) (joinHasNullKeys_ o) (noMoreInput_ o)
       (table_ o) None (spillInputReader_ o) (stateCleared_ o)
       (nonReclaimableSection_ o) true
       (spillConfig_ o) (filterPropagatesNulls_ o) (keyFilterChannels_ o)
       (dependentFilterChannels_ o) (numNullKeys o) (reservation o).

Definition sampleTask : Task := mkTask false false 1 true [].

Definition sampleWorld (os : list Op) : World :=
  mkWorld os (mkBridge false None [] false) sampleTask [].

Definition c6_section_world : World :=
  sampleWorld [in_nonReclaimableSection (sampleOp [sampleRow 1]);
               sampleOp [sampleRow 2]].

Definition c6_exceeded_world : World :=
  sampleWorld [exceeded_spill_level (sampleOp [sampleRow 1]);
               sampleOp [sampleRow 2]].

Definition c6_world : World :=
  sampleWorld [sampleOp [sampleRow 1; sampleRow 2]; sampleOp [sampleRow 3]].

(** ** The null-aware anti join without filter *)
Definition antiNoFilter (o : Op) : bool :=
  isAntiJoin (joinType_ o) && nullAware_ o && negb (filter (joinNode_ o)).






(** Reservations that succeed without arbitration, a probe side that has
    not finished, and no partition to restore. *)
Definition inputFits : nat -> Batch -> M World unit := fun _ _ => mret tt.
Definition tableFits : nat -> Z -> M World unit :=
  fun _ numRows => log (EvEnsureTableFits numRows).
Definition probeRunning : nat -> M World (option SpillInput) :=
  fun _ => mret None.
Definition nothingToRestore : nat -> list Row -> M World unit :=
  fun _ _ => mret tt.

(** A build operator of a null-aware anti join without filter. *)
Definition antiOp (state : State) (hasNullKeys : bool) (rows : list Row) : Op :=
  mkOp state (mkJoinNode kAnti true false) hasNullKeys false
       (Some rows) (Some (mkSpiller false false []))
       false false true false true false [] [] 0 4096.


(** Two drivers: driver 1 waits at the barrier, driver 0 receives a batch
    with a null key. *)
Definition c5_last_world : World :=
  mkWorld [antiOp kRunning false [sampleRow 1];
           antiOp kWaitForBuild false [sampleRow 2]]
          (mkBridge false None [] false) (mkTask false false 1 false [1%nat]) [].

Definition c5_batch : Batch := [sampleRow 3; mkRow [None] [Some 40]].

(** Two drivers: driver 1 waits at the barrier and has seen a null key,
    driver 0 reaches the end of its input. *)
Definition c5_peer_null_world : World :=
  mkWorld [antiOp kRunning false [sampleRow 1];
           antiOp kWaitForBuild true [sampleRow 2]]
          (mkBridge false None [] false) (mkTask false false 1 false [1%nat]) [].

(** Tactics: running the monad and reading the fields of the world. *)
Ltac run_m :=
  cbv [mbind mget mmodify mlift mret mthrow try_catch noexcept].

Ltac world_fields :=
  cbn [ops bridge task events set_ops set_bridge set_barrier emit fst snd].
End HashBuildStatements.

(** * Further members

    The members of the two files that the statements above do not reach,
    and what they guarantee. *)

(** ** Further members of the participant *)

Module ParticipantMembers.
Import ArbitrationParticipant.
Local Open Scope list_scope.

Section Members.
Context {P : Type} `{MemoryPool P}.

Definition hasRunningOp (a : Participant P) : bool :=
  match runningOp_ a with
  | Some _ => true
  | None => false
  end.

(** [waitOps_.size()]. *)
Definition numWaitingOps (a : Participant P) : Z :=
  Z.of_nat (List.length (waitOps_ a)).

(** The body of [~ArbitrationParticipant].  A destructor is [noexcept]: a
    check that fails in it calls [std::terminate]. *)
Definition destructor_checks (a : Participant P) : outcome unit :=
  match
    (velox_check (negb (hasRunningOp a)) "runningOp_ == nullptr" ;;;
     velox_check (match waitOps_ a with [] => true | _ => false end)
       "waitOps_.empty()")%outcome
  with
  | Throw e => Terminate e
  | r => r
  end.

(** [ArbitrationCandidate::ArbitrationCandidate]: the capacities of a
    participant, read once.  The member types are declared in the header;
    the three values are kept as the queries return them. *)
Record ArbitrationCandidate : Type := mkArbitrationCandidate {
  currentCapacity : Z;
  reclaimableUsedCapacity_ : Z;
  reclaimableFreeCapacity_ : Z
}.

Definition ArbitrationCandidate_new (a : Participant P)
    (freeCapacityOnly : bool) : outcome ArbitrationCandidate :=
  (let currentCapacity := self_capacity a in
   let used :=
     if freeCapacityOnly then 0
     else reclaimableUsedCapacity (config_ a) (pool_ a) in
   free <- reclaimableFreeCapacity (config_ a) (pool_ a) ;;
   Ret (mkArbitrationCandidate currentCapacity used free))%outcome.
End Members.

(** [globalArbitrationGrowCapacity_], an [int64_t] of the participant that
    only the three members below touch; they are run on the field. *)
Definition setPendingArbitrationGrowCapacity (growCapacity : Z) : M Z unit :=
  (g <- mget ;;
   mlift (velox_check (g =? 0) "globalArbitrationGrowCapacity_ == 0") ;;;
   mmodify (fun _ => growCapacity))%M.

Definition clearGlobalArbitrationGrowCapacity : M Z unit :=
  (g <- mget ;;
   mlift (velox_check (negb (g =? 0)) "globalArbitrationGrowCapacity_ != 0") ;;;
   mmodify (fun _ => 0))%M.

Definition globalArbitrationGrowCapacity (g : Z) : Z := g.

(** A call of a history is an arrival. *)
Definition isStart (c : Call) : bool :=
  match c with
  | CStart _ => true
  | CFinish _ => false
  end.
End ParticipantMembers.

(** ** Further definitions for the build operator *)

Module HashBuildMembers.
Import HashBuild.
Local Open Scope list_scope.

(** The world in which the operator of driver [i] is [F] of the one in
    [os], the other operators being those of [os]. *)
Definition at_op (i : nat) (os : list Op) (F : Op -> Op) (b : Bridge)
    (t : Task) (e : list Event) : World := mkWorld (update i F os) b t e.

(** A row has a null in a column that the filter of an anti join reads. *)
Definition readsNull (o : Op) (r : Row) : bool :=
  existsb (fun ch => nullAt ch (keys r)) (keyFilterChannels_ o)
  || existsb (fun ch => nullAt ch (dependents r)) (dependentFilterChannels_ o).

(** The operator spills what it is given. *)
Definition spilling (t : Task) (o : Op) : bool :=
  canSpill t o
  && match spiller_ o with
     | Some sp => spillTriggered_ sp
     | None => false
     end.

(** [setupTable]: the template argument and the two flags with which the
    table is created ([HashTable<ignoreNullKeys>::createForJoin]); the
    hashers and the types of the columns are left out. *)
Definition isLeftSemiFilterJoin (t : JoinType) : bool :=
  match t with kLeftSemiFilter => true | _ => false end.
Definition isRightSemiFilterJoin (t : JoinType) : bool :=
  match t with kRightSemiFilter => true | _ => false end.

Record TableMode : Type := mkTableMode {
  ignoreNullKeys : bool;
  allowDuplicates : bool;
  hasProbedFlag : bool
}.

Definition setupTable (n : JoinNode) : TableMode :=
  if isRightJoin (joinType n) || isFullJoin (joinType n)
     || isRightSemiProjectJoin (joinType n)
  then mkTableMode false true true
  else
    let dropDuplicates :=
      negb (filter n)
      && (isLeftSemiFilterJoin (joinType n)
          || isLeftSemiProjectJoin (joinType n) || isAntiJoin (joinType n)) in
    let needProbedFlag := isRightSemiFilterJoin (joinType n) in
    if isLeftNullAwareJoinWithFilter n
    then mkTableMode false (negb dropDuplicates) needProbedFlag
    else mkTableMode true (negb dropDuplicates) needProbedFlag.

(** The test of [addInput] under which the rows with a null key are
    deselected. *)
Definition ignoresNullKeys (n : JoinNode) : bool :=
  negb (isRightJoin (joinType n)) && negb (isFullJoin (joinType n))
  && negb (isRightSemiProjectJoin (joinType n))
  && negb (isLeftNullAwareJoinWithFilter n).

Definition nullKeyRows (input : Batch) : Z :=
  Z.of_nat (List.length (List.filter hasNullKey input)).

(** What the last driver takes from a peer: the rows of its table and the
    rows its spiller wrote out. *)
Definition tableRows (os : list Op) (p : nat) : list Row :=
  match nth_error os p with
  | Some o => match table_ o with Some rows => rows | None => [] end
  | None => []
  end.

Definition spilledRows (os : list Op) (p : nat) : list Row :=
  match nth_error os p with
  | Some o => match spiller_ o with Some sp => spilled sp | None => [] end
  | None => []
  end.

Definition sawNullKey (os : list Op) (p : nat) : bool :=
  match nth_error os p with
  | Some o => joinHasNullKeys_ o
  | None => false
  end.

(** A peer after the last driver took its table and its spiller. *)
Definition takenOp (o : Op) : Op :=
  set_spiller None (set_table None (set_stateCleared true o)).

Definition takeAll (bs : list nat) (os : list Op) : list Op :=
  fold_left (fun os b => update b takenOp os) bs os.

Definition finishSpillEvents (os : list Op) (bs : list nat) : list Event :=
  flat_map (fun b => match nth_error os b with
                     | Some o => match spiller_ o with
                                 | Some _ => [EvFinishSpill b]
                                 | None => []
                                 end
                     | None => []
                     end) bs.

(** The rows that the gathering loop of [finishHashBuild] counts, from
    [numRows] on: [numRows += build->table_->rows()->numRows()] for each
    peer. *)
Fixpoint gatheredRows (os : list Op) (peers : list nat) (numRows : Z) : Z :=
  match peers with
  | [] => numRows
  | p :: rest =>
      gatheredRows os rest
        (U64.wrap (numRows + Z.of_nat (List.length (tableRows os p))))
  end.

(** The world in which [finishHashBuild] of the last driver calls
    [ensureTableFits]: the operator has released its reservation and
    recorded whether a peer saw a null key, and the barrier is empty. *)
Definition beforeTableFits (i : nat) (w : World) : World :=
  set_barrier []
    (mkWorld
       (update i
          (fun o => if existsb (sawNullKey (ops w)) (barrier (task w))
                    then set_joinHasNullKeys true (set_reservation 0 o)
                    else set_reservation 0 o)
          (ops w))
       (bridge w) (task w) (events w ++ [EvPoolRelease i])).

(** The world in which [noMoreInput] calls [finishHashBuild]. *)
Definition afterNoMoreInput (i : nat) (w : World) : World :=
  set_ops (update i (set_noMoreInput true) (ops w)) w.

(** A peer whose table the last driver can take. *)
Definition readyPeer (os : list Op) (p : nat) : Prop :=
  exists o rows,
    nth_error os p = Some o /\ stateCleared_ o = false /\ table_ o = Some rows.
End HashBuildMembers.

(** ** Columns of the build side

    The constructor of [HashBuild] splits the columns of the build side
    into join keys and dependents, [setupFilterForAntiJoins] records the
    columns the filter of an anti join reads, [addInput] decodes a batch
    through these lists, and a spilled batch is laid out keys first. *)

Module HashBuildChannels.
Import HashBuild.
Local Open Scope list_scope.
Local Open Scope nat_scope.

(** One row of an input batch: a value per column, a null being [None]. *)
Definition InputRow : Type := list (option Z).

Record Channels : Type := mkChannels {
  keyChannels_ : list nat;
  keyChannelMap_ : nat -> option nat;   (* column -> index of the key *)
  dependentChannels_ : list nat
}.

(** [keyChannelMap_[channel] = i]. *)
Definition assign (m : nat -> option nat) (channel i : nat) : nat -> option nat :=
  fun c => if c =? channel then Some i else m c.

(** The first loop of the constructor over [joinNode_->rightKeys()];
    [rightKeys] holds the channel [exprToChannel] gives for each key. *)
Fixpoint setupKeyChannels (rightKeys : list nat) (i : nat)
    (m : nat -> option nat) (keyChannels : list nat)
  : (nat -> option nat) * list nat :=
  match rightKeys with
  | [] => (m, keyChannels)
  | channel :: rest =>
      setupKeyChannels rest (S i) (assign m channel i) (keyChannels ++ [channel])
  end.

(** The constructor: the key channels, then every column that is not a
    key as a dependent, in increasing order. *)
Definition HashBuild_new (inputSize : nat) (rightKeys : list nat) : Channels :=
  let '(m, keyChannels) := setupKeyChannels rightKeys 0 (fun _ => None) [] in
  mkChannels keyChannels m
    (List.filter (fun i => match m i with None => true | Some _ => false end)
       (seq 0 inputSize)).

(** [std::lower_bound(first, last, x) - first] on a sorted range: the
    position of the first element that is not less than [x]. *)
Fixpoint lower_bound (l : list nat) (x : nat) : nat :=
  match l with
  | [] => 0
  | y :: l' => if y <? x then S (lower_bound l' x) else 0
  end.

(** [setupFilterForAntiJoins]: [fields] holds, for each distinct field of
    the filter, the answer of [inputType->getChildIdxIfExists]; the result
    is [(keyFilterChannels_, dependentFilterChannels_)]. *)
Definition setupFilterForAntiJoins (c : Channels) (propagatesNulls : bool)
    (fields : list (option nat)) : list nat * list nat :=
  if propagatesNulls then
    fold_left
      (fun '(keyFilter, dependentFilter) field =>
         match field with
         | None => (keyFilter, dependentFilter)
         | Some index =>
             match keyChannelMap_ c index with
             | Some key => (keyFilter ++ [key], dependentFilter)
             | None =>
                 (keyFilter,
                  dependentFilter ++ [lower_bound (dependentChannels_ c) index])
             end
         end)
      fields ([], [])
  else ([], []).

(** The columns of a row, as [addInput] decodes them; a channel outside
    the row has no column. *)
Fixpoint columns (row : InputRow) (channels : list nat)
  : option (list (option Z)) :=
  match channels with
  | [] => Some []
  | ch :: rest =>
      match nth_error row ch, columns row rest with
      | Some v, Some vs => Some (v :: vs)
      | _, _ => None
      end
  end.

Definition decodeRow (c : Channels) (row : InputRow) : option Row :=
  match columns row (keyChannels_ c), columns row (dependentChannels_ c) with
  | Some ks, Some ds => Some (mkRow ks ds)
  | _, _ => None
  end.

(** [maybeSetupSpillChildVectors]: a spilled row holds the key columns,
    the dependent columns and, for a join that needs it, a probed flag
    that is false. *)
Definition spillRow (c : Channels) (needProbedFlagSpill : bool)
    (row : InputRow) : option InputRow :=
  match columns row (keyChannels_ c), columns row (dependentChannels_ c) with
  | Some ks, Some ds =>
      Some (ks ++ ds ++ if needProbedFlagSpill then [Some 0%Z] else [])
  | _, _ => None
  end.

(** [std::iota] of [setupSpillInput]: the channels of a restored
    partition. *)
Definition restoredChannels (c : Channels) : Channels :=
  mkChannels (seq 0 (List.length (keyChannels_ c))) (keyChannelMap_ c)
    (seq (List.length (keyChannels_ c)) (List.length (dependentChannels_ c))).

(** A field of the filter is null in a row. *)
Definition fieldIsNull (row : InputRow) (field : option nat) : bool :=
  match field with
  | Some index => nullAt index row
  | None => false
  end.
End HashBuildChannels.

(** ** Inputs of the examples *)

Module MemberStatements.
Import ArbitrationParticipant ParticipantStatements HashBuild HashBuildStatements.
Import HashBuildChannels.
Local Open Scope list_scope.

(** An idle participant over a pool of 64MB of which 16MB are in use and
    24MB can be reclaimed. *)
Definition idleParticipant : Participant SimplePool.t :=
  mkParticipant 1 c9_config (128 * U64.MB) c9_pool
    None [] false 0 0 0 0 0 0 [].

(** A pool that does not report itself aborted after [abort]. *)
Definition forgetfulPool : SimplePool.t :=
  SimplePool.mk (64 * U64.MB) 0 0 (128 * U64.MB) None false None None false.

Definition forgetfulParticipant : Participant SimplePool.t :=
  mkParticipant 1 c4_config (128 * U64.MB) forgetfulPool
    None [] false 0 0 0 0 0 0 [].

(** Reservations that succeed after the arbitrator reclaimed from the
    operator itself: its table has been spilled and cleared. *)
Definition inputFitsAfterSpill : nat -> Batch -> M World unit :=
  fun i _ => modifyOp i reclaimedOp.
Definition tableFitsAfterSpill : nat -> Z -> M World unit :=
  fun i _ => modifyOp i reclaimedOp.

(** Two drivers of an inner join: driver 1 waits at the barrier, driver 0
    reaches the end of its input. *)
Definition mergeWorld : World :=
  mkWorld [sampleOp [sampleRow 1];
           set_state kWaitForBuild (sampleOp [sampleRow 2])]
          (mkBridge false None [] false) (mkTask false false 1 false [1%nat]) [].

(** A build side of three columns whose join key is column 1; the filter
    of the anti join reads columns 2 and 1 and a field that is not a
    column of the build side. *)
Definition filterFields : list (option nat) := [Some 2%nat; Some 1%nat; None].

Definition filterOp : Op :=
  mkOp kRunning (mkJoinNode kAnti true true) false false
       (Some []) None false false false false true true
       (fst (setupFilterForAntiJoins (HashBuild_new 3 [1%nat]) true filterFields))
       (snd (setupFilterForAntiJoins (HashBuild_new 3 [1%nat]) true filterFields))
       0 0.

Definition filterInputs : list InputRow :=
  [[Some 5; Some 7; None]; [Some 1; Some 2; Some 3]].

Definition filterBatch : Batch :=
  [mkRow [Some 7] [Some 5; None]; mkRow [Some 2] [Some 1; Some 3]].
End MemberStatements.

(** * Properties of the participant *)

Module ParticipantProofs.
Import ArbitrationParticipant ParticipantStatements.

(** ** Rounding to binary64

    The product of a capacity and a ratio in [0, 1] rounds to a double
    below [2^64], so its cast to [uint64_t] is defined.  Values are
    compared after scaling by a power of two [2^off] that makes every
    exponent non-negative. *)

Lemma digits2_pos_size (p : positive) : digits2_pos p = Pos.size p.
Proof. induction p; cbn; congruence. Qed.

Lemma digits2_lower (p : positive) : 2 ^ (Zpos (digits2_pos p) - 1) <= Zpos p.
Proof.
  rewrite digits2_pos_size.
  pose proof (Pos.size_le p) as H.
  assert (H2 : 2 ^ Zpos (Pos.size p) <= 2 * Zpos p).
  { change (2 * Zpos p) with (Zpos p~0).
    rewrite <- Pos2Z.inj_pow. apply Pos2Z.pos_le_pos. exact H. }
  replace (Zpos (Pos.size p)) with ((Zpos (Pos.size p) - 1) + 1) in H2 by lia.
  rewrite Z.pow_add_r in H2 by lia. lia.
Qed.

Lemma shr_1_m (mrs : shr_record) :
  0 <= shr_m mrs -> shr_m (shr_1 mrs) = shr_m mrs / 2 /\ 0 <= shr_m (shr_1 mrs).
Proof.
  destruct mrs as [m r s]. cbn [shr_m]. intros Hm.
  destruct m as [|[p|p|]|p]; cbn [shr_1 shr_m]; try lia;
    (split; [|lia]).
  - reflexivity.
  - apply Z.div_unique with (r := 1); lia.
  - apply Z.div_unique with (r := 0); lia.
  - reflexivity.
Qed.

Lemma shr_iter_m (p : positive) (mrs : shr_record) :
  0 <= shr_m mrs ->
  shr_m (iter_pos shr_1 p mrs) = shr_m mrs / 2 ^ Zpos p /\
  0 <= shr_m (iter_pos shr_1 p mrs).
Proof.
  revert mrs. induction p as [p IH | p IH |]; intros mrs Hm; cbn [iter_pos].
  - destruct (shr_1_m mrs Hm) as [H1 H1p].
    destruct (IH _ H1p) as [H2 H2p]. destruct (IH _ H2p) as [H3 H3p].
    split; [|exact H3p]. rewrite H3, H2, H1.
    rewrite !Z.div_div by (try apply Z.pow_pos_nonneg; lia).
    f_equal. rewrite Pos2Z.inj_xI.
    rewrite <- Z.pow_add_r by lia.
    replace (2 * Zpos p + 1) with (1 + (Zpos p + Zpos p)) by lia.
    rewrite (Z.pow_add_r 2 1) by lia. reflexivity.
  - destruct (IH _ Hm) as [H2 H2p]. destruct (IH _ H2p) as [H3 H3p].
    split; [|exact H3p]. rewrite H3, H2.
    rewrite Z.div_div by (try apply Z.pow_pos_nonneg; lia).
    f_equal. rewrite Pos2Z.inj_xO, <- Z.pow_add_r by lia. f_equal. lia.
  - exact (shr_1_m mrs Hm).
Qed.

Lemma shr_m_div (m : Z) (l : location) (d : Z) :
  0 <= m -> 0 < d -> shr_m (fst (shr (shr_record_of_loc m l) 0 d)) = m / 2 ^ d.
Proof.
  intros Hm Hd. destruct d as [|p|p]; try lia. cbn [shr fst].
  assert (H0 : 0 <= shr_m (shr_record_of_loc m l)) by (destruct l as [|[]]; exact Hm).
  destruct (shr_iter_m p _ H0) as [H _]. rewrite H.
  destruct l as [|[]]; reflexivity.
Qed.

Lemma round_nearest_even_bounds (m : Z) (l : location) :
  m <= round_nearest_even m l <= m + 1.
Proof.
  unfold round_nearest_even.
  destruct l as [|[]]; try destruct (Z.even m); lia.
Qed.

Lemma shr_fexp_spec (m e : Z) (l : location) :
  0 <= m ->
  exists mrs e', shr_fexp 53 1024 m e l = (mrs, e') /\
    ((e' = e /\ mrs = shr_record_of_loc m l) \/
     (e < e' /\ e' = fexp 53 1024 (Zdigits2 m + e) /\ shr_m mrs = m / 2 ^ (e' - e))).
Proof.
  intros Hm. unfold shr_fexp.
  remember (fexp 53 1024 (Zdigits2 m + e)) as f eqn:Hf.
  destruct (f - e) as [|p|p] eqn:Hd.
  - eexists _, _. split; [reflexivity|]. left. split; reflexivity.
  - eexists _, _. split; [reflexivity|]. right.
    split; [lia|]. split; [lia|]. cbn [shr].
    assert (H0 : 0 <= shr_m (shr_record_of_loc m l)) by (destruct l as [|[]]; exact Hm).
    destruct (shr_iter_m p _ H0) as [H _]. rewrite H.
    replace (e + Zpos p - e) with (Zpos p) by lia.
    destruct l as [|[]]; reflexivity.
  - eexists _, _. split; [reflexivity|]. left. split; reflexivity.
Qed.

Lemma pow2_pos (a : Z) : 0 <= a -> 0 < 2 ^ a.
Proof. intros. apply Z.pow_pos_nonneg; lia. Qed.

Lemma floor_scaled (m d s : Z) :
  0 <= m -> 0 <= d -> 0 <= s -> (m / 2 ^ d) * 2 ^ (d + s) <= m * 2 ^ s.
Proof.
  intros Hm Hd Hs. rewrite Z.pow_add_r by lia.
  pose proof (pow2_pos d Hd) as Pd. pose proof (pow2_pos s Hs) as Ps.
  pose proof (Z.mul_div_le m (2 ^ d) Pd) as H.
  rewrite Z.mul_assoc. apply Z.mul_le_mono_nonneg_r; lia.
Qed.

Lemma shr_fexp_floor (m e off : Z) :
  0 <= m -> 0 <= e + off ->
  exists mrs e', shr_fexp 53 1024 m e loc_Exact = (mrs, e') /\
    e <= e' /\ 0 <= shr_m mrs /\
    shr_m mrs * 2 ^ (e' + off) <= m * 2 ^ (e + off).
Proof.
  intros Hm He.
  destruct (shr_fexp_spec m e loc_Exact Hm) as (mrs & e' & Heq & Hcase).
  exists mrs, e'. split; [exact Heq|].
  destruct Hcase as [[-> ->] | (Hlt & _ & Hq)].
  - cbn [shr_record_of_loc shr_m]. lia.
  - split; [lia|]. rewrite Hq. split.
    + apply Z.div_pos; [lia | apply pow2_pos; lia].
    + replace (e' + off) with ((e' - e) + (e + off)) by lia.
      apply floor_scaled; lia.
Qed.

Lemma round_first (mp : positive) (ex off K : Z) :
  0 <= ex + off -> -1074 < K ->
  Zpos mp * 2 ^ (ex + off) <= 2 ^ (K + off) ->
  exists mrs e', shr_fexp 53 1024 (Zpos mp) ex loc_Exact = (mrs, e') /\
    let m1 := round_nearest_even (shr_m mrs) (loc_of_shr_record mrs) in
    ex <= e' /\ 0 <= m1 /\
    m1 * 2 ^ (e' + off) < 2 ^ (K + 1 + off) /\
    (Zpos mp * 2 ^ (ex + off) < 2 ^ (K + off) ->
     m1 * 2 ^ (e' + off) <= 2 ^ (K + off)).
Proof.
  intros He HK HV.
  assert (HKoff : 0 <= K + off).
  { destruct (Z_lt_le_dec (K + off) 0) as [Hneg|]; [|assumption].
    rewrite (Z.pow_neg_r 2 (K + off)) in HV by assumption.
    pose proof (pow2_pos (ex + off) He). nia. }
  assert (H2T : 2 ^ (K + 1 + off) = 2 * 2 ^ (K + off)).
  { replace (K + 1 + off) with (1 + (K + off)) by lia.
    rewrite Z.pow_add_r by lia. reflexivity. }
  destruct (shr_fexp_spec (Zpos mp) ex loc_Exact ltac:(lia))
    as (mrs & e' & Heq & Hcase).
  exists mrs, e'. split; [exact Heq|].
  destruct Hcase as [[-> ->] | (Hlt & Hf & Hq)].
  - cbn [shr_record_of_loc shr_m loc_of_shr_record round_nearest_even]. pose proof (pow2_pos (K + off) HKoff). repeat split; try lia.
  - cbv zeta.
    pose proof (round_nearest_even_bounds (shr_m mrs) (loc_of_shr_record mrs)) as Hr.
    set (m1 := round_nearest_even (shr_m mrs) (loc_of_shr_record mrs)) in *.
    rewrite Hq in Hr.
    set (q := Zpos mp / 2 ^ (e' - ex)) in *.
    assert (Hq0 : 0 <= q).
    { apply Z.div_pos; [lia | apply pow2_pos; lia]. }
    assert (HqV : q * 2 ^ (e' + off) <= Zpos mp * 2 ^ (ex + off)).
    { replace (e' + off) with ((e' - ex) + (ex + off)) by lia.
      apply floor_scaled; lia. }
    (* the number of digits bounds the exponent *)
    pose proof (digits2_lower mp) as Hd.
    set (dg := Zpos (digits2_pos mp)) in *.
    assert (Hdg : 1 <= dg) by (unfold dg; lia).
    assert (Hexp : dg - 1 + (ex + off) <= K + off).
    { apply (Z.pow_le_mono_r_iff 2); [lia | lia |].
      rewrite Z.pow_add_r by lia.
      pose proof (pow2_pos (ex + off) He).
      apply Z.le_trans with (Zpos mp * 2 ^ (ex + off)); [nia | exact HV]. }
    assert (He'K : e' < K).
    { rewrite Hf. cbn [Zdigits2]. fold dg. unfold fexp, SpecFloat.emin. lia. }
    set (A := 2 ^ (K - e')). set (Pw := 2 ^ (e' + off)).
    assert (HA : 2 <= A).
    { unfold A. change 2 with (2 ^ 1) at 1.
      apply Z.pow_le_mono_r; lia. }
    assert (HP : 0 < Pw) by (apply pow2_pos; lia).
    assert (HT : 2 ^ (K + off) = A * Pw).
    { unfold A, Pw. rewrite <- Z.pow_add_r by lia. f_equal. lia. }
    fold Pw in HqV. rewrite HT in HV. rewrite H2T, HT.
    assert (HqA : q <= A).
    { apply (Z.mul_le_mono_pos_r _ _ Pw HP). lia. }
    split; [lia|]. split; [lia|]. split; [nia|].
    intros Hs. assert (q < A).
    { apply (Z.mul_lt_mono_pos_r Pw _ _ HP). lia. }
    nia.
Qed.

Lemma binary_round_aux_below (mp : positive) (ex off K : Z) :
  0 <= ex + off -> -1074 < K -> K <= 971 ->
  Zpos mp * 2 ^ (ex + off) <= 2 ^ (K + off) ->
  binary_round_aux 53 1024 false (Zpos mp) ex loc_Exact = S754_zero false \/
  exists m e,
    binary_round_aux 53 1024 false (Zpos mp) ex loc_Exact = S754_finite false m e /\
    ex <= e /\
    Zpos m * 2 ^ (e + off) < 2 ^ (K + 1 + off) /\
    (Zpos mp * 2 ^ (ex + off) < 2 ^ (K + off) ->
     Zpos m * 2 ^ (e + off) <= 2 ^ (K + off)).
Proof.
  intros He HK HK' HV.
  destruct (round_first mp ex off K He HK HV)
    as (mrs & e' & Heq & Hle & Hm1 & Hweak & Hstrict).
  cbv zeta in *.
  set (m1 := round_nearest_even (shr_m mrs) (loc_of_shr_record mrs)) in *.
  destruct (shr_fexp_floor m1 e' off Hm1 ltac:(lia))
    as (mrs2 & e2 & Heq2 & Hle2 & Hm2 & Hfl).
  unfold binary_round_aux. rewrite Heq. fold m1. rewrite Heq2.
  destruct (shr_m mrs2) as [|m|m] eqn:Em; [left; reflexivity | | lia].
  right. exists m, e2.
  assert (He2 : e2 <= 971).
  { assert (2 ^ (e2 + off) < 2 ^ (K + 1 + off)) as Hp.
    { pose proof (pow2_pos (e2 + off) ltac:(lia)). nia. }
    destruct (Z_lt_le_dec (K + 1 + off) 0) as [Hneg|Hnn].
    - rewrite (Z.pow_neg_r 2 (K + 1 + off)) in Hp by assumption.
      pose proof (pow2_pos (e2 + off) ltac:(lia)). lia.
    - apply Z.pow_lt_mono_r_iff in Hp; lia. }
  apply Z.leb_le in He2. change (1024 - 53) with 971. rewrite He2.
  split; [reflexivity|]. split; [lia|]. split; [lia|].
  intros Hs. specialize (Hstrict Hs). lia.
Qed.

Lemma to_uint64_below (m : positive) (e off : Z) :
  0 <= off -> 0 <= e + off ->
  Zpos m * 2 ^ (e + off) < 2 ^ (64 + off) ->
  exists z, Double.to_uint64 (S754_finite false m e) = Some z.
Proof.
  intros Hoff He Hv. unfold Double.to_uint64, Double.trunc.
  set (mag := if 0 <=? e then Zpos m * 2 ^ e else Zpos m / 2 ^ (- e)).
  assert (Hmag : 0 <= mag < U64.modulus).
  { unfold mag, U64.modulus. destruct (0 <=? e) eqn:E.
    - apply Z.leb_le in E.
      rewrite !Z.pow_add_r in Hv by lia.
      pose proof (pow2_pos off Hoff). pose proof (pow2_pos e E).
      split; [lia|].
      apply (Z.mul_lt_mono_pos_r (2 ^ off)); [assumption|]. lia.
    - apply Z.leb_gt in E.
      pose proof (pow2_pos (- e) ltac:(lia)) as Pe.
      split; [apply Z.div_pos; lia|].
      apply Z.div_lt_upper_bound; [assumption|].
      rewrite <- Z.pow_add_r by lia.
      replace (64 + off) with ((- e + 64) + (e + off)) in Hv by lia.
      rewrite (Z.pow_add_r 2 (- e + 64)) in Hv by lia.
      pose proof (pow2_pos (e + off) He) as Ps.
      apply (Z.mul_lt_mono_pos_r (2 ^ (e + off))); assumption. }
  exists mag.
  replace ((0 <=? mag) && (mag <? U64.modulus)) with true; [reflexivity|].
  symmetry. apply andb_true_iff. split; [apply Z.leb_le | apply Z.ltb_lt]; lia.
Qed.

Lemma shl_align_value (mx : positive) (ex ex' off : Z) :
  0 <= ex + off -> 0 <= ex' + off ->
  let '(mz, ez) := shl_align mx ex ex' in
  Z.min ex ex' <= ez <= ex /\
  Zpos mz * 2 ^ (ez + off) = Zpos mx * 2 ^ (ex + off).
Proof.
  intros He He'. unfold shl_align.
  destruct (ex' - ex) as [|d|d] eqn:Ed; try (split; [lia | reflexivity]).
  split; [lia|].
  change (Pos.iter xO mx d) with (shift_pos d mx).
  rewrite shift_pos_correct. change (Z.pow_pos 2 d) with (2 ^ Zpos d).
  replace (ex + off) with (Zpos d + (ex' + off)) by lia.
  rewrite (Z.pow_add_r 2 (Zpos d) (ex' + off)) by lia. ring.
Qed.

(** An integer below [2^63] converts to a double that is at most [2^63]. *)
Lemma of_uint64_below (n : Z) :
  0 <= n < 2 ^ 63 ->
  Double.of_uint64 n = S754_zero false \/
  exists m e, Double.of_uint64 n = S754_finite false m e /\
    -52 <= e /\ Zpos m * 2 ^ (e + 52) <= 2 ^ (63 + 52).
Proof.
  intros Hn. unfold Double.of_uint64, binary_normalize.
  destruct n as [|mx|mx]; [left; reflexivity | | lia].
  unfold binary_round, Double.prec, Double.emax.
  set (f := fexp 53 1024 (Zpos (digits2_pos mx) + 0)).
  assert (Hf : -52 <= f).
  { unfold f, fexp, SpecFloat.emin. pose proof (Pos2Z.is_pos (digits2_pos mx)). lia. }
  pose proof (shl_align_value mx 0 f 52 ltac:(lia) ltac:(lia)) as Ha.
  destruct (shl_align mx 0 f) as [mz ez]. destruct Ha as [Hez Hval].
  assert (Hlt : Zpos mz * 2 ^ (ez + 52) < 2 ^ (63 + 52)).
  { rewrite Hval. replace (0 + 52) with 52 by lia.
    rewrite (Z.pow_add_r 2 63 52) by lia.
    apply Z.mul_lt_mono_pos_r; [apply pow2_pos; lia | lia]. }
  destruct (binary_round_aux_below mz ez 52 63 ltac:(lia) ltac:(lia) ltac:(lia)
              ltac:(lia)) as [Hz | (m & e & Hr & He & _ & Hs)].
  - left. exact Hz.
  - right. exists m, e. split; [exact Hr|]. split; [lia|]. apply Hs. exact Hlt.
Qed.

Lemma digits2_upper (p : positive) : Zpos p < 2 ^ Zpos (digits2_pos p).
Proof.
  rewrite digits2_pos_size. rewrite <- Pos2Z.inj_pow.
  apply Pos2Z.pos_lt_pos. apply Pos.size_gt.
Qed.

Lemma one_eq : Double.one = S754_finite false 4503599627370496 (-52).
Proof. vm_compute. reflexivity. Qed.

Lemma mantissa_le_one (m : positive) :
  match Pos.compare_cont Eq m 4503599627370496 with
  | Gt => false
  | _ => true
  end = true ->
  Zpos m <= 2 ^ 52.
Proof.
  rewrite Pos.compare_cont_spec. unfold Pos.switch_Eq.
  change (2 ^ 52) with (Zpos 4503599627370496).
  destruct (Pos.compare m 4503599627370496) eqn:Em; intros Hle.
  - apply Pos.compare_eq in Em. rewrite Em. apply Z.le_refl.
  - apply Z.lt_le_incl. exact Em.
  - discriminate Hle.
Qed.

(** A representable ratio in [0, 1] is a zero or a positive double of value
    at most 1. *)
Lemma ratio_below (r : Double.double) :
  valid_binary 53 1024 r = true ->
  Double.leb Double.zero r = true -> Double.leb r Double.one = true ->
  (exists s, r = S754_zero s) \/
  exists m e, r = S754_finite false m e /\
    -1074 <= e /\ Zpos m * 2 ^ (e + 1074) <= 2 ^ 1074.
Proof.
  intros Hv H0 H1. rewrite one_eq in H1.
  destruct r as [s | s | | s m e].
  - left. exists s. reflexivity.
  - destruct s; discriminate.
  - discriminate.
  - destruct s; [discriminate|]. right. exists m, e. split; [reflexivity|].
    cbn [valid_binary] in Hv. unfold bounded in Hv.
    apply andb_true_iff in Hv. destruct Hv as [Hc _].
    unfold canonical_mantissa in Hc. apply Z.eqb_eq in Hc.
    unfold fexp, SpecFloat.emin in Hc.
    pose proof (digits2_upper m) as Hd.
    set (dg := Zpos (digits2_pos m)) in *.
    assert (Hdg : dg <= 53) by lia.
    assert (He : -1074 <= e) by lia.
    split; [exact He|].
    assert (Hm53 : Zpos m < 2 ^ 53).
    { apply Z.lt_le_trans with (2 ^ dg); [exact Hd|].
      apply Z.pow_le_mono_r; lia. }
    unfold Double.leb, SFleb, SFcompare in H1.
    destruct (e ?= -52) eqn:Ec.
    + apply Z.compare_eq in Ec. subst e.
      pose proof (mantissa_le_one m H1) as Hm.
      apply Z.le_trans with (2 ^ 52 * 2 ^ (-52 + 1074)).
      * apply Z.mul_le_mono_nonneg_r; [apply Z.pow_nonneg; lia | exact Hm].
      * rewrite <- Z.pow_add_r by lia. apply Z.pow_le_mono_r; lia.
    + change (e < -52) in Ec.
      apply Z.le_trans with (2 ^ 53 * 2 ^ (e + 1074)).
      * apply Z.mul_le_mono_nonneg_r;
          [apply Z.pow_nonneg; lia | apply Z.lt_le_incl; exact Hm53].
      * rewrite <- Z.pow_add_r by lia. apply Z.pow_le_mono_r; lia.
    + discriminate.
Qed.

(** The cast of [n * r] to [uint64_t] is defined for every [n] up to
    [kMaxMemory] and every representable ratio [r] in [0, 1]. *)
Lemma scale_defined (n : Z) (r : Double.double) :
  0 <= n <= U64.kMaxMemory -> ratio_wf r ->
  exists z, Double.scale n r = Some z.
Proof.
  intros Hn [Hv H0 H1]. unfold U64.kMaxMemory in Hn. unfold Double.scale, Double.mul.
  destruct (of_uint64_below n ltac:(lia)) as [-> | (m & e & -> & He & Hm)];
    destruct (ratio_below r Hv H0 H1) as [[s ->] | (my & ey & -> & Hey & Hmy)].
  1-3: exists 0; reflexivity.
  unfold SFmul, Double.prec, Double.emax. cbn [xorb].
  assert (Hprod : Zpos (m * my) * 2 ^ (e + ey + 1126) <= 2 ^ (63 + 1126)).
  { rewrite Pos2Z.inj_mul.
    replace (e + ey + 1126) with ((e + 52) + (ey + 1074)) by lia.
    rewrite Z.pow_add_r by lia.
    replace (63 + 1126) with ((63 + 52) + 1074) by lia.
    rewrite (Z.pow_add_r 2 (63 + 52) 1074) by lia.
    pose proof (pow2_pos (e + 52) ltac:(lia)).
    pose proof (pow2_pos (ey + 1074) ltac:(lia)).
    replace (Zpos m * Zpos my * (2 ^ (e + 52) * 2 ^ (ey + 1074)))
      with ((Zpos m * 2 ^ (e + 52)) * (Zpos my * 2 ^ (ey + 1074))) by ring.
    apply Z.mul_le_mono_nonneg; lia. }
  destruct (binary_round_aux_below (m * my) (e + ey) 1126 63
              ltac:(lia) ltac:(lia) ltac:(lia) Hprod)
    as [-> | (m2 & e2 & -> & He2 & Hlt & _)].
  - exists 0. reflexivity.
  - apply (to_uint64_below m2 e2 1126); lia.
Qed.

(** The constructor admits only configurations whose
    [minFreeCapacityRatio] is in [0, 1]. *)
Lemma Config_new_ratio_wf
    (initCap minCap limit : Z) (slow : Double.double)
    (minFree : Z) (ratio : Double.double)
    (minBytes : Z) (pct : Double.double) (c : Config) :
  Double.representable ratio = true ->
  Config_new initCap minCap limit slow minFree ratio minBytes pct = Ret c ->
  ratio_wf (minFreeCapacityRatio c).
Proof.
  intros Hrep. unfold Config_new, velox_check.
  destruct (Double.leb Double.zero slow); [|discriminate].
  destruct (Bool.eqb (limit =? 0) (Double.eqb slow Double.zero));
    [|discriminate].
  destruct (Double.leb Double.zero ratio) eqn:E0; [|discriminate].
  destruct (Double.leb ratio Double.one) eqn:E1; [|discriminate].
  destruct (Bool.eqb (minFree =? 0) (Double.eqb ratio Double.zero));
    [|discriminate].
  destruct (Double.leb Double.zero pct && Double.leb pct Double.one);
    [|discriminate].
  cbn [obind]. intros [= <-]. cbn [minFreeCapacityRatio].
  split; assumption.
Qed.

(** ** Properties of the capacity queries *)
Section QueryFacts.
Context {P : Type} `{MemoryPool P}.

Lemma to_uint64_range (x : Double.double) (z : Z) :
  Double.to_uint64 x = Some z -> 0 <= z < U64.modulus.
Proof.
  unfold Double.to_uint64.
  destruct (Double.trunc x) as [t|]; [|discriminate].
  destruct ((0 <=? t) && (t <? U64.modulus)) eqn:E; [|discriminate].
  intros [= <-]. apply andb_true_iff in E. lia.
Qed.

Lemma scale_range (n : Z) (r : Double.double) (z : Z) :
  Double.scale n r = Some z -> 0 <= z < U64.modulus.
Proof. apply to_uint64_range. Qed.

Lemma wrap_small (x : Z) : 0 <= x < U64.modulus -> U64.wrap x = x.
Proof. intros. unfold U64.wrap. apply Z.mod_small. assumption. Qed.

Lemma to_int64_small (x : Z) : 0 <= x < 2 ^ 63 -> U64.to_int64 x = x.
Proof.
  intros Hx. unfold U64.to_int64.
  rewrite wrap_small by (unfold U64.modulus; lia).
  destruct (x <? 2 ^ 63) eqn:E; [reflexivity|]. apply Z.ltb_ge in E. lia.
Qed.

Lemma to_int64_large (x : Z) :
  2 ^ 63 <= x < U64.modulus -> U64.to_int64 x = x - U64.modulus.
Proof.
  intros Hx. unfold U64.to_int64.
  rewrite wrap_small by lia.
  destruct (x <? 2 ^ 63) eqn:E; [|reflexivity]. apply Z.ltb_lt in E. lia.
Qed.

Lemma maxReclaimableCapacity_range (c : Config) (p : P) :
  config_wf c -> pool_wf p ->
  0 <= maxReclaimableCapacity c p <= capacity p.
Proof.
  intros [Hm _ _ _] [Hc _ _]. unfold maxReclaimableCapacity.
  destruct (inactivePool p); [lia|].
  destruct (capacity p <? minCapacity c) eqn:E; [lia|].
  apply Z.ltb_ge in E.
  rewrite wrap_small; unfold U64.modulus, U64.kMaxMemory in *; lia.
Qed.

Lemma maxShrinkCapacity_le_free (c : Config) (p : P) (v : Z) :
  config_wf c -> pool_wf p ->
  maxShrinkCapacity c p = Ret v -> 0 <= v <= freeBytes p.
Proof.
  intros [_ _ Hf _] [_ Hfree _]. unfold maxShrinkCapacity.
  destruct (negb (minFreeCapacity c =? 0) && negb (inactivePool p)).
  - destruct (Double.scale (capacity p) (minFreeCapacityRatio c)) as [s|] eqn:Es;
      simpl; [|discriminate].
    apply scale_range in Es.
    destruct (freeBytes p <=? Z.min s (minFreeCapacity c)) eqn:E.
    + intros [= <-]. lia.
    + apply Z.leb_gt in E. intros [= <-].
      rewrite wrap_small; lia.
  - intros [= <-]. lia.
Qed.
End QueryFacts.

(** C1, as stated, does not hold.  With a capacity of 1GB, 512MB free,
    [minFreeCapacity] 128MB and [minFreeCapacityRatio] 0.25 the pool is not
    inactive; the floor of the statement is max(128MB, 256MB) = 256MB, which
    would leave 256MB to shrink, while [maxShrinkCapacity] keeps the smaller
    floor of 128MB and returns 384MB. *)
Lemma maxShrinkCapacity_not_max_floor :
  Config_new 0 0 0 Double.zero (128 * U64.MB) (Double.ldexp 1 (-2)) 0 Double.zero
    = Ret c1_config /\
  inactivePool c1_pool = false /\
  Double.scale (capacity c1_pool) (minFreeCapacityRatio c1_config)
    = Some (256 * U64.MB) /\
  maxShrinkCapacity c1_config c1_pool = Ret (384 * U64.MB) /\
  spec_maxShrinkCapacity c1_config c1_pool = Ret (256 * U64.MB) /\
  maxShrinkCapacity c1_config c1_pool <> spec_maxShrinkCapacity c1_config c1_pool.
Proof.
  split; [vm_compute; reflexivity|].
  split; [vm_compute; reflexivity|].
  split; [vm_compute; reflexivity|].
  split; [vm_compute; reflexivity|].
  split; [vm_compute; reflexivity|].
  vm_compute. discriminate.
Qed.

(** C1, amended: for a pool that is not inactive and a non-zero
    [minFreeCapacity], [maxShrinkCapacity] is [freeBytes] minus the floor
    min(minFreeCapacity, capacity * minFreeCapacityRatio) when [freeBytes]
    exceeds that floor, and 0 otherwise; when the pool is inactive
    ([reservedBytes = 0] and [peakBytes <> 0]) or [minFreeCapacity] is 0 it
    is all of [freeBytes].  The product is the double product of the code,
    cast back to [uint64_t]; the cast is always defined. *)
Theorem maxShrinkCapacity_min_floor
    {P} `{MemoryPool P} (c : Config) (p : P) :
  config_wf c -> ratio_wf (minFreeCapacityRatio c) -> pool_wf p ->
  (inactivePool p = false -> minFreeCapacity c <> 0 ->
   exists scaled,
     Double.scale (capacity p) (minFreeCapacityRatio c) = Some scaled /\
     let floor := Z.min (minFreeCapacity c) scaled in
     maxShrinkCapacity c p =
       Ret (if floor <? freeBytes p then freeBytes p - floor else 0)) /\
  (inactivePool p = true \/ minFreeCapacity c = 0 ->
   maxShrinkCapacity c p = Ret (freeBytes p)).
Proof.
  intros [_ _ Hf _] Hr [Hcap Hfree _]. split.
  - intros Hin Hmf.
    destruct (scale_defined (capacity p) (minFreeCapacityRatio c) Hcap Hr)
      as [scaled Hs].
    exists scaled. split; [exact Hs|]. intros floor.
    unfold maxShrinkCapacity.
    apply Z.eqb_neq in Hmf. rewrite Hmf, Hin, Hs. simpl.
    pose proof (scale_range _ _ _ Hs) as Hrange.
    subst floor. rewrite (Z.min_comm scaled).
    destruct (freeBytes p <=? Z.min (minFreeCapacity c) scaled) eqn:E.
    + apply Z.leb_le in E.
      destruct (Z.min (minFreeCapacity c) scaled <? freeBytes p) eqn:E2;
        [apply Z.ltb_lt in E2; lia | reflexivity].
    + apply Z.leb_gt in E.
      destruct (Z.min (minFreeCapacity c) scaled <? freeBytes p) eqn:E2;
        [| apply Z.ltb_ge in E2; lia].
      rewrite wrap_small by lia. reflexivity.
  - intros [Hin | Hz]; unfold maxShrinkCapacity.
    + rewrite Hin. rewrite andb_false_r. reflexivity.
    + rewrite Hz. reflexivity.
Qed.

(** C1, amended, on the pool of the counterexample. *)
Lemma maxShrinkCapacity_min_floor_witness :
  config_wf c1_config /\ ratio_wf (minFreeCapacityRatio c1_config) /\
  pool_wf c1_pool /\
  maxShrinkCapacity c1_config c1_pool = Ret (384 * U64.MB).
Proof.
  assert (Hc : config_wf c1_config) by (split; wf_bounds).
  assert (Hr : ratio_wf (minFreeCapacityRatio c1_config))
    by (split; vm_compute; reflexivity).
  assert (Hp : pool_wf c1_pool).
  { split; [wf_bounds | wf_bounds | intros r Hr'; discriminate Hr']. }
  split; [exact Hc|]. split; [exact Hr|]. split; [exact Hp|].
  destruct (maxShrinkCapacity_min_floor c1_config c1_pool Hc Hr Hp)
    as [Hfloor _].
  destruct Hfloor as (scaled & Hs & Hm).
  - vm_compute. reflexivity.
  - vm_compute. discriminate.
  - rewrite Hm. vm_compute in Hs. injection Hs as <-.
    vm_compute. reflexivity.
Defined.

(** C8: for a participant with [minCapacity] 16MB whose pool reports a
    capacity of 64MB, no reserved bytes, a non-zero peak and 64MB free,
    [reclaimableFreeCapacity()] is 64MB: the pool is inactive, so both the
    shrink bound and the reclaimable bound are the whole capacity. *)
Theorem inactive_pool_reclaimableFreeCapacity
    {P} `{MemoryPool P} (c : Config) (p : P) :
  minCapacity c = 16 * U64.MB ->
  capacity p = 64 * U64.MB ->
  reservedBytes p = 0 ->
  0 < peakBytes p ->
  freeBytes p = 64 * U64.MB ->
  inactivePool p = true /\
  maxShrinkCapacity c p = Ret (64 * U64.MB) /\
  maxReclaimableCapacity c p = 64 * U64.MB /\
  reclaimableFreeCapacity c p = Ret (64 * U64.MB).
Proof.
  intros _ Hcap Hres Hpeak Hfree.
  assert (Hin : inactivePool p = true).
  { unfold inactivePool. rewrite Hres.
    destruct (peakBytes p =? 0) eqn:E; [apply Z.eqb_eq in E; lia | reflexivity]. }
  assert (Hs : maxShrinkCapacity c p = Ret (64 * U64.MB)).
  { unfold maxShrinkCapacity. rewrite Hin, andb_false_r, Hfree. reflexivity. }
  assert (Hr : maxReclaimableCapacity c p = 64 * U64.MB).
  { unfold maxReclaimableCapacity. rewrite Hin. exact Hcap. }
  repeat (split; [assumption|]).
  unfold reclaimableFreeCapacity. rewrite Hs. cbn [obind]. rewrite Hr.
  rewrite Z.min_id. reflexivity.
Qed.

(** C8 on such a pool, with a floor of free capacity configured. *)
Lemma inactive_pool_reclaimableFreeCapacity_witness :
  reclaimableFreeCapacity c8_config c8_pool = Ret (64 * U64.MB).
Proof.
  apply (inactive_pool_reclaimableFreeCapacity c8_config c8_pool);
    vm_compute; reflexivity.
Defined.

(** C9: for every participant and every pool state,
    [reclaimableFreeCapacity()] returns a value that is at most
    [freeBytes()], and [reclaimableUsedCapacity()] is at most the
    [reclaimableBytes()] the pool reports, an absent value counting as 0. *)
Theorem reclaimable_capacity_bounds
    {P} `{MemoryPool P} (c : Config) (p : P) :
  config_wf c -> ratio_wf (minFreeCapacityRatio c) -> pool_wf p ->
  (exists v, reclaimableFreeCapacity c p = Ret v /\ v <= freeBytes p) /\
  reclaimableUsedCapacity c p <= value_or (reclaimableBytes p) 0.
Proof.
  intros Hc Hratio Hp. split.
  - assert (Hex : exists s, maxShrinkCapacity c p = Ret s).
    { destruct (scale_defined (capacity p) (minFreeCapacityRatio c)
                  (wf_capacity p Hp) Hratio) as [z Hz].
      unfold maxShrinkCapacity. rewrite Hz.
      destruct (negb (minFreeCapacity c =? 0) && negb (inactivePool p));
        [|eexists; reflexivity].
      simpl. destruct (freeBytes p <=? Z.min z (minFreeCapacity c));
        eexists; reflexivity. }
    destruct Hex as [s Es].
    exists (Z.min s (maxReclaimableCapacity c p)). split.
    + unfold reclaimableFreeCapacity. rewrite Es. reflexivity.
    + apply (maxShrinkCapacity_le_free c p s Hc Hp) in Es. lia.
  - pose proof (maxReclaimableCapacity_range c p Hc Hp) as Hm.
    destruct Hp as [Hcap _ Hrb]. unfold reclaimableUsedCapacity.
    fold (value_or (reclaimableBytes p) 0).
    assert (Hr : 0 <= value_or (reclaimableBytes p) 0 < U64.modulus).
    { destruct (reclaimableBytes p) as [r|]; simpl;
        [apply Hrb; reflexivity | unfold U64.modulus; lia]. }
    set (rb := value_or (reclaimableBytes p) 0) in *.
    rewrite (to_int64_small (maxReclaimableCapacity c p))
      by (unfold U64.kMaxMemory in Hcap; lia).
    destruct (Z_lt_le_dec rb (2 ^ 63)) as [Hlt|Hge].
    + rewrite (to_int64_small rb) by lia.
      rewrite wrap_small; unfold U64.modulus in *; lia.
    + rewrite (to_int64_large rb) by lia.
      rewrite Z.min_r by (unfold U64.modulus in *; lia).
      unfold U64.wrap.
      replace (rb - U64.modulus) with (rb + (-1) * U64.modulus) by ring.
      rewrite Z.mod_add by (unfold U64.modulus; lia).
      rewrite Z.mod_small by lia. lia.
Qed.

(** C9 on a pool with 48MB free and 24MB reclaimable. *)
Lemma reclaimable_capacity_bounds_witness :
  config_wf c9_config /\ ratio_wf (minFreeCapacityRatio c9_config) /\
  pool_wf c9_pool /\
  (exists v, reclaimableFreeCapacity c9_config c9_pool = Ret v /\
             v <= freeBytes c9_pool) /\
  reclaimableUsedCapacity c9_config c9_pool <= 24 * U64.MB.
Proof.
  assert (Hc : config_wf c9_config) by (split; wf_bounds).
  assert (Hr : ratio_wf (minFreeCapacityRatio c9_config))
    by (split; vm_compute; reflexivity).
  assert (Hp : pool_wf c9_pool).
  { split; [wf_bounds | wf_bounds |].
    intros r Hr'. injection Hr' as <-. wf_bounds. }
  split; [exact Hc|]. split; [exact Hr|]. split; [exact Hp|].
  exact (reclaimable_capacity_bounds c9_config c9_pool Hc Hr Hp).
Defined.

Section GrowFacts.
Context {P : Type} `{MemoryPool P}.

Lemma minGrowCapacity_spec (c : Config) (p : P) :
  config_wf c -> pool_wf p ->
  minGrowCapacity c p = spec_minGrowCapacity c p.
Proof.
  intros [Hm _ _ _] [Hc _ _]. unfold minGrowCapacity, spec_minGrowCapacity.
  destruct (minCapacity c <=? capacity p) eqn:E.
  - apply Z.leb_le in E. lia.
  - apply Z.leb_gt in E. rewrite wrap_small; lia.
Qed.

Lemma maxGrowCapacity_spec (maxCap : Z) (p : P) :
  pool_wf p -> maxCap < U64.modulus -> capacity p <= maxCap ->
  maxGrowCapacity maxCap p = Ret (spec_maxGrowCapacity maxCap p).
Proof.
  intros [Hc _ _] Hm Hle. unfold maxGrowCapacity, spec_maxGrowCapacity.
  apply Z.leb_le in Hle as Hb. rewrite Hb. simpl.
  rewrite wrap_small; [reflexivity | lia].
Qed.

Lemma growBase_spec (c : Config) (p : P) (requestBytes : Z) :
  pool_wf p ->
  (if (fastExponentialGrowthCapacityLimit c =? 0)
      && Double.eqb (slowCapacityGrowRatio c) Double.zero
   then Ret requestBytes
   else if U64.wrap (capacity p * 2) <=? fastExponentialGrowthCapacityLimit c
   then Ret (capacity p)
   else cast_or_undefined (Double.scale (capacity p) (slowCapacityGrowRatio c)))
  = cast_or_undefined (spec_growBase c p requestBytes).
Proof.
  intros [Hc _ _]. unfold spec_growBase.
  rewrite wrap_small by (unfold U64.kMaxMemory, U64.modulus in *; lia).
  rewrite (Z.mul_comm (capacity p) 2).
  destruct ((fastExponentialGrowthCapacityLimit c =? 0)
            && Double.eqb (slowCapacityGrowRatio c) Double.zero);
    [reflexivity|].
  destruct (2 * capacity p <=? fastExponentialGrowthCapacityLimit c);
    reflexivity.
Qed.
End GrowFacts.

(** C2, as stated, does not hold for every request.  Without a growth
    policy, a pool of 64MB below a maximum of 128MB can grow by 64MB; for a
    request of 100MB the target is capped at 64MB, the final check
    [requestBytes <= maxGrowBytes] fails and [getGrowTargets] throws instead
    of producing targets. *)
Lemma getGrowTargets_rejects_large_request :
  Config_new 0 0 0 Double.zero 0 Double.zero 0 Double.zero = Ret c2_config /\
  maxGrowCapacity (128 * U64.MB) c2_pool = Ret (64 * U64.MB) /\
  getGrowTargets c2_config (128 * U64.MB) c2_pool (100 * U64.MB)
    = Throw (VeloxRuntimeError "requestBytes <= maxGrowBytes") /\
  getGrowTargets c2_config (128 * U64.MB) c2_pool (100 * U64.MB)
    <> Ret (spec_maxGrowBytes c2_config (128 * U64.MB) c2_pool
              (100 * U64.MB) (100 * U64.MB),
            minGrowCapacity c2_config c2_pool).
Proof.
  split; [vm_compute; reflexivity|].
  split; [vm_compute; reflexivity|].
  split; [vm_compute; reflexivity|].
  vm_compute. discriminate.
Qed.

(** C2, amended: [getGrowTargets] starts from the request when no growth
    policy is configured, otherwise from the current capacity while twice
    the capacity is at most [fastExponentialGrowthCapacityLimit] and from
    capacity * slowCapacityGrowRatio beyond that.  Provided that this
    starting value is defined, that is, that the product, where it is used,
    casts to [uint64_t] (which holds for every ratio in [0, 1], while the
    constructor only checks that the ratio is not negative): for every
    request that does not exceed [maxGrowCapacity()], with the capacity
    within the maximum capacity, [getGrowTargets] produces as
    [maxGrowBytes] the starting value raised to at least the request and at
    least [minGrowCapacity()] and capped at [maxGrowCapacity()], and as
    [minGrowBytes] the value of [minGrowCapacity()]; the results satisfy
    [minGrowBytes <= maxGrowBytes] and [requestBytes <= maxGrowBytes]; for
    a request above [maxGrowCapacity()] the call throws at its check
    [requestBytes <= maxGrowBytes] and produces no targets.  When the
    product does not cast, the behaviour of the call is undefined. *)
Theorem getGrowTargets_within_maxGrowCapacity
    {P} `{MemoryPool P} (c : Config) (maxCap : Z) (p : P) (requestBytes : Z) :
  config_wf c -> pool_wf p ->
  maxCap < U64.modulus ->
  minCapacity c <= maxCap ->
  capacity p <= maxCap ->
  0 <= requestBytes ->
  (forall base,
      spec_growBase c p requestBytes = Some base ->
      let maxGrowBytes := spec_maxGrowBytes c maxCap p requestBytes base in
      let minGrowBytes := spec_minGrowCapacity c p in
      (requestBytes <= spec_maxGrowCapacity maxCap p ->
       getGrowTargets c maxCap p requestBytes = Ret (maxGrowBytes, minGrowBytes) /\
       minGrowBytes <= maxGrowBytes /\
       requestBytes <= maxGrowBytes /\
       maxGrowBytes <= spec_maxGrowCapacity maxCap p) /\
      (spec_maxGrowCapacity maxCap p < requestBytes ->
       getGrowTargets c maxCap p requestBytes
       = Throw (VeloxRuntimeError "requestBytes <= maxGrowBytes"))) /\
  (spec_growBase c p requestBytes = None ->
   getGrowTargets c maxCap p requestBytes = Undefined) /\
  (ratio_wf (slowCapacityGrowRatio c) ->
   exists base, spec_growBase c p requestBytes = Some base).
Proof.
  intros Hc Hp Hmax Hmin Hcap Hreq.
  pose proof (minGrowCapacity_spec c p Hc Hp) as Hming.
  pose proof (maxGrowCapacity_spec maxCap p Hp Hmax Hcap) as Hmaxg.
  pose proof (growBase_spec c p requestBytes Hp) as Hbase.
  split; [|split].
  - intros base Hb maxG minG. split.
    + intros Hle.
      assert (Hbounds : minG <= maxG /\ requestBytes <= maxG /\
                        maxG <= spec_maxGrowCapacity maxCap p).
      { subst maxG minG. unfold spec_maxGrowBytes, spec_minGrowCapacity,
          spec_maxGrowCapacity in *. lia. }
      split; [|exact Hbounds].
      unfold getGrowTargets. rewrite Hbase, Hb, Hming, Hmaxg.
      cbn [cast_or_undefined obind].
      fold (spec_maxGrowBytes c maxCap p requestBytes base). fold maxG. fold minG.
      destruct Hbounds as (H1 & H2 & _).
      apply Z.leb_le in H1, H2. rewrite H1, H2. reflexivity.
    + intros Hgt. unfold getGrowTargets.
      rewrite Hbase, Hb, Hming, Hmaxg. cbn [cast_or_undefined obind].
      fold (spec_maxGrowBytes c maxCap p requestBytes base). fold maxG. fold minG.
      assert (Hge : minG <= maxG).
      { subst maxG minG. unfold spec_maxGrowBytes, spec_minGrowCapacity,
          spec_maxGrowCapacity in *. lia. }
      assert (Hlt : maxG < requestBytes).
      { subst maxG. unfold spec_maxGrowBytes. lia. }
      apply Z.leb_le in Hge. apply Z.leb_gt in Hlt. rewrite Hge, Hlt.
      reflexivity.
  - intros Hb. unfold getGrowTargets. rewrite Hbase, Hb. reflexivity.
  - intros Hratio. unfold spec_growBase.
    destruct ((fastExponentialGrowthCapacityLimit c =? 0)
              && Double.eqb (slowCapacityGrowRatio c) Double.zero);
      [eexists; reflexivity|].
    destruct (2 * capacity p <=? fastExponentialGrowthCapacityLimit c);
      [eexists; reflexivity|].
    exact (scale_defined (capacity p) (slowCapacityGrowRatio c)
             (wf_capacity p Hp) Hratio).
Qed.

(** C2, amended, on a pool of 64MB with a growth policy: a request of
    16MB gets the doubling target of 64MB, a request of 500MB fails the
    last check. *)
Lemma getGrowTargets_within_maxGrowCapacity_witness :
  getGrowTargets c2_policy_config (512 * U64.MB) c2_pool (16 * U64.MB)
    = Ret (64 * U64.MB, 0) /\
  getGrowTargets c2_policy_config (512 * U64.MB) c2_pool (500 * U64.MB)
    = Throw (VeloxRuntimeError "requestBytes <= maxGrowBytes").
Proof.
  assert (Hc : config_wf c2_policy_config) by (split; wf_bounds).
  assert (Hp : pool_wf c2_pool).
  { split; [wf_bounds | wf_bounds | intros r Hr; discriminate Hr]. }
  split.
  - assert (Hok := proj1 (getGrowTargets_within_maxGrowCapacity
                c2_policy_config (512 * U64.MB) c2_pool (16 * U64.MB) Hc Hp
                ltac:(wf_bounds) ltac:(wf_bounds) ltac:(wf_bounds)
                ltac:(wf_bounds))).
    exact (proj1 (proj1 (Hok (64 * U64.MB) ltac:(wf_bounds))
                    ltac:(wf_bounds))).
  - assert (Hok := proj1 (getGrowTargets_within_maxGrowCapacity
                c2_policy_config (512 * U64.MB) c2_pool (500 * U64.MB) Hc Hp
                ltac:(wf_bounds) ltac:(wf_bounds) ltac:(wf_bounds)
                ltac:(wf_bounds))).
    exact (proj2 (Hok (64 * U64.MB) ltac:(wf_bounds)) ltac:(wf_bounds)).
Defined.

(** The proviso of C2 is needed: the constructor accepts a growth ratio of
    [2^40], and on a pool of [2^40] bytes beyond the doubling limit the
    product does not fit [uint64_t], so that [getGrowTargets] has no defined
    result even for a request of one byte. *)
Lemma getGrowTargets_undefined_product :
  Config_new 0 0 1 (Double.ldexp 1 40) 0 Double.zero 0 Double.zero
  = Ret (mkConfig 0 0 1 (Double.ldexp 1 40) 0 Double.zero 0 Double.zero) /\
  getGrowTargets (mkConfig 0 0 1 (Double.ldexp 1 40) 0 Double.zero 0 Double.zero)
    (2 ^ 41) (SimplePool.make (2 ^ 40) 0 0 (2 ^ 41) None) 1
  = Undefined.
Proof. split; vm_compute; reflexivity. Qed.

(** C10: when the effective target
    max(targetBytes, minReclaimBytes, capacity * minReclaimPct) is 0,
    [reclaim] returns 0 and leaves the participant, the pool, the
    statistics and the trace of calls as they were: the reclaim mutex is not
    taken and the pool is neither reclaimed nor shrunk. *)
Theorem reclaim_zero_target_is_noop
    {P} `{MemoryPool P} (a : Participant P) (st : ReclaimerStats)
    (targetBytes maxWaitTimeNs scaled : Z) (lockAcquired : bool) :
  Double.scale (capacity (pool_ a)) (minReclaimPct (config_ a)) = Some scaled ->
  Z.max targetBytes (Z.max (minReclaimBytes (config_ a)) scaled) = 0 ->
  reclaim targetBytes maxWaitTimeNs lockAcquired (a, st) = (Ret 0, (a, st)).
Proof.
  intros Hs Hz. unfold reclaim, noexcept, mbind, mget, mlift, reclaimTarget,
    self_capacity.
  cbn [fst]. rewrite Hs. cbn [cast_or_undefined obind]. rewrite Hz. reflexivity.
Qed.

(** C10 on an empty pool with a reclaim percentage of 1/8. *)
Lemma reclaim_zero_target_is_noop_witness :
  reclaim 0 1000000 true (c10_participant, mkReclaimerStats 0)
    = (Ret 0, (c10_participant, mkReclaimerStats 0)).
Proof.
  apply (reclaim_zero_target_is_noop c10_participant (mkReclaimerStats 0)
           0 1000000 0 true); vm_compute; reflexivity.
Defined.

(** C7: [abort] on a participant that is already aborted returns 0 and
    leaves the aborted flag, the pool, the statistics and the admission
    state unchanged; only the reclaim mutex is taken and released. *)
Theorem abort_already_aborted
    {P} `{MemoryPool P} (a : Participant P) (error : exn) :
  aborted_ a = true ->
  exists a',
    abort error a = (Ret 0, a') /\
    a' = emit EvUnlockReclaimMutex (emit EvLockReclaimMutex a) /\
    aborted_ a' = true /\
    pool_ a' = pool_ a /\
    stats a' = stats a /\
    runningOp_ a' = runningOp_ a /\
    waitOps_ a' = waitOps_ a.
Proof.
  intros Ha. eexists. split; [|split; [reflexivity|]].
  - unfold abort, with_reclaimMutex, abortLocked, noexcept, mbind, mget.
    cbn [aborted_ emit]. rewrite Ha. reflexivity.
  - cbn. rewrite Ha. repeat split; reflexivity.
Qed.

(** C7 on an aborted participant. *)
Lemma abort_already_aborted_witness :
  exists a',
    abort (ExternalError 1) c7_participant = (Ret 0, a') /\
    pool_ a' = pool_ c7_participant /\
    stats a' = stats c7_participant.
Proof.
  destruct (abort_already_aborted c7_participant (ExternalError 1) eq_refl)
    as (a' & Hrun & _ & _ & Hpool & Hstats & _).
  exists a'. repeat split; assumption.
Defined.

Section ReclaimFailure.
Context {P : Type} `{MemoryPool P}.

Lemma abortLocked_aborted (a : Participant P) (e : exn) :
  aborted_ a = true -> abortLocked e a = (Ret 0, a).
Proof.
  intros Ha. unfold abortLocked, noexcept, mbind, mget. rewrite Ha. reflexivity.
Qed.

Lemma abortLocked_fresh (a : Participant P) (e : exn)
    (ra : outcome unit) (p2 p3 : P) (n : Z) :
  aborted_ a = false ->
  pool_abort e (pool_ a) = (ra, p2) ->
  (ra = Ret tt \/ exists e', ra = Throw e') ->
  aborted p2 = true ->
  pool_shrink 0 p2 = (Ret n, p3) ->
  abortLocked e a =
    (Ret n,
     bump (reclaimedBytes_add n)
       (with_pool p3
          (emit (EvPoolShrink 0)
             (bump numShrinks_incr
                (with_pool p2
                   (emit (EvPoolAbort e) (with_aborted true a))))))).
Proof.
  intros Ha Hab Hra Hmark Hsh.
  unfold abortLocked, shrinkLocked. run_m. fields.
  rewrite Ha, Hab.
  destruct Hra as [-> | [e' ->]]; fields; rewrite Hmark;
    cbn [velox_check]; fields; rewrite Hsh; reflexivity.
Qed.

(** The guarded block throws when the pool's reclaim callback does. *)
Lemma reclaim_attempt_callback_throws (a : Participant P)
    (st st1 : ReclaimerStats) (t maxWaitTimeNs : Z) (e : exn) (p1 : P) :
  pool_reclaim t (maxWaitTimeNs / 1000000) st (pool_ a) = (Throw e, st1, p1) ->
  reclaim_attempt t maxWaitTimeNs true (a, st) =
    (Throw e,
     (emit EvUnlockReclaimMutex
        (with_pool p1
           (emit (EvPoolReclaim t (maxWaitTimeNs / 1000000))
              (bump numReclaims_incr (emit EvLockReclaimMutex a)))),
      st1)).
Proof.
  intros Hr. unfold reclaim_attempt. run_m. fields. rewrite Hr. reflexivity.
Qed.

(** The guarded block throws when the shrink that follows the callback
    does. *)
Lemma reclaim_attempt_shrink_throws (a a1 : Participant P)
    (st st1 : ReclaimerStats) (t maxWaitTimeNs rb : Z) (e : exn) (p1 : P) :
  pool_reclaim t (maxWaitTimeNs / 1000000) st (pool_ a) = (Ret rb, st1, p1) ->
  shrink false
    (with_pool p1
       (emit (EvPoolReclaim t (maxWaitTimeNs / 1000000))
          (bump numReclaims_incr (emit EvLockReclaimMutex a))))
    = (Throw e, a1) ->
  reclaim_attempt t maxWaitTimeNs true (a, st) =
    (Throw e, (emit EvUnlockReclaimMutex a1, st1)).
Proof.
  intros Hr Hs. unfold reclaim_attempt. run_m. fields. rewrite Hr.
  fields. rewrite Hs. reflexivity.
Qed.

(** A timed-out lock throws the arbitration timeout inside the guarded
    block. *)
Lemma reclaim_attempt_timeout (a : Participant P) (st : ReclaimerStats)
    (t maxWaitTimeNs : Z) :
  reclaim_attempt t maxWaitTimeNs false (a, st)
    = (Throw ArbitrationTimeout, (a, st)).
Proof. reflexivity. Qed.
End ReclaimFailure.

(** C3, as stated, does not hold for every call.  On a participant that
    is already aborted, a reclaim callback that throws makes [reclaim]
    return 0: the pool is not asked to abort with the exception and is not
    force-shrunk, although a force-shrink would free 48MB. *)
Lemma reclaim_failure_on_aborted_participant :
  fst (pool_reclaim U64.MB 1 (mkReclaimerStats 0) (c3_pool true))
    = (Throw (ExternalError 7), mkReclaimerStats 0) /\
  (exists a',
      reclaim U64.MB 1000000 true (c3_participant true, mkReclaimerStats 0)
        = (Ret 0, (a', mkReclaimerStats 0)) /\
      trace_ a' = [EvLockReclaimMutex; EvPoolReclaim U64.MB 1;
                   EvUnlockReclaimMutex] /\
      capacity (pool_ a') = 64 * U64.MB /\
      fst (pool_shrink 0 (pool_ a')) = Ret (48 * U64.MB)) /\
  ~ spec_reclaim_failure (c3_participant true) (mkReclaimerStats 0)
      U64.MB 1000000 (ExternalError 7).
Proof.
  split; [vm_compute; reflexivity|]. split.
  - eexists. split; [vm_compute; reflexivity|].
    split; [reflexivity|]. split; vm_compute; reflexivity.
  - intros (n & a' & st' & Hrun & _ & Habort & _).
    vm_compute in Hrun. injection Hrun as _ <- _.
    cbn in Habort. destruct Habort as [Hx|[Hx|[Hx|[]]]]; discriminate Hx.
Qed.

Section ReclaimHandler.
Context {P : Type} `{MemoryPool P}.

Lemma shrinkLocked_aborted (reclaimAll : bool) (a a' : Participant P)
    (r : outcome Z) :
  shrinkLocked reclaimAll a = (r, a') -> aborted_ a' = aborted_ a.
Proof.
  unfold shrinkLocked. run_m. fields. unfold self_reclaimableFreeCapacity.
  fields. destruct reclaimAll.
  - fields. destruct (pool_shrink 0 (pool_ a)) as [[n| | |] p]; fields;
      intros [= _ <-]; reflexivity.
  - fields.
    destruct (reclaimableFreeCapacity (config_ a) (pool_ a)) as [t| | |];
      try (intros [= _ <-]; reflexivity).
    destruct (0 <? t); [|intros [= _ <-]; reflexivity].
    fields.
    destruct (pool_shrink t (pool_ a)) as [[n| | |] p]; fields;
      intros [= _ <-]; reflexivity.
Qed.

Lemma callbackOrShrinkThrows_attempt (a a1 : Participant P)
    (st st1 : ReclaimerStats) (t maxWaitTimeNs : Z) (e : exn) :
  callbackOrShrinkThrows a st t maxWaitTimeNs e a1 st1 ->
  reclaim_attempt t maxWaitTimeNs true (a, st) = (Throw e, (a1, st1)) /\
  aborted_ a1 = aborted_ a.
Proof.
  intros [(p1 & Hr & ->) | (rb & p1 & a' & Hr & Hs & ->)].
  - split; [apply reclaim_attempt_callback_throws; exact Hr | reflexivity].
  - split; [apply (reclaim_attempt_shrink_throws _ _ _ _ _ _ _ _ _ Hr Hs)|].
    unfold shrink in Hs. apply shrinkLocked_aborted in Hs.
    fields. exact Hs.
Qed.

(** [reclaim] after its guarded block threw [e]: the result is that of
    [abortLocked e], whenever that one returns. *)
Lemma reclaim_after_failed_attempt (a a1 : Participant P)
    (st st1 : ReclaimerStats) (targetBytes maxWaitTimeNs t r : Z)
    (lockAcquired : bool) (e : exn) :
  reclaimTarget a targetBytes = Ret t ->
  t <> 0 ->
  reclaim_attempt t maxWaitTimeNs lockAcquired (a, st) = (Throw e, (a1, st1)) ->
  abortLocked e a1 = (Ret r, snd (abortLocked e a1)) ->
  reclaim targetBytes maxWaitTimeNs lockAcquired (a, st)
    = (Ret r, (snd (abortLocked e a1), st1)).
Proof.
  intros Ht Hnz Hattempt Hr. unfold reclaim. run_m. fields. rewrite Ht.
  apply Z.eqb_neq in Hnz. rewrite Hnz. rewrite Hattempt.
  destruct (abortLocked e a1) as [o a2] eqn:Ea. cbn [snd] in *.
  injection Hr as ->. reflexivity.
Qed.
End ReclaimHandler.

(** C3, amended: if the pool's reclaim callback (or the subsequent
    shrink) throws an exception, the exception does not leave [reclaim].
    If the participant is not already aborted, it is marked aborted, the
    pool is asked to abort with that exception, and [reclaim] returns the
    capacity freed by the force-shrink of the abort, provided the pool then
    reports itself aborted and the force-shrink returns; if the participant
    is already aborted, [reclaim] returns 0 and the pool is neither aborted
    again nor force-shrunk. *)
Theorem reclaim_failure_aborts
    {P} `{MemoryPool P} (a a1 : Participant P) (st st1 : ReclaimerStats)
    (targetBytes maxWaitTimeNs t : Z) (e : exn) :
  reclaimTarget a targetBytes = Ret t ->
  t <> 0 ->
  callbackOrShrinkThrows a st t maxWaitTimeNs e a1 st1 ->
  (aborted_ a = true ->
   reclaim targetBytes maxWaitTimeNs true (a, st) = (Ret 0, (a1, st1))) /\
  (aborted_ a = false ->
   forall (ra : outcome unit) (p2 p3 : P) (n : Z),
     pool_abort e (pool_ a1) = (ra, p2) ->
     (ra = Ret tt \/ exists e', ra = Throw e') ->
     aborted p2 = true ->
     pool_shrink 0 p2 = (Ret n, p3) ->
     exists a2,
       reclaim targetBytes maxWaitTimeNs true (a, st) = (Ret n, (a2, st1)) /\
       aborted_ a2 = true /\
       pool_ a2 = p3 /\
       trace_ a2 = (trace_ a1 ++ [EvPoolAbort e; EvPoolShrink 0])%list /\
       stats a2 = reclaimedBytes_add n (numShrinks_incr (stats a1))).
Proof.
  intros Ht Hnz Hthrows.
  destruct (callbackOrShrinkThrows_attempt a a1 st st1 t maxWaitTimeNs e Hthrows)
    as [Hattempt Hsame].
  split.
  - intros Ha. rewrite <- Hsame in Ha.
    pose proof (abortLocked_aborted a1 e Ha) as Hab.
    pose proof (reclaim_after_failed_attempt a a1 st st1 targetBytes
                  maxWaitTimeNs t 0 true e Ht Hnz Hattempt) as Hrun.
    rewrite Hab in Hrun. apply Hrun. reflexivity.
  - intros Ha ra p2 p3 n Hpa Hra Hmark Hsh. rewrite <- Hsame in Ha.
    pose proof (abortLocked_fresh a1 e ra p2 p3 n Ha Hpa Hra Hmark Hsh) as Hab.
    pose proof (reclaim_after_failed_attempt a a1 st st1 targetBytes
                  maxWaitTimeNs t n true e Ht Hnz Hattempt) as Hrun.
    rewrite Hab in Hrun. cbn [snd] in Hrun.
    eexists. split; [apply Hrun; reflexivity|].
    fields. rewrite <- app_assoc. repeat split; reflexivity.
Qed.

(** C3, amended, on a pool whose reclaim callback throws: the participant
    ends aborted and [reclaim] returns the 64MB the force-shrink frees. *)
Lemma reclaim_failure_aborts_witness :
  exists a2,
    reclaim U64.MB 1000000 true (c3_participant false, mkReclaimerStats 0)
      = (Ret (64 * U64.MB), (a2, mkReclaimerStats 0)) /\
    aborted_ a2 = true /\
    capacity (pool_ a2) = 0.
Proof.
  pose (a1 := emit EvUnlockReclaimMutex
                (with_pool (c3_pool false)
                   (emit (EvPoolReclaim U64.MB 1)
                      (bump numReclaims_incr
                         (emit EvLockReclaimMutex (c3_participant false)))))).
  destruct (reclaim_failure_aborts (c3_participant false) a1
              (mkReclaimerStats 0) (mkReclaimerStats 0)
              U64.MB 1000000 U64.MB (ExternalError 7))
    as [_ Hfresh].
  - vm_compute. reflexivity.
  - vm_compute. discriminate.
  - left. exists (c3_pool false). split; [vm_compute; reflexivity | reflexivity].
  - destruct (Hfresh eq_refl (Ret tt)
                (snd (pool_abort (ExternalError 7) (pool_ a1)))
                (snd (pool_shrink 0
                        (snd (pool_abort (ExternalError 7) (pool_ a1)))))
                (64 * U64.MB))
      as (a2 & Hrun & Hab & Hpool & _).
    + vm_compute. reflexivity.
    + left. reflexivity.
    + vm_compute. reflexivity.
    + vm_compute. reflexivity.
    + exists a2. split; [exact Hrun|]. split; [exact Hab|].
      rewrite Hpool. vm_compute. reflexivity.
Defined.

Section Admission.
Context {P : Type} `{MemoryPool P}.

Lemma resumed_app (t1 t2 : list Event) :
  resumed (t1 ++ t2) = (resumed t1 ++ resumed t2)%list.
Proof.
  induction t1 as [|e t1 IH]; [reflexivity|].
  destruct e; cbn [resumed app]; rewrite IH; reflexivity.
Qed.

Lemma startArbitration_busy (a : Participant P) (op r : OpId) :
  runningOp_ a = Some r ->
  exists a',
    startArbitration op a = (Ret tt, a') /\
    runningOp_ a' = Some r /\
    waitOps_ a' = (waitOps_ a ++ [op])%list /\
    resumed (trace_ a') = resumed (trace_ a) /\
    numRequests_ a' = numRequests_ a + 1.
Proof.
  intros Hr. unfold startArbitration. run_m. fields. rewrite Hr.
  eexists. split; [reflexivity|]. fields.
  rewrite <- app_assoc, resumed_app, app_nil_r.
  repeat split; reflexivity.
Qed.

Lemma startArbitration_idle (a : Participant P) (op : OpId) :
  runningOp_ a = None ->
  exists a',
    startArbitration op a = (Ret tt, a') /\
    runningOp_ a' = Some op /\
    waitOps_ a' = waitOps_ a /\
    resumed (trace_ a') = resumed (trace_ a).
Proof.
  intros Hr. unfold startArbitration. run_m. fields. rewrite Hr.
  eexists. split; [reflexivity|]. fields. repeat split; reflexivity.
Qed.

Lemma finishArbitration_promotes (a : Participant P) (op front : OpId)
    (rest : list OpId) :
  runningOp_ a = Some op ->
  waitOps_ a = front :: rest ->
  exists a',
    finishArbitration op a = (Ret tt, a') /\
    runningOp_ a' = Some front /\
    waitOps_ a' = rest /\
    trace_ a' = (trace_ a ++ [EvResume front])%list.
Proof.
  intros Hr Hw. unfold finishArbitration. run_m. rewrite Hr, Hw, Z.eqb_refl.
  cbn [velox_check]. eexists. split; [reflexivity|]. fields.
  repeat split; reflexivity.
Qed.

Lemma finishArbitration_clears (a : Participant P) (op : OpId) :
  runningOp_ a = Some op ->
  waitOps_ a = [] ->
  exists a',
    finishArbitration op a = (Ret tt, a') /\
    runningOp_ a' = None /\
    waitOps_ a' = [] /\
    trace_ a' = trace_ a.
Proof.
  intros Hr Hw. unfold finishArbitration. run_m. rewrite Hr, Hw, Z.eqb_refl.
  cbn [velox_check]. eexists. split; [reflexivity|]. fields.
  repeat split; reflexivity.
Qed.

Lemma finishArbitration_requires_running (a a' : Participant P) (op : OpId) :
  finishArbitration op a = (Ret tt, a') -> runningOp_ a = Some op.
Proof.
  unfold finishArbitration. run_m.
  destruct (runningOp_ a) as [r|]; cbn [velox_check]; [|discriminate].
  destruct (r =? op) eqn:E; [|discriminate].
  apply Z.eqb_eq in E. subst r. reflexivity.
Qed.

(** One call either leaves the queue alone, appends to its back, or moves
    its front to the resumed operations. *)
Lemma call_queue (c : Call) (a a' : Participant P) :
  call c a = (Ret tt, a') ->
  exists r q,
    resumed (trace_ a') = (resumed (trace_ a) ++ r)%list /\
    (r ++ waitOps_ a' = waitOps_ a ++ q)%list.
Proof.
  destruct c as [op|op]; cbn [call]; intros Hc.
  - destruct (runningOp_ a) as [r|] eqn:Hr.
    + destruct (startArbitration_busy a op r Hr) as (a1 & H1 & _ & Hw & Ht & _).
      rewrite H1 in Hc. injection Hc as <-.
      exists [], [op]. rewrite Ht, Hw, app_nil_r. split; reflexivity.
    + destruct (startArbitration_idle a op Hr) as (a1 & H1 & _ & Hw & Ht).
      rewrite H1 in Hc. injection Hc as <-.
      exists [], []. rewrite Ht, Hw, !app_nil_r. split; reflexivity.
  - pose proof (finishArbitration_requires_running a a' op Hc) as Hr.
    destruct (waitOps_ a) as [|front rest] eqn:Hw.
    + destruct (finishArbitration_clears a op Hr Hw) as (a1 & H1 & _ & Hw1 & Ht).
      rewrite H1 in Hc. injection Hc as <-.
      exists [], []. rewrite Ht, Hw1, app_nil_r. split; reflexivity.
    + destruct (finishArbitration_promotes a op front rest Hr Hw)
        as (a1 & H1 & _ & Hw1 & Ht).
      rewrite H1 in Hc. injection Hc as <-.
      exists [front], []. rewrite Ht, Hw1, resumed_app, app_nil_r.
      split; reflexivity.
Qed.

Lemma run_cons (c : Call) (cs : list Call) (a a' : Participant P) :
  run (c :: cs) a = (Ret tt, a') ->
  exists am, call c a = (Ret tt, am) /\ run cs am = (Ret tt, a').
Proof.
  cbn [run]. unfold mbind.
  destruct (call c a) as [[[]| | |] am]; try discriminate.
  intros Hr. exists am. split; [reflexivity | exact Hr].
Qed.

Lemma run_app (cs1 cs2 : list Call) (a a' : Participant P) :
  run (cs1 ++ cs2) a = (Ret tt, a') ->
  exists am, run cs1 a = (Ret tt, am) /\ run cs2 am = (Ret tt, a').
Proof.
  revert a. induction cs1 as [|c cs1 IH]; intros a Hr.
  - exists a. split; [reflexivity | exact Hr].
  - rewrite <- app_comm_cons in Hr.
    destruct (run_cons _ _ _ _ Hr) as (a1 & Hc & Hrest).
    destruct (IH a1 Hrest) as (am & H1 & H2).
    exists am. split; [|exact H2].
    cbn [run]. unfold mbind. rewrite Hc. exact H1.
Qed.

(** The wait queue is first-in first-out over a whole history: what was
    resumed, followed by what still waits, is what waited at the start
    followed by what was queued since. *)
Lemma run_queue (cs : list Call) (a a' : Participant P) :
  run cs a = (Ret tt, a') ->
  exists r q,
    resumed (trace_ a') = (resumed (trace_ a) ++ r)%list /\
    (r ++ waitOps_ a' = waitOps_ a ++ q)%list.
Proof.
  revert a. induction cs as [|c cs IH]; intros a Hr.
  - injection Hr as <-. exists [], []. rewrite !app_nil_r. split; reflexivity.
  - destruct (run_cons _ _ _ _ Hr) as (a1 & Hc & Hrest).
    destruct (call_queue c a a1 Hc) as (r1 & q1 & Ht1 & Hq1).
    destruct (IH a1 Hrest) as (r2 & q2 & Ht2 & Hq2).
    exists (r1 ++ r2)%list, (q1 ++ q2)%list.
    rewrite Ht2, Ht1, <- app_assoc. split; [reflexivity|].
    rewrite <- app_assoc, Hq2, !app_assoc, Hq1. reflexivity.
Qed.
End Admission.

(** C4: admission is first-in first-out.  While an operation runs,
    [startArbitration] appends the new operation to the wait queue;
    [finishArbitration] of the running operation promotes exactly the front
    of the wait queue to running, or clears [runningOp_] when nothing waits;
    and for two operations A and B, A starting while an operation runs and
    B starting later, in every history of calls A is resumed strictly
    before B. *)
Theorem admission_is_fifo {P} `{MemoryPool P} (a : Participant P) :
  (forall op r,
      runningOp_ a = Some r ->
      exists a',
        startArbitration op a = (Ret tt, a') /\
        runningOp_ a' = Some r /\
        waitOps_ a' = (waitOps_ a ++ [op])%list /\
        resumed (trace_ a') = resumed (trace_ a) /\
        numRequests_ a' = numRequests_ a + 1) /\
  (forall op front rest,
      runningOp_ a = Some op ->
      waitOps_ a = front :: rest ->
      exists a',
        finishArbitration op a = (Ret tt, a') /\
        runningOp_ a' = Some front /\
        waitOps_ a' = rest /\
        trace_ a' = (trace_ a ++ [EvResume front])%list) /\
  (forall op,
      runningOp_ a = Some op ->
      waitOps_ a = [] ->
      exists a',
        finishArbitration op a = (Ret tt, a') /\
        runningOp_ a' = None /\
        waitOps_ a' = [] /\
        trace_ a' = trace_ a) /\
  (forall (A B : OpId) (mid post : list Call) (a' : Participant P),
      runningOp_ a <> None ->
      A <> B ->
      ~ In B (waitOps_ a) ->
      run (CStart A :: mid ++ CStart B :: post) a = (Ret tt, a') ->
      exists r,
        resumed (trace_ a') = (resumed (trace_ a) ++ r)%list /\
        (In B r ->
         exists r1 r2, r = (r1 ++ A :: r2)%list /\ ~ In B r1 /\ In B r2)).
Proof.
  split; [|split; [|split]].
  - intros op r Hr. exact (startArbitration_busy a op r Hr).
  - intros op front rest Hr Hw.
    exact (finishArbitration_promotes a op front rest Hr Hw).
  - intros op Hr Hw. exact (finishArbitration_clears a op Hr Hw).
  - intros A B mid post a' Hbusy Hneq HB Hrun.
    destruct (run_cons _ _ _ _ Hrun) as (a1 & HstartA & Hrest).
    cbn [call] in HstartA.
    destruct (runningOp_ a) as [c|] eqn:Hc; [|congruence].
    destruct (startArbitration_busy a A c Hc) as (a1' & H1 & _ & Hw1 & Ht1 & _).
    rewrite H1 in HstartA. injection HstartA as ->.
    destruct (run_queue _ _ _ Hrest) as (r & q & Ht & Hq).
    exists r. rewrite Ht, Ht1. split; [reflexivity|].
    intros HBr. rewrite Hw1, <- app_assoc in Hq. cbn [app] in Hq.
    apply app_eq_app in Hq. destruct Hq as (l & [[Hr Hl] | [Hw _]]).
    + destruct l as [|x l].
      * rewrite app_nil_r in Hr. subst r. contradiction.
      * cbn [app] in Hl. injection Hl as <- _. subst r.
        exists (waitOps_ a), l. split; [reflexivity|]. split; [exact HB|].
        apply in_app_or in HBr. destruct HBr as [Hin|[Heq|Hin]];
          [contradiction | congruence | exact Hin].
    + exfalso. apply HB. rewrite Hw. apply in_or_app. left. exact HBr.
Qed.

(** C4 on a history where operations 1, 3 and 2 start, in this order,
    while operation 10 runs. *)
Lemma admission_is_fifo_witness :
  exists a',
    run c4_history c4_participant = (Ret tt, a') /\
    resumed (trace_ a') = [1; 3; 2] /\
    exists r1 r2, [1; 3; 2] = (r1 ++ 1 :: r2)%list /\ ~ In 2 r1 /\ In 2 r2.
Proof.
  destruct (admission_is_fifo c4_participant) as (_ & _ & _ & Hfifo).
  eexists. split; [vm_compute; reflexivity|]. split; [reflexivity|].
  destruct (Hfifo 1 2 [CStart 3] [CFinish 10; CFinish 1; CFinish 3] _
              ltac:(discriminate) ltac:(discriminate) ltac:(intros [])
              ltac:(vm_compute; reflexivity))
    as (r & Hr & Horder).
  cbn in Hr. subst r. apply Horder. right. right. left. reflexivity.
Defined.
End ParticipantProofs.

(** * Properties of the build operator *)

Module HashBuildProofs.
Import HashBuild HashBuildStatements.
Local Open Scope list_scope.

(** ** Lists updated by index *)
Section UpdateFacts.
Context {A : Type}.

Lemma update_length (f : A -> A) (l : list A) (k : nat) :
  List.length (update k f l) = List.length l.
Proof.
  revert k. induction l as [|x l IH]; intros [|k]; cbn; congruence.
Qed.

Lemma skipn_nth_error (l : list A) (k : nat) (x : A) :
  nth_error l k = Some x -> skipn k l = x :: skipn (S k) l.
Proof.
  revert k. induction l as [|y l IH]; intros [|k]; cbn; try discriminate.
  - intros [= ->]. reflexivity.
  - intros Hn. apply IH. exact Hn.
Qed.

Lemma nth_error_in_range (l : list A) (k : nat) :
  (k < List.length l)%nat -> exists x, nth_error l k = Some x.
Proof.
  intros Hk. destruct (nth_error l k) as [x|] eqn:E; [eauto|].
  apply nth_error_None in E. lia.
Qed.

Lemma update_update (f g : A -> A) (l : list A) (k : nat) :
  update k g (update k f l) = update k (fun x => g (f x)) l.
Proof.
  revert k. induction l as [|x l IH]; intros [|k]; cbn; try reflexivity.
  rewrite IH. reflexivity.
Qed.

Lemma nth_error_update (f : A -> A) (l : list A) (k : nat) (x : A) :
  nth_error l k = Some x -> nth_error (update k f l) k = Some (f x).
Proof.
  revert k. induction l as [|y l IH]; intros [|k]; cbn; try discriminate.
  - intros [= ->]. reflexivity.
  - apply IH.
Qed.

(** Updating position [k] after the positions before it were left alone
    and before the positions after it are mapped. *)
Lemma update_map_tail (f : A -> A) (l : list A) (k : nat) :
  (k < List.length l)%nat ->
  firstn (S k) (update k f l) ++ map f (skipn (S k) (update k f l))
  = firstn k l ++ map f (skipn k l).
Proof.
  revert k. induction l as [|x l IH]; intros [|k] Hk; cbn in *; try lia.
  - reflexivity.
  - f_equal. apply IH. lia.
Qed.

Lemma skipn_update_before (f : A -> A) (l : list A) (k : nat) :
  skipn (S k) (update k f l) = skipn (S k) l.
Proof.
  revert k. induction l as [|x l IH]; intros [|k]; cbn; try reflexivity.
  apply IH.
Qed.
End UpdateFacts.

Lemma spillHashJoinTable_seq (m k : nat) (w : World) :
  (k + m = List.length (ops w))%nat ->
  (forall o, In o (skipn k (ops w)) -> spiller_ o <> None) ->
  spillHashJoinTable (seq k m) w =
    (Ret tt,
     mkWorld (firstn k (ops w) ++ map spillTable (skipn k (ops w)))
             (bridge w) (task w)
             (events w ++ map EvSpillTable (seq k m))).
Proof.
  revert k w. induction m as [|m IH]; intros k w Hlen Hsp.
  - cbn [seq spillHashJoinTable map]. unfold mret.
    rewrite skipn_all2 by lia. rewrite firstn_all2 by lia.
    cbn [map]. rewrite !app_nil_r. destruct w; reflexivity.
  - destruct (nth_error_in_range (ops w) k ltac:(lia)) as [x Hx].
    pose proof (skipn_nth_error _ _ _ Hx) as Hsk.
    assert (Hxs : spiller_ x <> None).
    { apply Hsp. rewrite Hsk. left. reflexivity. }
    cbn [seq spillHashJoinTable]. unfold getOp, modifyOp, log. run_m.
    rewrite Hx. destruct (spiller_ x) as [sp|] eqn:Es; [|congruence].
    rewrite IH.
    + world_fields. rewrite update_map_tail by lia.
      cbn [map]. rewrite <- app_assoc. reflexivity.
    + world_fields. rewrite update_length. lia.
    + world_fields. intros o Ho. rewrite skipn_update_before in Ho.
      apply Hsp. rewrite Hsk. right. exact Ho.
Qed.

Lemma clearTables_seq (m k : nat) (w : World) :
  (k + m = List.length (ops w))%nat ->
  (forall o, In o (skipn k (ops w)) -> table_ o <> None) ->
  clearTables (seq k m) w =
    (Ret tt,
     mkWorld (firstn k (ops w) ++ map clearedOp (skipn k (ops w)))
             (bridge w) (task w)
             (events w ++ clearEvents (seq k m))).
Proof.
  revert k w. induction m as [|m IH]; intros k w Hlen Htab.
  - cbn [seq clearTables clearEvents flat_map]. unfold mret.
    rewrite skipn_all2 by lia. rewrite firstn_all2 by lia.
    cbn [map]. rewrite !app_nil_r. destruct w; reflexivity.
  - destruct (nth_error_in_range (ops w) k ltac:(lia)) as [x Hx].
    pose proof (skipn_nth_error _ _ _ Hx) as Hsk.
    assert (Hxt : table_ x <> None).
    { apply Htab. rewrite Hsk. left. reflexivity. }
    cbn [seq clearTables]. unfold getOp, poolRelease, modifyOp, log. run_m.
    rewrite Hx. destruct (table_ x) as [rows|] eqn:Et; [|congruence].
    world_fields. rewrite update_update.
    rewrite IH.
    + world_fields. fold clearedOp.
      rewrite (update_map_tail clearedOp) by lia.
      unfold clearEvents. cbn [flat_map app].
      rewrite <- !app_assoc. reflexivity.
    + world_fields. rewrite update_length. lia.
    + world_fields. intros o Ho. rewrite skipn_update_before in Ho.
      apply Htab. rewrite Hsk. right. exact Ho.
Qed.

Lemma checkPeers_seq (m k : nat) (w : World) (st : ReclaimerStats) :
  (k + m = List.length (ops w))%nat ->
  (forall o, In o (skipn k (ops w)) -> canSpill (task w) o = true) ->
  checkPeers (seq k m) (w, st) =
    if existsb nonReclaimableState (skipn k (ops w))
    then (Ret true,
          (refused w, mkReclaimerStats (numNonReclaimableAttempts st + 1)))
    else (Ret false, (w, st)).
Proof.
  revert k. induction m as [|m IH]; intros k Hlen Hsp.
  - cbn [seq checkPeers]. rewrite skipn_all2 by lia. reflexivity.
  - destruct (nth_error_in_range (ops w) k ltac:(lia)) as [x Hx].
    pose proof (skipn_nth_error _ _ _ Hx) as Hsk.
    rewrite Hsk. cbn [existsb seq checkPeers].
    unfold on_world, getOp, refuseReclaim, log. run_m. rewrite Hx.
    world_fields. rewrite (Hsp x) by (rewrite Hsk; left; reflexivity).
    cbn [velox_check].
    destruct (nonReclaimableState x); cbn [orb]; [reflexivity|].
    apply IH; [lia|]. intros o Ho. apply Hsp. rewrite Hsk. right. exact Ho.
Qed.

Lemma reclaimable_has_spiller (os : list Op) (o : Op) :
  existsb nonReclaimableState os = false -> In o os -> spiller_ o <> None.
Proof.
  intros Hex Ho Hnone.
  assert (Hn : nonReclaimableState o = true).
  { unfold nonReclaimableState. rewrite Hnone. apply orb_true_r. }
  assert (Hex' : existsb nonReclaimableState os = true).
  { apply existsb_exists. exists o. split; assumption. }
  congruence.
Qed.

(** The first loop of [reclaim] touches no operator, and passes only if
    every operator it visits can spill and is reclaimable. *)
Lemma checkPeers_frame (operators : list nat) (w w' : World)
    (st st' : ReclaimerStats) (r : outcome bool) :
  checkPeers operators (w, st) = (r, (w', st')) ->
  ops w' = ops w /\
  (r = Ret false ->
   w' = w /\ st' = st /\
   forall op o, In op operators -> nth_error (ops w) op = Some o ->
                nonReclaimableState o = false).
Proof.
  induction operators as [|op rest IH].
  - cbn [checkPeers]. unfold mret. intros [= <- <- <-].
    split; [reflexivity|]. intros _. repeat split. intros op o [].
  - cbn [checkPeers]. unfold on_world, getOp, refuseReclaim, log. run_m.
    destruct (nth_error (ops w) op) as [x|] eqn:Hx.
    + world_fields. destruct (canSpill (task w) x); cbn [velox_check].
      * destruct (nonReclaimableState x) eqn:Hn.
        -- intros [= <- <- <-]. world_fields. split; [reflexivity|].
           intros [= ].
        -- intros Hrest. destruct (IH Hrest) as [Hops Hok].
           split; [exact Hops|]. intros Hr.
           destruct (Hok Hr) as (Hw & Hst & Hall).
           repeat split; try assumption.
           intros op' o [<- | Hin] Ho; [congruence | eauto].
      * intros [= <- <- <-]. split; [reflexivity|]. intros [= ].
    + intros [= <- <- <-]. split; [reflexivity|]. intros [= ].
Qed.

Lemma in_nth_error_seq {A} (l : list A) (x : A) :
  In x l -> exists k, In k (seq 0 (List.length l)) /\ nth_error l k = Some x.
Proof.
  intros Hin. apply In_nth_error in Hin. destruct Hin as [k Hk].
  exists k. split; [|exact Hk].
  apply in_seq. split; [lia|]. cbn.
  apply nth_error_Some. congruence.
Qed.

Lemma reclaim_ops_all_or_nothing (i : nat) (w w' : World)
    (st st' : ReclaimerStats) (targetBytes : Z) (r : outcome unit) :
  (forall o, In o (ops w) -> spiller_ o <> None -> table_ o <> None) ->
  reclaim i targetBytes (w, st) = (r, (w', st')) ->
  ops w' = ops w \/
  (r = Ret tt /\ st' = st /\ ops w' = map reclaimedOp (ops w)).
Proof.
  intros Hinv. unfold reclaim, on_world, getOp, log. run_m.
  destruct (nth_error (ops w) i) as [this|] eqn:Hthis;
    [|intros [= <- <- <-]; left; reflexivity].
  world_fields.
  destruct (canSpill (task w) this); cbn [velox_check];
    [|intros [= <- <- <-]; left; reflexivity].
  destruct (nonReclaimableSection_ this); cbn [negb velox_check];
    [intros [= <- <- <-]; left; reflexivity|].
  destruct (exceededMaxSpillLevelLimit_ this);
    [intros [= <- <- <-]; left; reflexivity|].
  destruct (nonReclaimableState this).
  { destruct (negb (stateCleared_ this) &&
              match spiller_ this with Some _ => false | None => true end);
      intros [= <- <- <-]; left; reflexivity. }
  destruct (pauseRequested (task w)); cbn [velox_check];
    [|intros [= <- <- <-]; left; reflexivity].
  destruct (checkPeers (findPeerOperators w) (w, st)) as [rc [wc stc]] eqn:Hc.
  destruct (checkPeers_frame _ _ _ _ _ _ Hc) as [Hops Hok].
  destruct rc as [[|]| | |]; try (intros [= <- <- <-]; left; exact Hops).
  destruct (Hok eq_refl) as (-> & -> & Hall).
  assert (Hrec : forall o, In o (ops w) -> nonReclaimableState o = false).
  { intros o Ho. destruct (in_nth_error_seq _ _ Ho) as (k & Hk & Hnth).
    exact (Hall k o Hk Hnth). }
  assert (Hsp : forall o, In o (ops w) -> spiller_ o <> None).
  { intros o Ho Hnone. specialize (Hrec o Ho).
    unfold nonReclaimableState in Hrec. rewrite Hnone in Hrec.
    rewrite orb_true_r in Hrec. discriminate. }
  unfold findPeerOperators.
  rewrite (spillHashJoinTable_seq (List.length (ops w)) 0 w eq_refl)
    by (cbn [skipn]; exact Hsp).
  cbn [firstn skipn app].
  rewrite clearTables_seq.
  - world_fields. cbn [firstn skipn app]. rewrite map_map.
    intros [= <- <- <-]. right. repeat split; reflexivity.
  - world_fields. rewrite length_map. reflexivity.
  - world_fields. cbn [skipn]. intros o Ho.
    apply in_map_iff in Ho. destruct Ho as (o' & <- & Ho').
    pose proof (Hinv o' Ho' (Hsp o' Ho')) as Ht.
    unfold spillTable. destruct (spiller_ o'); exact Ht.
Qed.

(** C6, as stated, does not hold.  When this operator is inside a
    non-reclaimable section, [reclaim] fails its check and throws, without
    recording a non-reclaimable attempt; when the maximum spill level was
    exceeded, it returns after a warning, the counter of non-reclaimable
    attempts unchanged. *)
Lemma reclaim_refusals_without_diagnostic :
  (nonReclaimableState (in_nonReclaimableSection (sampleOp [sampleRow 1])) = true /\
   reclaim 0 1024 (c6_section_world, mkReclaimerStats 0)
     = (Throw (VeloxRuntimeError "!nonReclaimableSection_"),
        (c6_section_world, mkReclaimerStats 0)) /\
   ~ spec_reclaim_refuses 0 c6_section_world (mkReclaimerStats 0) 1024) /\
  (reclaim 0 1024 (c6_exceeded_world, mkReclaimerStats 0)
     = (Ret tt,
        (emit (EvLogWarning
                 "Can't reclaim from hash build operator, exceeded maximum spill level")
              c6_exceeded_world,
         mkReclaimerStats 0)) /\
   ~ spec_reclaim_refuses 0 c6_exceeded_world (mkReclaimerStats 0) 1024).
Proof.
  split; split.
  - vm_compute. reflexivity.
  - split; [vm_compute; reflexivity|].
    intros (w' & Hrun & _). vm_compute in Hrun. discriminate Hrun.
  - vm_compute. reflexivity.
  - intros (w' & Hrun & _). vm_compute in Hrun. discriminate Hrun.
Qed.

(** C6, amended: [HashBuild::reclaim] is all-or-nothing.  It requires
    that this operator can spill and is not inside a non-reclaimable
    section, and throws otherwise, changing nothing.  It returns after a
    warning, leaving every operator untouched and the statistics unchanged,
    if the maximum spill level was exceeded.  It refuses, counting one
    non-reclaimable attempt and leaving every operator's table and spiller
    untouched, if this operator or any peer is in a non-reclaimable state.
    Otherwise it spills the table of every peer build operator, clears
    every table and releases the reservations. *)
Theorem reclaim_all_or_nothing
    (i : nat) (w : World) (st : ReclaimerStats) (targetBytes : Z) (this : Op) :
  nth_error (ops w) i = Some this ->
  (forall r w' st',
      (forall o, In o (ops w) -> spiller_ o <> None -> table_ o <> None) ->
      reclaim i targetBytes (w, st) = (r, (w', st')) ->
      ops w' = ops w \/
      (r = Ret tt /\ st' = st /\ ops w' = map reclaimedOp (ops w))) /\
  (canSpill (task w) this = false \/ nonReclaimableSection_ this = true ->
   exists e, reclaim i targetBytes (w, st) = (Throw e, (w, st))) /\
  (canSpill (task w) this = true ->
   nonReclaimableSection_ this = false ->
   (exceededMaxSpillLevelLimit_ this = true ->
    reclaim i targetBytes (w, st)
      = (Ret tt,
         (emit (EvLogWarning
                  "Can't reclaim from hash build operator, exceeded maximum spill level")
               w, st))) /\
   (exceededMaxSpillLevelLimit_ this = false ->
    nonReclaimableState this = true ->
    stateCleared_ this = true \/ spiller_ this <> None ->
    reclaim i targetBytes (w, st)
      = (Ret tt,
         (refused w, mkReclaimerStats (numNonReclaimableAttempts st + 1)))) /\
   (exceededMaxSpillLevelLimit_ this = false ->
    nonReclaimableState this = false ->
    pauseRequested (task w) = true ->
    (forall o, In o (ops w) -> canSpill (task w) o = true) ->
    (existsb nonReclaimableState (ops w) = true ->
     reclaim i targetBytes (w, st)
       = (Ret tt,
          (refused w, mkReclaimerStats (numNonReclaimableAttempts st + 1)))) /\
    (existsb nonReclaimableState (ops w) = false ->
     (forall o, In o (ops w) -> table_ o <> None) ->
     reclaim i targetBytes (w, st)
       = (Ret tt,
          (mkWorld (map reclaimedOp (ops w)) (bridge w) (task w)
                   (events w
                    ++ map EvSpillTable (findPeerOperators w)
                    ++ clearEvents (findPeerOperators w)),
           st))))).
Proof.
  intros Hthis. split; [|split].
  - intros r w' st' Hinv Hrun.
    exact (reclaim_ops_all_or_nothing i w w' st st' targetBytes r Hinv Hrun).
  - intros Hpre. unfold reclaim, on_world, getOp. run_m. rewrite Hthis.
    world_fields. destruct Hpre as [Hc | Hs].
    + rewrite Hc. cbn [velox_check]. eexists. reflexivity.
    + destruct (canSpill (task w) this); cbn [velox_check];
        [rewrite Hs; cbn [negb velox_check]|]; eexists; reflexivity.
  - intros Hc Hs. split; [|split].
    + intros He. unfold reclaim, on_world, getOp, log. run_m. rewrite Hthis.
      world_fields. rewrite Hc, Hs, He. reflexivity.
    + intros He Hn Hlog. unfold reclaim, on_world, getOp, log. run_m.
      rewrite Hthis. world_fields. rewrite Hc, Hs, He, Hn.
      cbn [velox_check negb].
      destruct Hlog as [-> | Hsp]; [reflexivity|].
      destruct (spiller_ this); [|congruence].
      rewrite andb_false_r. reflexivity.
    + intros He Hn Hp Hall.
      assert (Hcheck := checkPeers_seq (List.length (ops w)) 0 w st eq_refl Hall).
      cbn [skipn] in Hcheck.
      split.
      * intros Hex. unfold reclaim, on_world, getOp. run_m. rewrite Hthis.
        world_fields. rewrite Hc, Hs, He, Hn, Hp. cbn [velox_check negb].
        unfold findPeerOperators. rewrite Hcheck, Hex. reflexivity.
      * intros Hex Htab. unfold reclaim, on_world, getOp. run_m.
        rewrite Hthis. world_fields. rewrite Hc, Hs, He, Hn, Hp.
        cbn [velox_check negb].
        unfold findPeerOperators. rewrite Hcheck, Hex.
        rewrite (spillHashJoinTable_seq (List.length (ops w)) 0 w eq_refl)
          by (cbn [skipn]; intros o Ho; exact (reclaimable_has_spiller _ o Hex Ho)).
        cbn [firstn skipn app].
        rewrite clearTables_seq.
        -- world_fields. cbn [firstn skipn app].
           rewrite map_map, <- app_assoc. reflexivity.
        -- world_fields. rewrite length_map. reflexivity.
        -- world_fields. cbn [skipn]. intros o Ho.
           apply in_map_iff in Ho. destruct Ho as (o' & <- & Ho').
           specialize (Htab o' Ho'). unfold spillTable.
           destruct (spiller_ o'); exact Htab.
Qed.

(** C6, amended, on two running operators: both tables end in the
    spillers, both tables are empty and both reservations released. *)
Lemma reclaim_all_or_nothing_witness :
  exists w',
    reclaim 0 1024 (c6_world, mkReclaimerStats 0) = (Ret tt, (w', mkReclaimerStats 0)) /\
    map table_ (ops w') = [Some []; Some []] /\
    map (fun o => option_map spilled (spiller_ o)) (ops w')
      = [Some [sampleRow 1; sampleRow 2]; Some [sampleRow 3]] /\
    map reservation (ops w') = [0; 0].
Proof.
  destruct (reclaim_all_or_nothing 0 c6_world (mkReclaimerStats 0) 1024
              (sampleOp [sampleRow 1; sampleRow 2]) eq_refl)
    as (_ & _ & Hrun).
  destruct (Hrun eq_refl eq_refl) as (_ & _ & Hpeers).
  destruct (Hpeers eq_refl eq_refl eq_refl) as [_ Hall].
  - intros o [<- | [<- | []]]; reflexivity.
  - eexists. split.
    + apply Hall; [reflexivity|].
      intros o [<- | [<- | []]]; discriminate.
    + cbn. repeat split; reflexivity.
Defined.

(** ** Null keys of a batch *)
Lemma deselect_all_count (input : Batch) :
  countSelected (deselectRowsWithNulls input (setAll input))
  = Z.of_nat (List.length (List.filter (fun r => negb (hasNullKey r)) input)).
Proof.
  unfold countSelected, deselectRowsWithNulls, setAll. f_equal.
  induction input as [|r input IH]; [reflexivity|].
  cbn [map combine List.filter]. cbn [andb].
  destruct (negb (hasNullKey r)); cbn [List.length]; rewrite IH; reflexivity.
Qed.

Lemma filter_length_lt {A} (f : A -> bool) (l : list A) :
  existsb (fun x => negb (f x)) l = true ->
  (List.length (List.filter f l) < List.length l)%nat.
Proof.
  induction l as [|x l IH]; cbn [existsb List.filter List.length]; [discriminate|].
  pose proof (filter_length_le f l) as Hle.
  destruct (f x); cbn [negb orb List.length].
  - intros Hex. specialize (IH Hex). lia.
  - intros _. lia.
Qed.

Lemma null_key_deselects (input : Batch) :
  existsb hasNullKey input = true ->
  (countSelected (deselectRowsWithNulls input (setAll input))
     <? Z.of_nat (List.length input)) = true.
Proof.
  intros Hex. rewrite deselect_all_count. apply Z.ltb_lt.
  apply Nat2Z.inj_lt. apply filter_length_lt.
  rewrite <- Hex. clear Hex.
  induction input as [|r input IH]; [reflexivity|].
  cbn [existsb]. rewrite negb_involutive, IH. reflexivity.
Qed.

(** ** Updates of one operator *)
Lemma update_nth_error_same {A} (f : A -> A) (l : list A) (k : nat) (x : A) :
  nth_error l k = Some x -> f x = x -> update k f l = l.
Proof.
  revert k. induction l as [|y l IH]; intros [|k]; cbn; try discriminate.
  - intros [= ->] ->. reflexivity.
  - intros Hn Hf. rewrite (IH k Hn Hf). reflexivity.
Qed.

Lemma update_ext_at {A} (f g : A -> A) (l : list A) (k : nat) (x : A) :
  nth_error l k = Some x -> f x = g x -> update k f l = update k g l.
Proof.
  revert k. induction l as [|y l IH]; intros [|k]; cbn; try discriminate.
  - intros [= ->] ->. reflexivity.
  - intros Hn Hf. rewrite (IH k Hn Hf). reflexivity.
Qed.





Section NullAwareAntiJoin.
Variable ensureInputFits : nat -> Batch -> M World unit.
Variable ensureTableFits : nat -> Z -> M World unit.
Variable spillInputOrFuture : nat -> M World (option SpillInput).
Variable restoreSpillPartition : nat -> list Row -> M World unit.

End NullAwareAntiJoin.


Section FinishHashBuild.
Variable ensureTableFits : nat -> Z -> M World unit.


End FinishHashBuild.



End HashBuildProofs.

(** * Properties of the further members of the participant *)

Module ParticipantMemberProofs.
Import ArbitrationParticipant ParticipantStatements ParticipantMembers.
Import MemberStatements ParticipantProofs.
Local Open Scope list_scope.

Section Shrink.
Context {P : Type} `{MemoryPool P}.

(** X1: [shrinkLocked(false)] of a participant whose reclaimable free
    capacity is 0 returns 0 without calling the pool: the pool and the
    trace of calls are as before, the shrink is still counted and no
    reclaimed byte is added. *)
Theorem shrinkLocked_nothing_reclaimable (a : Participant P) :
  reclaimableFreeCapacity (config_ a) (pool_ a) = Ret 0 ->
  exists a',
    shrinkLocked false a = (Ret 0, a') /\
    pool_ a' = pool_ a /\
    trace_ a' = trace_ a /\
    numShrinks_ a' = numShrinks_ a + 1 /\
    reclaimedBytes_ a' = reclaimedBytes_ a.
Proof.
  intros Hz. unfold shrinkLocked, self_reclaimableFreeCapacity. run_m. fields.
  rewrite Hz. cbn. eexists. split; [reflexivity|]. fields.
  repeat split; try reflexivity. cbn. lia.
Qed.
End Shrink.

Lemma shrinkLocked_nothing_reclaimable_witness :
  exists a',
    shrinkLocked false c10_participant = (Ret 0, a') /\
    pool_ a' = pool_ c10_participant /\
    trace_ a' = trace_ c10_participant.
Proof.
  destruct (shrinkLocked_nothing_reclaimable c10_participant)
    as (a' & Hr & Hp & Ht & _).
  - vm_compute. reflexivity.
  - exists a'. repeat split; assumption.
Defined.

Section Grow.
Context {P : Type} `{MemoryPool P}.

(** X2: for a pool within the maximum capacity of the participant and
    a growth ratio whose product with the capacity casts to [uint64_t],
    [checkCapacityGrowth] answers true for exactly the requests for which
    [getGrowTargets] returns instead of throwing; the targets it returns
    then cover the request, have [minGrowBytes <= maxGrowBytes] and keep
    the capacity within the maximum. *)
Theorem checkCapacityGrowth_iff_getGrowTargets
    (c : Config) (maxCap : Z) (p : P) (requestBytes scaled : Z) :
  config_wf c -> pool_wf p ->
  maxCap < U64.modulus ->
  minCapacity c <= maxCap ->
  capacity p <= maxCap ->
  0 <= requestBytes ->
  Double.scale (capacity p) (slowCapacityGrowRatio c) = Some scaled ->
  (checkCapacityGrowth maxCap p requestBytes = Ret true <->
   exists maxGrowBytes minGrowBytes,
     getGrowTargets c maxCap p requestBytes = Ret (maxGrowBytes, minGrowBytes)) /\
  (forall maxGrowBytes minGrowBytes,
     getGrowTargets c maxCap p requestBytes = Ret (maxGrowBytes, minGrowBytes) ->
     requestBytes <= maxGrowBytes /\
     minGrowBytes <= maxGrowBytes /\
     capacity p + maxGrowBytes <= maxCap).
Proof.
  intros Hc Hp Hmax Hmin Hcap Hreq Hs.
  pose proof (minGrowCapacity_spec c p Hc Hp) as Hming.
  pose proof (maxGrowCapacity_spec maxCap p Hp Hmax Hcap) as Hmaxg.
  pose proof (growBase_spec c p requestBytes Hp) as Hbase.
  assert (Hb : exists base, spec_growBase c p requestBytes = Some base).
  { unfold spec_growBase.
    destruct ((fastExponentialGrowthCapacityLimit c =? 0)
              && Double.eqb (slowCapacityGrowRatio c) Double.zero);
      [eexists; reflexivity|].
    destruct (2 * capacity p <=? fastExponentialGrowthCapacityLimit c);
      [eexists; reflexivity|].
    exists scaled. exact Hs. }
  destruct Hb as [base Hb].
  unfold checkCapacityGrowth, getGrowTargets.
  rewrite Hbase, Hb, Hming, Hmaxg. cbn [cast_or_undefined obind].
  unfold spec_maxGrowCapacity, spec_minGrowCapacity.
  set (G := maxCap - capacity p).
  set (m := Z.max 0 (minCapacity c - capacity p)).
  set (mg := Z.min G (Z.max (Z.max requestBytes base) m)).
  assert (Hm : m <= G) by (unfold m, G; lia).
  assert (Hmg : (m <=? mg) = true) by (apply Z.leb_le; unfold mg; lia).
  rewrite Hmg. cbn [velox_check obind].
  split.
  - split.
    + intros [= Hle]. apply Z.leb_le in Hle.
      assert (Hr : (requestBytes <=? mg) = true)
        by (apply Z.leb_le; unfold mg; lia).
      rewrite Hr. cbn [velox_check obind]. eexists _, _. reflexivity.
    + intros (x & y & Hg).
      destruct (requestBytes <=? mg) eqn:Hr; cbn [velox_check obind] in Hg;
        [|discriminate].
      apply Z.leb_le in Hr. f_equal. apply Z.leb_le. unfold mg in Hr. lia.
  - intros x y Hg.
    destruct (requestBytes <=? mg) eqn:Hr; cbn [velox_check obind] in Hg;
      [|discriminate].
    apply Z.leb_le in Hr. injection Hg as <- <-.
    unfold mg, G in *. lia.
Qed.

(** X3: [create] throws when the minimum capacity of the configuration
    exceeds the maximum capacity of the pool; otherwise it returns a
    participant with no running and no waiting operation, not aborted,
    whose [maxGrowCapacity()] is the room left up to the maximum capacity of
    the pool and is at least its [minGrowCapacity()]. *)
Theorem create_checks_minCapacity
    (id : Z) (pool : P) (config : Config) :
  config_wf config -> pool_wf pool ->
  maxCapacity pool < U64.modulus ->
  capacity pool <= maxCapacity pool ->
  (maxCapacity pool < minCapacity config ->
   exists e, create id pool config = Throw e) /\
  (minCapacity config <= maxCapacity pool ->
   exists a g,
     create id pool config = Ret a /\
     runningOp_ a = None /\ waitOps_ a = [] /\ aborted_ a = false /\
     maxGrowCapacity (maxCapacity_ a) (pool_ a) = Ret g /\
     minGrowCapacity (config_ a) (pool_ a) <= g /\
     capacity pool + g = maxCapacity pool).
Proof.
  intros Hc Hp Hmax Hcap. unfold create. split.
  - intros Hlt. apply Z.leb_gt in Hlt. rewrite Hlt. eexists. reflexivity.
  - intros Hle. apply Z.leb_le in Hle as Hb. rewrite Hb.
    cbn [velox_check obind]. eexists _, _. split; [reflexivity|].
    cbn [runningOp_ waitOps_ aborted_ maxCapacity_ pool_ config_].
    rewrite (maxGrowCapacity_spec (maxCapacity pool) pool Hp Hmax Hcap).
    rewrite (minGrowCapacity_spec config pool Hc Hp).
    unfold spec_maxGrowCapacity, spec_minGrowCapacity.
    repeat split; try reflexivity; lia.
Qed.
End Grow.

Lemma checkCapacityGrowth_iff_getGrowTargets_witness :
  exists maxGrowBytes minGrowBytes,
    getGrowTargets c2_policy_config (512 * U64.MB) c2_pool (16 * U64.MB)
      = Ret (maxGrowBytes, minGrowBytes).
Proof.
  assert (Hc : config_wf c2_policy_config) by (split; wf_bounds).
  assert (Hp : pool_wf c2_pool)
    by (split; [wf_bounds | wf_bounds | intros r Hr; discriminate Hr]).
  apply (proj1 (proj1 (checkCapacityGrowth_iff_getGrowTargets
           c2_policy_config (512 * U64.MB) c2_pool (16 * U64.MB) (16 * U64.MB)
           Hc Hp ltac:(wf_bounds) ltac:(wf_bounds) ltac:(wf_bounds)
           ltac:(wf_bounds) ltac:(vm_compute; reflexivity)))).
  vm_compute. reflexivity.
Defined.

Lemma create_checks_minCapacity_witness :
  exists a g,
    create 1 c8_pool c8_config = Ret a /\
    maxGrowCapacity (maxCapacity_ a) (pool_ a) = Ret g /\
    minGrowCapacity (config_ a) (pool_ a) <= g.
Proof.
  assert (Hc : config_wf c8_config) by (split; wf_bounds).
  assert (Hp : pool_wf c8_pool)
    by (split; [wf_bounds | wf_bounds | intros r Hr; discriminate Hr]).
  destruct (proj2 (create_checks_minCapacity 1 c8_pool c8_config Hc Hp
                     ltac:(wf_bounds) ltac:(wf_bounds)) ltac:(wf_bounds))
    as (a & g & Hr & _ & _ & _ & Hg & Hle & _).
  exists a, g. repeat split; assumption.
Defined.

Section Reclaimable.
Context {P : Type} `{MemoryPool P}.

(** X4: for a pool that is not inactive and reports at most
    [kMaxMemory] reclaimable bytes, neither [reclaimableFreeCapacity()] nor
    [reclaimableUsedCapacity()] takes the capacity below the minimum
    capacity: both are 0 when the capacity is below the minimum, and
    otherwise the capacity less either of them is still at least the
    minimum. *)
Theorem reclaimable_capacity_keeps_minCapacity (c : Config) (p : P) (v : Z) :
  config_wf c -> pool_wf p ->
  (forall r, reclaimableBytes p = Some r -> r <= U64.kMaxMemory) ->
  inactivePool p = false ->
  reclaimableFreeCapacity c p = Ret v ->
  let u := reclaimableUsedCapacity c p in
  0 <= v /\ 0 <= u /\
  (capacity p < minCapacity c -> v = 0 /\ u = 0) /\
  (minCapacity c <= capacity p ->
   minCapacity c <= capacity p - v /\ minCapacity c <= capacity p - u).
Proof.
  intros Hc Hp Hrb Hin Hv u.
  assert (Hm : maxReclaimableCapacity c p
               = if capacity p <? minCapacity c then 0
                 else capacity p - minCapacity c).
  { unfold maxReclaimableCapacity. rewrite Hin.
    destruct (capacity p <? minCapacity c) eqn:E; [reflexivity|].
    apply Z.ltb_ge in E. destruct Hc as [Hmc _ _ _], Hp as [Hcap _ _].
    apply wrap_small. unfold U64.modulus, U64.kMaxMemory in *. lia. }
  assert (Hvb : 0 <= v <= maxReclaimableCapacity c p).
  { unfold reclaimableFreeCapacity in Hv.
    destruct (maxShrinkCapacity c p) as [s| | |] eqn:Es; try discriminate.
    cbn [obind] in Hv. injection Hv as <-.
    pose proof (maxShrinkCapacity_le_free c p s Hc Hp Es).
    pose proof (maxReclaimableCapacity_range c p Hc Hp). lia. }
  assert (Hub : 0 <= u <= maxReclaimableCapacity c p).
  { pose proof (maxReclaimableCapacity_range c p Hc Hp) as Hr.
    destruct Hp as [Hcap _ Hrb']. subst u. unfold reclaimableUsedCapacity.
    set (rb := match reclaimableBytes p with Some r => r | None => 0 end).
    assert (Hrange : 0 <= rb < 2 ^ 63).
    { subst rb. destruct (reclaimableBytes p) as [r|] eqn:Er; [|lia].
      specialize (Hrb r eq_refl). specialize (Hrb' r eq_refl).
      unfold U64.kMaxMemory in Hrb. lia. }
    rewrite !to_int64_small by (unfold U64.kMaxMemory in *; lia).
    rewrite wrap_small by (unfold U64.modulus, U64.kMaxMemory in *; lia).
    lia. }
  rewrite Hm in Hvb, Hub.
  split; [lia|]. split; [lia|]. split.
  - intros Hlt. apply Z.ltb_lt in Hlt. rewrite Hlt in Hvb, Hub. lia.
  - intros Hle. apply Z.ltb_ge in Hle. rewrite Hle in Hvb, Hub. lia.
Qed.

(** X5: an [ArbitrationCandidate] built from a participant whose pool
    reports at most [kMaxMemory] reclaimable bytes holds the capacity of the
    pool and two reclaimable capacities between 0 and that capacity; with
    [freeCapacityOnly] the reclaimable used capacity is 0. *)
Theorem candidate_within_capacity (a : Participant P)
    (freeCapacityOnly : bool) (cand : ArbitrationCandidate) :
  config_wf (config_ a) -> pool_wf (pool_ a) ->
  (forall r, reclaimableBytes (pool_ a) = Some r -> r <= U64.kMaxMemory) ->
  ArbitrationCandidate_new a freeCapacityOnly = Ret cand ->
  currentCapacity cand = capacity (pool_ a) /\
  0 <= reclaimableFreeCapacity_ cand <= currentCapacity cand /\
  0 <= reclaimableUsedCapacity_ cand <= currentCapacity cand /\
  (freeCapacityOnly = true -> reclaimableUsedCapacity_ cand = 0).
Proof.
  intros Hc Hp Hrb. unfold ArbitrationCandidate_new, self_capacity.
  destruct (reclaimableFreeCapacity (config_ a) (pool_ a)) as [v| | |] eqn:Ev;
    try discriminate.
  cbn [obind]. intros [= <-].
  cbn [currentCapacity reclaimableFreeCapacity_ reclaimableUsedCapacity_].
  pose proof (maxReclaimableCapacity_range _ _ Hc Hp) as Hr.
  assert (Hv : 0 <= v <= maxReclaimableCapacity (config_ a) (pool_ a)).
  { unfold reclaimableFreeCapacity in Ev.
    destruct (maxShrinkCapacity (config_ a) (pool_ a)) as [s| | |] eqn:Es;
      try discriminate.
    cbn [obind] in Ev. injection Ev as <-.
    pose proof (maxShrinkCapacity_le_free _ _ s Hc Hp Es). lia. }
  split; [reflexivity|]. split; [lia|]. split.
  - destruct freeCapacityOnly; [lia|].
    destruct Hp as [Hcap _ Hrb']. unfold reclaimableUsedCapacity.
    set (rb := match reclaimableBytes (pool_ a) with Some r => r | None => 0 end).
    assert (Hrange : 0 <= rb < 2 ^ 63).
    { subst rb. destruct (reclaimableBytes (pool_ a)) as [r|] eqn:Er; [|lia].
      specialize (Hrb r eq_refl). specialize (Hrb' r eq_refl).
      unfold U64.kMaxMemory in Hrb. lia. }
    rewrite !to_int64_small by (unfold U64.kMaxMemory in *; lia).
    rewrite wrap_small by (unfold U64.modulus, U64.kMaxMemory in *; lia).
    lia.
  - intros ->. reflexivity.
Qed.
End Reclaimable.

Lemma reclaimable_capacity_keeps_minCapacity_witness :
  reclaimableFreeCapacity c9_config c9_pool = Ret (16 * U64.MB) /\
  minCapacity c9_config <= capacity c9_pool - 16 * U64.MB /\
  minCapacity c9_config
  <= capacity c9_pool - reclaimableUsedCapacity c9_config c9_pool.
Proof.
  assert (Hc : config_wf c9_config) by (split; wf_bounds).
  assert (Hp : pool_wf c9_pool).
  { split; [wf_bounds | wf_bounds |].
    intros r Hr. vm_compute in Hr. injection Hr as <-. wf_bounds. }
  assert (Hv : reclaimableFreeCapacity c9_config c9_pool = Ret (16 * U64.MB))
    by (vm_compute; reflexivity).
  pose proof (reclaimable_capacity_keeps_minCapacity c9_config c9_pool
                (16 * U64.MB) Hc Hp) as Hk.
  cbv zeta in Hk.
  destruct Hk as (_ & _ & _ & Hmin).
  - intros r Hr. vm_compute in Hr. injection Hr as <-. wf_bounds.
  - vm_compute. reflexivity.
  - exact Hv.
  - split; [exact Hv|]. apply Hmin. wf_bounds.
Defined.

Lemma candidate_within_capacity_witness :
  exists cand,
    ArbitrationCandidate_new idleParticipant false = Ret cand /\
    0 <= reclaimableFreeCapacity_ cand <= currentCapacity cand /\
    0 <= reclaimableUsedCapacity_ cand <= currentCapacity cand.
Proof.
  assert (Hc : config_wf c9_config) by (split; wf_bounds).
  assert (Hp : pool_wf c9_pool).
  { split; [wf_bounds | wf_bounds |].
    intros r Hr. vm_compute in Hr. injection Hr as <-. wf_bounds. }
  set (cand := mkArbitrationCandidate (64 * U64.MB) (24 * U64.MB) (16 * U64.MB)).
  assert (Hnew : ArbitrationCandidate_new idleParticipant false = Ret cand)
    by (vm_compute; reflexivity).
  destruct (candidate_within_capacity idleParticipant false cand Hc Hp)
    as (_ & Hf & Hu & _).
  - intros r Hr. vm_compute in Hr. injection Hr as <-. wf_bounds.
  - exact Hnew.
  - exists cand. split; [exact Hnew|]. split; assumption.
Defined.

Section AdmissionHistory.
Context {P : Type} `{MemoryPool P}.

Lemma call_step (c : Call) (a a' : Participant P) :
  call c a = (Ret tt, a') ->
  (hasRunningOp a = false -> numWaitingOps a = 0) ->
  (hasRunningOp a' = false -> numWaitingOps a' = 0) /\
  numRequests_ a' = numRequests_ a + (if isStart c then 1 else 0) /\
  pool_ a' = pool_ a /\ aborted_ a' = aborted_ a.
Proof.
  unfold hasRunningOp, numWaitingOps.
  destruct c as [op|op]; cbn [call isStart].
  - unfold startArbitration. run_m. fields.
    destruct (runningOp_ a) as [r|] eqn:Hr; intros [= <-] Hinv; fields;
      (split; [intros; try discriminate; auto | repeat split; reflexivity]).
  - unfold finishArbitration. run_m.
    destruct (runningOp_ a) as [r|] eqn:Hr; cbn [velox_check]; [|discriminate].
    destruct (r =? op); [|discriminate].
    destruct (waitOps_ a) as [|front rest] eqn:Hw; intros [= <-] Hinv; fields;
      (split; [intros; try discriminate; reflexivity
              | repeat split; try reflexivity; lia]).
Qed.

(** X6: along every history of [startArbitration] and
    [finishArbitration] calls that returns, an operation waits only while
    another one runs (if the history starts that way), the number of
    requests grows by the number of arrivals, and the pool and the aborted
    flag are never touched. *)
Theorem admission_history_invariant (cs : list Call) (a a' : Participant P) :
  (hasRunningOp a = false -> numWaitingOps a = 0) ->
  run cs a = (Ret tt, a') ->
  (hasRunningOp a' = false -> numWaitingOps a' = 0) /\
  numRequests_ a'
    = numRequests_ a + Z.of_nat (List.length (List.filter isStart cs)) /\
  pool_ a' = pool_ a /\ aborted_ a' = aborted_ a.
Proof.
  revert a. induction cs as [|c cs IH]; intros a Hinv Hr.
  - injection Hr as <-. cbn. repeat split; try assumption; lia.
  - destruct (run_cons _ _ _ _ Hr) as (a1 & Hc & Hrest).
    destruct (call_step c a a1 Hc Hinv) as (Hinv1 & Hn1 & Hp1 & Ha1).
    destruct (IH a1 Hinv1 Hrest) as (Hinv' & Hn' & Hp' & Ha').
    split; [exact Hinv'|]. rewrite Hn', Hn1, Hp', Hp1, Ha', Ha1.
    cbn [List.filter]. destruct (isStart c); cbn [List.length];
      repeat split; lia.
Qed.

(** X7: [finishArbitration] of an operation that is not the running
    one (no operation runs, or another one does) throws and leaves the
    participant as it was: nothing is promoted and nobody is resumed. *)
Theorem finishArbitration_rejects_other_op (a : Participant P) (op : OpId) :
  runningOp_ a <> Some op ->
  finishArbitration op a = (Throw (VeloxRuntimeError "op == runningOp_"), a).
Proof.
  intros Hne. unfold finishArbitration. run_m.
  destruct (runningOp_ a) as [r|]; cbn [velox_check]; [|reflexivity].
  destruct (r =? op) eqn:E; [|reflexivity].
  apply Z.eqb_eq in E. subst r. contradiction.
Qed.

Lemma run_seq (cs1 cs2 : list Call) (a am : Participant P) :
  run cs1 a = (Ret tt, am) -> run (cs1 ++ cs2) a = run cs2 am.
Proof.
  revert a. induction cs1 as [|c cs1 IH]; intros a Hr.
  - injection Hr as ->. reflexivity.
  - destruct (run_cons _ _ _ _ Hr) as (a1 & Hc & Hrest).
    cbn [app run]. unfold mbind. rewrite Hc. apply IH. exact Hrest.
Qed.

Lemma run_starts_busy (ops : list OpId) (a : Participant P) (r : OpId) :
  runningOp_ a = Some r ->
  exists a',
    run (map CStart ops) a = (Ret tt, a') /\
    runningOp_ a' = Some r /\
    waitOps_ a' = waitOps_ a ++ ops /\
    resumed (trace_ a') = resumed (trace_ a).
Proof.
  revert a. induction ops as [|o ops IH]; intros a Hr.
  - exists a. rewrite app_nil_r. repeat split; assumption.
  - destruct (startArbitration_busy a o r Hr) as (a1 & H1 & Hr1 & Hw1 & Ht1 & _).
    destruct (IH a1 Hr1) as (a' & H2 & Hr2 & Hw2 & Ht2).
    exists a'. cbn [map run]. unfold mbind. cbn [call]. rewrite H1.
    split; [exact H2|]. split; [exact Hr2|].
    rewrite Hw2, Hw1, Ht2, Ht1, <- app_assoc. split; reflexivity.
Qed.

Lemma run_finishes_in_order (ops : list OpId) (a : Participant P) (r : OpId) :
  runningOp_ a = Some r ->
  waitOps_ a = ops ->
  exists a',
    run (map CFinish (r :: ops)) a = (Ret tt, a') /\
    runningOp_ a' = None /\
    waitOps_ a' = [] /\
    resumed (trace_ a') = resumed (trace_ a) ++ ops.
Proof.
  revert a r. induction ops as [|o ops IH]; intros a r Hr Hw.
  - destruct (finishArbitration_clears a r Hr Hw) as (a1 & H1 & Hr1 & Hw1 & Ht1).
    exists a1. cbn [map run]. unfold mbind. cbn [call]. rewrite H1.
    rewrite Ht1, app_nil_r. repeat split; assumption.
  - destruct (finishArbitration_promotes a r o ops Hr Hw)
      as (a1 & H1 & Hr1 & Hw1 & Ht1).
    destruct (IH a1 o Hr1 Hw1) as (a' & H2 & Hr2 & Hw2 & Ht2).
    exists a'. cbn [map run] in *. unfold mbind in *. cbn [call] in *.
    rewrite H1. split; [exact H2|]. split; [exact Hr2|]. split; [exact Hw2|].
    rewrite Ht2, Ht1, resumed_app. cbn [resumed]. rewrite <- app_assoc.
    reflexivity.
Qed.

(** X8: on an idle participant, operations that all arrive and then
    each finish in the order of their arrival all get through: the first
    runs at once, the others are resumed in the order of their arrival, and
    at the end nothing runs and nothing waits, so that the checks of the
    destructor pass. *)
Theorem arrivals_finish_in_order (first : OpId) (others : list OpId)
    (a : Participant P) :
  runningOp_ a = None ->
  waitOps_ a = [] ->
  exists a',
    run (map CStart (first :: others) ++ map CFinish (first :: others)) a
      = (Ret tt, a') /\
    resumed (trace_ a') = resumed (trace_ a) ++ others /\
    hasRunningOp a' = false /\
    numWaitingOps a' = 0 /\
    destructor_checks a' = Ret tt.
Proof.
  intros Hr Hw.
  destruct (startArbitration_idle a first Hr) as (a1 & H1 & Hr1 & Hw1 & Ht1).
  destruct (run_starts_busy others a1 first Hr1) as (a2 & H2 & Hr2 & Hw2 & Ht2).
  rewrite Hw1, Hw in Hw2. cbn [app] in Hw2.
  destruct (run_finishes_in_order others a2 first Hr2 Hw2)
    as (a3 & H3 & Hr3 & Hw3 & Ht3).
  exists a3. split.
  - assert (Hs : run (map CStart (first :: others)) a = (Ret tt, a2)).
    { cbn [map run]. unfold mbind. cbn [call]. rewrite H1. exact H2. }
    rewrite (run_seq _ _ _ _ Hs). exact H3.
  - rewrite Ht3, Ht2, Ht1.
    unfold hasRunningOp, numWaitingOps, destructor_checks, hasRunningOp.
    rewrite Hr3, Hw3. repeat split; reflexivity.
Qed.
End AdmissionHistory.

Lemma admission_history_invariant_witness :
  numRequests_ (snd (run c4_history c4_participant))
  = numRequests_ c4_participant + 3 /\
  pool_ (snd (run c4_history c4_participant)) = pool_ c4_participant.
Proof.
  destruct (admission_history_invariant c4_history c4_participant
              (snd (run c4_history c4_participant)))
    as (_ & Hn & Hp & _).
  - intros Hr. vm_compute in Hr. discriminate Hr.
  - vm_compute. reflexivity.
  - split; [exact Hn | exact Hp].
Defined.

Lemma finishArbitration_rejects_other_op_witness :
  finishArbitration 11 c4_participant
  = (Throw (VeloxRuntimeError "op == runningOp_"), c4_participant).
Proof.
  apply (finishArbitration_rejects_other_op c4_participant 11).
  vm_compute. discriminate.
Defined.

Lemma arrivals_finish_in_order_witness :
  exists a',
    run (map CStart [1; 3; 2] ++ map CFinish [1; 3; 2]) c10_participant
      = (Ret tt, a') /\
    resumed (trace_ a') = [3; 2] /\
    destructor_checks a' = Ret tt.
Proof.
  destruct (arrivals_finish_in_order 1 [3; 2] c10_participant eq_refl eq_refl)
    as (a' & Hr & Ht & _ & _ & Hd).
  exists a'. split; [exact Hr|]. split; [exact Ht | exact Hd].
Defined.

Ltac counters :=
  cbn [pool_ aborted_ trace_ config_ runningOp_ waitOps_ maxCapacity_ id_
       numRequests_ numReclaims_ numShrinks_ numGrows_ reclaimedBytes_
       growBytes_ with_pool with_aborted with_ops with_stats bump emit stats
       fst snd
       growBytes_add numGrows_incr numShrinks_incr reclaimedBytes_add
       numReclaims_incr numRequests_incr numRequests numReclaims numShrinks
       numGrows reclaimedBytes growBytes].

Section PoolCalls.
Context {P : Type} `{MemoryPool P}.

Lemma grow_accounting (a : Participant P) (growBytes reservationBytes : Z)
    (r : outcome bool) (p' : P) :
  pool_grow growBytes reservationBytes (pool_ a) = (r, p') ->
  exists a',
    grow growBytes reservationBytes a = (r, a') /\
    pool_ a' = p' /\
    trace_ a' = trace_ a ++ [EvPoolGrow growBytes reservationBytes] /\
    numGrows_ a' = numGrows_ a + 1 /\
    growBytes_ a'
      = growBytes_ a + match r with Ret true => growBytes | _ => 0 end /\
    runningOp_ a' = runningOp_ a /\ waitOps_ a' = waitOps_ a /\
    aborted_ a' = aborted_ a.
Proof.
  intros Hg. unfold grow. run_m. fields. rewrite Hg.
  destruct r as [[|]| | |]; fields; eexists; (split; [reflexivity|]); counters;
    repeat split; try reflexivity; lia.
Qed.

Lemma shrinkLocked_accounting (reclaimAll : bool) (a : Participant P)
    (target : Z) (r : outcome Z) (p' : P) :
  (if reclaimAll then target = 0
   else reclaimableFreeCapacity (config_ a) (pool_ a) = Ret target /\
        0 < target) ->
  pool_shrink target (pool_ a) = (r, p') ->
  exists a',
    shrinkLocked reclaimAll a = (r, a') /\
    pool_ a' = p' /\
    trace_ a' = trace_ a ++ [EvPoolShrink target] /\
    numShrinks_ a' = numShrinks_ a + 1 /\
    reclaimedBytes_ a'
      = reclaimedBytes_ a + match r with Ret n => n | _ => 0 end /\
    aborted_ a' = aborted_ a.
Proof.
  intros Ht Hs. unfold shrinkLocked, self_reclaimableFreeCapacity. run_m. fields.
  destruct reclaimAll.
  - subst target. fields. rewrite Hs.
    destruct r; fields; eexists; (split; [reflexivity|]); counters;
      repeat split; try reflexivity; lia.
  - destruct Ht as [Ht Hpos]. fields. rewrite Ht.
    apply Z.ltb_lt in Hpos. rewrite Hpos. fields. rewrite Hs.
    destruct r; fields; eexists; (split; [reflexivity|]); counters;
      repeat split; try reflexivity; lia.
Qed.
End PoolCalls.

Section AbortAndReclaim.
Context {P : Type} `{MemoryPool P}.

(** X9: [abort] of a participant that is not aborted takes the reclaim
    mutex, marks the participant aborted, asks the pool to abort with the
    given error, whether that call returns or throws, and then shrinks the
    whole free capacity of the pool; it returns what the shrink freed and
    counts it as a shrink. *)
Theorem abort_marks_and_shrinks (a : Participant P) (e : exn)
    (ra : outcome unit) (p2 p3 : P) (n : Z) :
  aborted_ a = false ->
  pool_abort e (pool_ a) = (ra, p2) ->
  (ra = Ret tt \/ exists e', ra = Throw e') ->
  aborted p2 = true ->
  pool_shrink 0 p2 = (Ret n, p3) ->
  exists a',
    abort e a = (Ret n, a') /\
    aborted_ a' = true /\
    pool_ a' = p3 /\
    trace_ a' = trace_ a ++ [EvLockReclaimMutex; EvPoolAbort e;
                             EvPoolShrink 0; EvUnlockReclaimMutex] /\
    numShrinks_ a' = numShrinks_ a + 1 /\
    reclaimedBytes_ a' = reclaimedBytes_ a + n.
Proof.
  intros Ha Hab Hra Hmark Hsh. unfold abort, with_reclaimMutex, noexcept.
  rewrite (abortLocked_fresh (emit EvLockReclaimMutex a) e ra p2 p3 n
             Ha Hab Hra Hmark Hsh).
  eexists. split; [reflexivity|]. counters.
  rewrite <- !app_assoc. cbn [app]. repeat split; reflexivity.
Qed.

(** X10: if the pool does not report itself aborted after its [abort],
    the check in [abortLocked] fails inside a [noexcept] member: [abort]
    terminates the process, the participant being already marked aborted,
    the pool not shrunk, and the reclaim mutex taken and never released. *)
Theorem abort_terminates_on_unmarked_pool (a : Participant P) (e : exn)
    (ra : outcome unit) (p2 : P) :
  aborted_ a = false ->
  pool_abort e (pool_ a) = (ra, p2) ->
  (ra = Ret tt \/ exists e', ra = Throw e') ->
  aborted p2 = false ->
  exists a',
    abort e a = (Terminate (VeloxRuntimeError "pool_->aborted()"), a') /\
    aborted_ a' = true /\
    pool_ a' = p2 /\
    trace_ a' = trace_ a ++ [EvLockReclaimMutex; EvPoolAbort e] /\
    numShrinks_ a' = numShrinks_ a.
Proof.
  intros Ha Hab Hra Hmark.
  unfold abort, with_reclaimMutex, abortLocked. run_m. fields.
  rewrite Ha. fields. rewrite Hab.
  destruct Hra as [-> | [e' ->]]; fields; rewrite Hmark; cbn [velox_check];
    eexists; (split; [reflexivity|]); counters;
    rewrite <- !app_assoc; cbn [app]; repeat split; reflexivity.
Qed.

(** X11: when the reclaim mutex is not acquired in time, [reclaim] does
    not call the pool's reclaim and counts no reclaim; it aborts the
    participant with the timeout error and returns what the abort's shrink
    freed, or returns 0 and touches nothing if the participant is already
    aborted. *)
Theorem reclaim_lock_timeout_aborts (a : Participant P) (st : ReclaimerStats)
    (targetBytes maxWaitTimeNs t : Z) :
  reclaimTarget a targetBytes = Ret t ->
  t <> 0 ->
  (aborted_ a = true ->
   reclaim targetBytes maxWaitTimeNs false (a, st) = (Ret 0, (a, st))) /\
  (aborted_ a = false ->
   forall (ra : outcome unit) (p2 p3 : P) (n : Z),
     pool_abort ArbitrationTimeout (pool_ a) = (ra, p2) ->
     (ra = Ret tt \/ exists e', ra = Throw e') ->
     aborted p2 = true ->
     pool_shrink 0 p2 = (Ret n, p3) ->
     exists a2,
       reclaim targetBytes maxWaitTimeNs false (a, st) = (Ret n, (a2, st)) /\
       aborted_ a2 = true /\
       pool_ a2 = p3 /\
       trace_ a2 = trace_ a ++ [EvPoolAbort ArbitrationTimeout; EvPoolShrink 0] /\
       numReclaims_ a2 = numReclaims_ a).
Proof.
  intros Ht Hnz.
  pose proof (reclaim_attempt_timeout a st t maxWaitTimeNs) as Hatt.
  split.
  - intros Ha.
    pose proof (abortLocked_aborted a ArbitrationTimeout Ha) as Hab.
    assert (Hr : abortLocked ArbitrationTimeout a
                 = (Ret 0, snd (abortLocked ArbitrationTimeout a)))
      by (rewrite Hab; reflexivity).
    rewrite (reclaim_after_failed_attempt a a st st targetBytes maxWaitTimeNs
               t 0 false ArbitrationTimeout Ht Hnz Hatt Hr).
    rewrite Hab. reflexivity.
  - intros Ha ra p2 p3 n Hab Hra Hmark Hsh.
    pose proof (abortLocked_fresh a ArbitrationTimeout ra p2 p3 n
                  Ha Hab Hra Hmark Hsh) as Hfresh.
    assert (Hr : abortLocked ArbitrationTimeout a
                 = (Ret n, snd (abortLocked ArbitrationTimeout a)))
      by (rewrite Hfresh; reflexivity).
    rewrite (reclaim_after_failed_attempt a a st st targetBytes maxWaitTimeNs
               t n false ArbitrationTimeout Ht Hnz Hatt Hr).
    rewrite Hfresh. eexists. split; [reflexivity|]. counters.
    rewrite <- !app_assoc. cbn [app]. repeat split; reflexivity.
Qed.

(** X12: when the pool's reclaim returns, [reclaim] asks the pool for at
    least [targetBytes] and at least [minReclaimBytes], and what it returns
    is not what the pool reclaimed but the capacity the following shrink
    frees: 0, without a call to the pool's shrink, if no free capacity is
    reclaimable afterwards, and otherwise what the pool's shrink of that
    reclaimable free capacity returns. *)
Theorem reclaim_returns_shrunk_capacity (a : Participant P)
    (st st1 : ReclaimerStats) (targetBytes maxWaitTimeNs t rb free : Z)
    (p1 : P) :
  reclaimTarget a targetBytes = Ret t ->
  t <> 0 ->
  pool_reclaim t (maxWaitTimeNs / 1000000) st (pool_ a) = (Ret rb, st1, p1) ->
  reclaimableFreeCapacity (config_ a) p1 = Ret free ->
  targetBytes <= t /\ minReclaimBytes (config_ a) <= t /\
  (free <= 0 ->
   exists a',
     reclaim targetBytes maxWaitTimeNs true (a, st) = (Ret 0, (a', st1)) /\
     pool_ a' = p1 /\
     trace_ a' = trace_ a ++ [EvLockReclaimMutex;
                              EvPoolReclaim t (maxWaitTimeNs / 1000000);
                              EvUnlockReclaimMutex] /\
     numReclaims_ a' = numReclaims_ a + 1 /\
     numShrinks_ a' = numShrinks_ a + 1 /\
     reclaimedBytes_ a' = reclaimedBytes_ a) /\
  (0 < free ->
   forall (n : Z) (p2 : P),
     pool_shrink free p1 = (Ret n, p2) ->
     exists a',
       reclaim targetBytes maxWaitTimeNs true (a, st) = (Ret n, (a', st1)) /\
       pool_ a' = p2 /\
       trace_ a' = trace_ a ++ [EvLockReclaimMutex;
                                EvPoolReclaim t (maxWaitTimeNs / 1000000);
                                EvPoolShrink free;
                                EvUnlockReclaimMutex] /\
       numReclaims_ a' = numReclaims_ a + 1 /\
       numShrinks_ a' = numShrinks_ a + 1 /\
       reclaimedBytes_ a' = reclaimedBytes_ a + n).
Proof.
  intros Ht Hnz Hrec Hfree.
  assert (Hbounds : targetBytes <= t /\ minReclaimBytes (config_ a) <= t).
  { unfold reclaimTarget in Ht.
    destruct (Double.scale (self_capacity a) (minReclaimPct (config_ a)));
      cbn [cast_or_undefined obind] in Ht; [|discriminate].
    injection Ht as <-. lia. }
  split; [apply Hbounds|]. split; [apply Hbounds|].
  apply Z.eqb_neq in Hnz.
  split.
  - intros Hle. apply Z.ltb_ge in Hle.
    unfold reclaim, reclaim_attempt, shrink, shrinkLocked,
      self_reclaimableFreeCapacity. run_m. fields.
    rewrite Ht, Hnz. fields. rewrite Hrec. fields. rewrite Hfree, Hle.
    eexists. split; [reflexivity|]. counters.
    rewrite <- !app_assoc. cbn [app]. repeat split; try reflexivity; lia.
  - intros Hpos n p2 Hsh. apply Z.ltb_lt in Hpos.
    unfold reclaim, reclaim_attempt, shrink, shrinkLocked,
      self_reclaimableFreeCapacity. run_m. fields.
    rewrite Ht, Hnz. fields. rewrite Hrec. fields. rewrite Hfree, Hpos.
    fields. rewrite Hsh.
    eexists. split; [reflexivity|]. counters.
    rewrite <- !app_assoc. cbn [app]. repeat split; try reflexivity; lia.
Qed.

Lemma reclaim_attempt_aborted (a a' : Participant P) (st st' : ReclaimerStats)
    (t maxWaitTimeNs : Z) (lockAcquired : bool) (r : outcome Z) :
  reclaim_attempt t maxWaitTimeNs lockAcquired (a, st) = (r, (a', st')) ->
  aborted_ a' = aborted_ a.
Proof.
  unfold reclaim_attempt, with_timedLock. destruct lockAcquired.
  - unfold shrink. cbv [mbind mmodify mret on_self call_pool_reclaim]. fields.
    destruct (pool_reclaim t (maxWaitTimeNs / 1000000) st (pool_ a))
      as [[[rb| | |] st1] p1]; try (intros [= _ <- _]; reflexivity).
    destruct (shrinkLocked false _) as [rs a2] eqn:Es.
    apply shrinkLocked_aborted in Es.
    cbn [aborted_ with_pool emit bump with_stats] in Es.
    destruct rs; intros [= _ <- _]; fields; exact Es.
  - intros [= _ <- _]. reflexivity.
Qed.

(** X13: no member resets the aborted flag: on an aborted participant
    it is still set after [grow], [shrink], [abort] and [reclaim], whatever
    they are given and whatever the pool answers. *)
Theorem aborted_is_permanent (a : Participant P) (st : ReclaimerStats) :
  aborted_ a = true ->
  (forall growBytes reservationBytes,
      aborted_ (snd (grow growBytes reservationBytes a)) = true) /\
  (forall reclaimAll, aborted_ (snd (shrink reclaimAll a)) = true) /\
  (forall e, aborted_ (snd (abort e a)) = true) /\
  (forall targetBytes maxWaitTimeNs lockAcquired,
      aborted_ (fst (snd (reclaim targetBytes maxWaitTimeNs lockAcquired (a, st))))
      = true).
Proof.
  intros Ha. split; [|split; [|split]].
  - intros g rb.
    destruct (pool_grow g rb (pool_ a)) as [r p'] eqn:Hg.
    destruct (grow_accounting a g rb r p' Hg) as (a' & -> & _ & _ & _ & _ & _ & _ & Hab).
    cbn [snd]. rewrite Hab. exact Ha.
  - intros reclaimAll. unfold shrink.
    destruct (shrinkLocked reclaimAll a) as [r a'] eqn:Es.
    apply shrinkLocked_aborted in Es. cbn [snd]. rewrite Es. exact Ha.
  - intros e. unfold abort, with_reclaimMutex, noexcept.
    rewrite (abortLocked_aborted (emit EvLockReclaimMutex a) e Ha).
    exact Ha.
  - intros targetBytes maxWaitTimeNs lockAcquired.
    unfold reclaim. run_m. fields.
    destruct (reclaimTarget a targetBytes) as [t| | |]; try exact Ha.
    destruct (t =? 0); [exact Ha|].
    destruct (reclaim_attempt t maxWaitTimeNs lockAcquired (a, st))
      as [r [a1 st1]] eqn:Eatt.
    apply reclaim_attempt_aborted in Eatt. rewrite Ha in Eatt.
    destruct r as [n|e| |]; cbn [fst snd]; try exact Eatt.
    rewrite (abortLocked_aborted a1 e Eatt). exact Eatt.
Qed.
End AbortAndReclaim.

Lemma abort_marks_and_shrinks_witness :
  exists a',
    abort (ExternalError 7) c4_participant = (Ret (64 * U64.MB), a') /\
    aborted_ a' = true /\
    capacity (pool_ a') = 0.
Proof.
  destruct (abort_marks_and_shrinks c4_participant (ExternalError 7) (Ret tt)
              (snd (pool_abort (ExternalError 7) (pool_ c4_participant)))
              (snd (pool_shrink 0
                      (snd (pool_abort (ExternalError 7)
                              (pool_ c4_participant)))))
              (64 * U64.MB))
    as (a' & Hr & Ha & Hp & _).
  - reflexivity.
  - vm_compute. reflexivity.
  - left. reflexivity.
  - vm_compute. reflexivity.
  - vm_compute. reflexivity.
  - exists a'. split; [exact Hr|]. split; [exact Ha|].
    rewrite Hp. vm_compute. reflexivity.
Defined.

Lemma abort_terminates_on_unmarked_pool_witness :
  exists a',
    abort (ExternalError 7) forgetfulParticipant
      = (Terminate (VeloxRuntimeError "pool_->aborted()"), a') /\
    aborted_ a' = true /\
    trace_ a' = [EvLockReclaimMutex; EvPoolAbort (ExternalError 7)].
Proof.
  destruct (abort_terminates_on_unmarked_pool forgetfulParticipant
              (ExternalError 7) (Ret tt)
              (snd (pool_abort (ExternalError 7) (pool_ forgetfulParticipant))))
    as (a' & Hr & Ha & _ & Ht & _).
  - reflexivity.
  - vm_compute. reflexivity.
  - left. reflexivity.
  - vm_compute. reflexivity.
  - exists a'. split; [exact Hr|]. split; [exact Ha | exact Ht].
Defined.

Lemma reclaim_lock_timeout_aborts_witness :
  exists a2,
    reclaim U64.MB 1000000 false (c4_participant, mkReclaimerStats 0)
      = (Ret (64 * U64.MB), (a2, mkReclaimerStats 0)) /\
    aborted_ a2 = true /\
    numReclaims_ a2 = numReclaims_ c4_participant.
Proof.
  destruct (reclaim_lock_timeout_aborts c4_participant (mkReclaimerStats 0)
              U64.MB 1000000 U64.MB) as [_ Hfresh].
  - vm_compute. reflexivity.
  - vm_compute. discriminate.
  - destruct (Hfresh eq_refl (Ret tt)
                (snd (pool_abort ArbitrationTimeout (pool_ c4_participant)))
                (snd (pool_shrink 0
                        (snd (pool_abort ArbitrationTimeout
                                (pool_ c4_participant)))))
                (64 * U64.MB))
      as (a2 & Hr & Ha & _ & _ & Hn).
    + vm_compute. reflexivity.
    + left. reflexivity.
    + vm_compute. reflexivity.
    + vm_compute. reflexivity.
    + exists a2. split; [exact Hr|]. split; [exact Ha | exact Hn].
Defined.

Lemma reclaim_returns_shrunk_capacity_witness :
  exists a',
    reclaim (8 * U64.MB) 1000000 true (idleParticipant, mkReclaimerStats 0)
      = (Ret (24 * U64.MB), (a', mkReclaimerStats 0)) /\
    numReclaims_ a' = numReclaims_ idleParticipant + 1 /\
    reclaimedBytes_ a' = reclaimedBytes_ idleParticipant + 24 * U64.MB.
Proof.
  set (p1 := snd (pool_reclaim (8 * U64.MB) 1 (mkReclaimerStats 0)
                    (pool_ idleParticipant))).
  destruct (reclaim_returns_shrunk_capacity idleParticipant
              (mkReclaimerStats 0) (mkReclaimerStats 0)
              (8 * U64.MB) 1000000 (8 * U64.MB) (8 * U64.MB) (24 * U64.MB) p1)
    as (_ & _ & _ & Hpos).
  - vm_compute. reflexivity.
  - vm_compute. discriminate.
  - vm_compute. reflexivity.
  - vm_compute. reflexivity.
  - destruct (Hpos ltac:(wf_bounds) (24 * U64.MB)
                (snd (pool_shrink (24 * U64.MB) p1)))
      as (a' & Hr & _ & _ & Hn & _ & Hb).
    + vm_compute. reflexivity.
    + exists a'. split; [exact Hr|]. split; [exact Hn | exact Hb].
Defined.

Lemma aborted_is_permanent_witness :
  aborted_ (snd (grow U64.MB U64.MB c7_participant)) = true /\
  aborted_ (fst (snd (reclaim U64.MB 1000000 true
                        (c7_participant, mkReclaimerStats 0)))) = true.
Proof.
  destruct (aborted_is_permanent c7_participant (mkReclaimerStats 0) eq_refl)
    as (Hg & _ & _ & Hr).
  split; [apply Hg | apply Hr].
Defined.

Section GrowCapacityField.

(** X14: [setPendingArbitrationGrowCapacity] stores the capacity only
    when none is pending and throws otherwise,
    [clearGlobalArbitrationGrowCapacity] resets it only when one is pending
    and throws otherwise, each leaving the field as it was when it throws;
    so setting a non-zero capacity and clearing it gives back 0, while
    setting 0 makes the following clear throw. *)
Theorem pending_grow_capacity_round_trip (g0 growCapacity : Z) :
  (g0 = 0 ->
   setPendingArbitrationGrowCapacity growCapacity g0 = (Ret tt, growCapacity)) /\
  (g0 <> 0 ->
   exists e, setPendingArbitrationGrowCapacity growCapacity g0 = (Throw e, g0)) /\
  (g0 <> 0 -> clearGlobalArbitrationGrowCapacity g0 = (Ret tt, 0)) /\
  (g0 = 0 -> exists e, clearGlobalArbitrationGrowCapacity g0 = (Throw e, g0)) /\
  (g0 = 0 -> growCapacity <> 0 ->
   (setPendingArbitrationGrowCapacity growCapacity ;;;
    clearGlobalArbitrationGrowCapacity)%M g0 = (Ret tt, 0)) /\
  (g0 = 0 -> growCapacity = 0 ->
   exists e,
     (setPendingArbitrationGrowCapacity growCapacity ;;;
      clearGlobalArbitrationGrowCapacity)%M g0 = (Throw e, 0)).
Proof.
  unfold setPendingArbitrationGrowCapacity, clearGlobalArbitrationGrowCapacity.
  run_m. repeat split.
  - intros ->. reflexivity.
  - intros Hne. apply Z.eqb_neq in Hne. rewrite Hne. eexists. reflexivity.
  - intros Hne. apply Z.eqb_neq in Hne. rewrite Hne. reflexivity.
  - intros ->. eexists. reflexivity.
  - intros -> Hne. apply Z.eqb_neq in Hne. cbn. rewrite Hne. reflexivity.
  - intros -> ->. eexists. reflexivity.
Qed.
End GrowCapacityField.

Section Constructor.
Context {P : Type} `{MemoryPool P}.

Lemma Config_new_invariants
    (initCap minCap limit : Z) (slow : Double.double)
    (minFree : Z) (ratio : Double.double)
    (minBytes : Z) (pct : Double.double) (c : Config) :
  Config_new initCap minCap limit slow minFree ratio minBytes pct = Ret c ->
  c = mkConfig initCap minCap limit slow minFree ratio minBytes pct /\
  (limit = 0 <-> Double.eqb slow Double.zero = true) /\
  (minFree = 0 <-> Double.eqb ratio Double.zero = true) /\
  Double.leb Double.zero slow = true /\
  Double.leb Double.zero ratio = true /\ Double.leb ratio Double.one = true /\
  Double.leb Double.zero pct = true /\ Double.leb pct Double.one = true.
Proof.
  unfold Config_new, velox_check.
  destruct (Double.leb Double.zero slow); [|discriminate].
  destruct (Bool.eqb (limit =? 0) (Double.eqb slow Double.zero)) eqn:E1;
    [|discriminate].
  destruct (Double.leb Double.zero ratio); [|discriminate].
  destruct (Double.leb ratio Double.one); [|discriminate].
  destruct (Bool.eqb (minFree =? 0) (Double.eqb ratio Double.zero)) eqn:E2;
    [|discriminate].
  destruct (Double.leb Double.zero pct); [|discriminate].
  destruct (Double.leb pct Double.one); [|discriminate].
  cbn [obind andb]. intros [= <-].
  apply eqb_prop in E1, E2. rewrite <- E1, <- E2, !Z.eqb_eq.
  repeat split; auto.
Qed.

(** X15: with a configuration that [Config::Config] accepted and whose
    two ratios are doubles, the casts of [capacity * ratio] to [uint64_t]
    are always defined: [maxShrinkCapacity], [reclaimableFreeCapacity], the
    target of [reclaim] and the constructor of [ArbitrationCandidate] all
    return a value for every pool with a capacity of at most [kMaxMemory]. *)
Theorem constructed_config_casts_are_defined
    (initCap minCap limit : Z) (slow : Double.double)
    (minFree : Z) (ratio : Double.double)
    (minBytes : Z) (pct : Double.double) (c : Config) (a : Participant P) :
  Config_new initCap minCap limit slow minFree ratio minBytes pct = Ret c ->
  Double.representable ratio = true ->
  Double.representable pct = true ->
  config_ a = c ->
  pool_wf (pool_ a) ->
  (exists v, maxShrinkCapacity c (pool_ a) = Ret v) /\
  (exists v, reclaimableFreeCapacity c (pool_ a) = Ret v) /\
  (forall targetBytes, exists t, reclaimTarget a targetBytes = Ret t) /\
  (forall freeCapacityOnly,
      exists cand, ArbitrationCandidate_new a freeCapacityOnly = Ret cand).
Proof.
  intros Hnew Hr Hp Hcfg Hwf.
  destruct (Config_new_invariants _ _ _ _ _ _ _ _ _ Hnew)
    as (-> & _ & _ & _ & H0 & H1 & Hp0 & Hp1).
  assert (Hratio : ratio_wf ratio) by (split; assumption).
  assert (Hpct : ratio_wf pct) by (split; assumption).
  destruct (scale_defined (capacity (pool_ a)) ratio (wf_capacity _ Hwf) Hratio)
    as [z Hz].
  destruct (scale_defined (capacity (pool_ a)) pct (wf_capacity _ Hwf) Hpct)
    as [y Hy].
  assert (Hs : exists v,
             maxShrinkCapacity
               (mkConfig initCap minCap limit slow minFree ratio minBytes pct)
               (pool_ a) = Ret v).
  { unfold maxShrinkCapacity. cbn [minFreeCapacity minFreeCapacityRatio].
    rewrite Hz.
    destruct (negb (minFree =? 0) && negb (inactivePool (pool_ a)));
      [|eexists; reflexivity].
    cbn [cast_or_undefined obind].
    destruct (freeBytes (pool_ a) <=? Z.min z minFree); eexists; reflexivity. }
  assert (Hf : exists v,
             reclaimableFreeCapacity
               (mkConfig initCap minCap limit slow minFree ratio minBytes pct)
               (pool_ a) = Ret v).
  { destruct Hs as [v Hv]. unfold reclaimableFreeCapacity. rewrite Hv.
    eexists. reflexivity. }
  split; [exact Hs|]. split; [exact Hf|]. split.
  - intros targetBytes. unfold reclaimTarget, self_capacity. rewrite Hcfg.
    cbn [minReclaimPct minReclaimBytes]. rewrite Hy. eexists. reflexivity.
  - intros freeCapacityOnly. unfold ArbitrationCandidate_new. rewrite Hcfg.
    destruct Hf as [v Hv]. rewrite Hv. eexists. reflexivity.
Qed.
End Constructor.

Lemma constructed_config_casts_are_defined_witness :
  exists v, reclaimableFreeCapacity c9_config (pool_ idleParticipant) = Ret v.
Proof.
  assert (Hc : config_wf c9_config) by (split; wf_bounds).
  assert (Hp : pool_wf (pool_ idleParticipant)).
  { split; [wf_bounds | wf_bounds |].
    intros r Hr. vm_compute in Hr. injection Hr as <-. wf_bounds. }
  exact (proj1 (proj2 (constructed_config_casts_are_defined
           0 (16 * U64.MB) 0 Double.zero (32 * U64.MB) (Double.ldexp 1 (-1))
           0 Double.zero c9_config idleParticipant
           ltac:(vm_compute; reflexivity) ltac:(vm_compute; reflexivity)
           ltac:(vm_compute; reflexivity) eq_refl Hp))).
Defined.
End ParticipantMemberProofs.

(** * Properties of the further members of the build operator *)

Module HashBuildMemberProofs.
Import HashBuild HashBuildStatements HashBuildMembers MemberStatements.
Import HashBuildProofs.
Local Open Scope list_scope.

Ltac world_fields_in H :=
  cbn [ops bridge task events set_ops set_bridge set_barrier emit fst snd
       barrier] in H.

(** X16: [setState] either throws and changes nothing or sets the
    state; the transitions it lets through never leave [kFinish], never
    enter [kYield], never stay in the same state, always have [kRunning] on
    one side, and lead back to [kRunning] only from [kWaitForBuild] when
    the operator cannot spill. *)
Theorem setState_state_machine (i : nat) (w : World) (o : Op) (state : State) :
  nth_error (ops w) i = Some o ->
  (exists e, setState i state w = (Throw e, w)) \/
  (setState i state w
     = (Ret tt, set_ops (update i (set_state state) (ops w)) w) /\
   state_ o <> kFinish /\
   state <> kYield /\
   state <> state_ o /\
   (state_ o = kRunning \/ state = kRunning) /\
   (state = kRunning -> canSpill (task w) o = false ->
    state_ o = kWaitForBuild)).
Proof.
  intros Hi. unfold setState, getOp, modifyOp. run_m. rewrite Hi.
  unfold checkStateTransition.
  destruct (state_ o) eqn:Es, state; cbn [State_eqb negb velox_check obind];
    try (left; eexists; reflexivity);
    try (right; split; [reflexivity|];
         repeat split; try discriminate; auto; fail).
  all: destruct (canSpill (task w) o) eqn:Ec;
    cbn [State_eqb negb velox_check obind];
    try (left; eexists; reflexivity);
    right; (split; [reflexivity|]);
    repeat split; try discriminate; auto.
Qed.

Lemma setState_state_machine_witness :
  setState 0 kWaitForBuild c6_world
  = (Ret tt, set_ops (update 0 (set_state kWaitForBuild) (ops c6_world)) c6_world).
Proof.
  destruct (setState_state_machine 0 c6_world
              (sampleOp [sampleRow 1; sampleRow 2]) kWaitForBuild eq_refl)
    as [[e He] | [Hr _]].
  - vm_compute in He. discriminate He.
  - exact Hr.
Defined.


Section RunningGuard.
Variable ensureInputFits : nat -> Batch -> M World unit.
Variable ensureTableFits : nat -> Z -> M World unit.
Variable spillInputOrFuture : nat -> M World (option SpillInput).
Variable restoreSpillPartition : nat -> list Row -> M World unit.

(** X17: [addInput], [noMoreInput], [finishHashBuild],
    [postHashBuildProcess] and [setupSpillInput] of an operator that is not
    in state [kRunning] throw at their first check and change nothing. *)
Theorem input_members_require_running (i : nat) (w : World) (o : Op)
    (input : Batch) (si : SpillInput) :
  nth_error (ops w) i = Some o ->
  state_ o <> kRunning ->
  let refused := (Throw (VeloxRuntimeError "isRunning()"), w) in
  addInput ensureInputFits ensureTableFits spillInputOrFuture
    restoreSpillPartition i input w = refused /\
  noMoreInput ensureTableFits spillInputOrFuture restoreSpillPartition i w
    = refused /\
  finishHashBuild ensureTableFits i w = (Throw (VeloxRuntimeError "isRunning()"), w) /\
  postHashBuildProcess spillInputOrFuture restoreSpillPartition i w = refused /\
  setupSpillInput restoreSpillPartition i si w = refused.
Proof.
  intros Hi Hs refused.
  assert (Hc : checkRunning i w = (Throw (VeloxRuntimeError "isRunning()"), w)).
  { unfold checkRunning, getOp. run_m. rewrite Hi. unfold isRunning.
    destruct (state_ o); try reflexivity. contradiction. }
  unfold addInput, noMoreInput, finishHashBuild, postHashBuildProcess,
    setupSpillInput, mbind. rewrite Hc. repeat split; reflexivity.
Qed.
End RunningGuard.

Lemma input_members_require_running_witness :
  addInput inputFits tableFits probeRunning nothingToRestore 1 c5_batch
    c5_last_world
  = (Throw (VeloxRuntimeError "isRunning()"), c5_last_world).
Proof.
  apply (input_members_require_running inputFits tableFits probeRunning
           nothingToRestore 1 c5_last_world
           (antiOp kWaitForBuild false [sampleRow 2]) c5_batch None eq_refl).
  discriminate.
Defined.

Lemma scope_exit_log {A} (e : Event) (body : M World A) (w w' : World)
    (r : outcome A) :
  scope_exit (log e) body w = (r, w') ->
  (exists a, r = Ret a) \/ (exists x, r = Throw x) ->
  exists pre, events w' = pre ++ [e].
Proof.
  unfold scope_exit, log, mmodify. destruct (body w) as [r0 w0].
  intros Hs Hr. destruct r0; injection Hs as <- <-;
    try (exists (events w0); reflexivity);
    destruct Hr as [[a Ha] | [x Hx]]; discriminate.
Qed.

Section ReleasePeers.
Variable ensureTableFits : nat -> Z -> M World unit.

(** X18: whenever [finishHashBuild] of a running operator that is the
    last to reach the barrier returns or throws, the last thing it did is
    to release the peers that waited at the barrier: they are never left
    blocked. *)
Theorem finishHashBuild_always_releases_peers (i : nat) (w w' : World)
    (o : Op) (r : outcome bool) :
  nth_error (ops w) i = Some o ->
  state_ o = kRunning ->
  (List.length (barrier (task w)) + 1 = List.length (ops w))%nat ->
  finishHashBuild ensureTableFits i w = (r, w') ->
  (exists b, r = Ret b) \/ (exists x, r = Throw x) ->
  exists pre, events w' = pre ++ [EvReleasePeers (barrier (task w))].
Proof.
  intros Hi Hs Hlast Hf Hr. unfold finishHashBuild in Hf.
  unfold checkRunning, poolRelease, allPeersFinished, getOp, modifyOp, log in Hf.
  cbv [mbind mget mmodify mlift mret] in Hf. rewrite Hi in Hf.
  unfold isRunning in Hf. rewrite Hs in Hf. cbn [State_eqb velox_check] in Hf.
  world_fields_in Hf.
  rewrite update_length in Hf. apply Nat.eqb_eq in Hlast. rewrite Hlast in Hf.
  cbn [negb] in Hf.
  eapply scope_exit_log; [exact Hf | exact Hr].
Qed.
End ReleasePeers.

Lemma finishHashBuild_always_releases_peers_witness :
  exists pre,
    events (snd (finishHashBuild tableFits 0 c5_peer_null_world))
    = pre ++ [EvReleasePeers [1%nat]].
Proof.
  apply (finishHashBuild_always_releases_peers tableFits 0 c5_peer_null_world
           (snd (finishHashBuild tableFits 0 c5_peer_null_world))
           (antiOp kRunning false [sampleRow 1]) (Ret true)).
  - reflexivity.
  - reflexivity.
  - reflexivity.
  - vm_compute. reflexivity.
  - left. exists true. reflexivity.
Defined.

(** ** One operator at a time

    The members that act on the operator of driver [i] alone are followed
    on worlds of the form [at_op i F w]: the operator of driver [i] is
    [F this], the others are those of [w]. *)

Lemma nth_error_update_other {A} (f : A -> A) (l : list A) (k j : nat) :
  j <> k -> nth_error (update k f l) j = nth_error l j.
Proof.
  revert k j. induction l as [|x l IH]; intros k j Hne.
  - destruct k; reflexivity.
  - destruct k, j; cbn [update nth_error]; try reflexivity.
    + contradiction.
    + apply IH. intros ->. apply Hne. reflexivity.
Qed.

Section AtOp.
Variable i : nat.
Variable os : list Op.
Variable this : Op.
Hypothesis Hthis : nth_error os i = Some this.

Lemma at_op_id (b : Bridge) (t : Task) (e : list Event) :
  mkWorld os b t e = at_op i os (fun o => o) b t e.
Proof.
  unfold at_op. rewrite (update_nth_error_same _ _ _ _ Hthis); reflexivity.
Qed.

Lemma getOp_at_op F b t e :
  getOp i (at_op i os F b t e) = (Ret (F this), at_op i os F b t e).
Proof.
  unfold getOp, at_op. cbn [ops]. rewrite (nth_error_update _ _ _ _ Hthis).
  reflexivity.
Qed.

Lemma modifyOp_at_op g F b t e :
  modifyOp i g (at_op i os F b t e) = (Ret tt, at_op i os (fun o => g (F o)) b t e).
Proof.
  unfold modifyOp, mmodify, at_op, set_ops. cbn [ops bridge task events].
  rewrite update_update. reflexivity.
Qed.

Lemma log_at_op ev F b t e :
  log ev (at_op i os F b t e) = (Ret tt, at_op i os F b t (e ++ [ev])).
Proof. reflexivity. Qed.

Lemma at_op_this F b t e :
  nth_error (ops (at_op i os F b t e)) i = Some (F this).
Proof. unfold at_op. cbn [ops]. apply nth_error_update. exact Hthis. Qed.

Lemma at_op_other F b t e j :
  j <> i -> nth_error (ops (at_op i os F b t e)) j = nth_error os j.
Proof. intros. unfold at_op. cbn [ops]. apply nth_error_update_other. assumption. Qed.
End AtOp.

(** ** Rows of a batch *)

Lemma selectedRows_setAll (input : Batch) :
  selectedRows input (setAll input) = input.
Proof.
  unfold selectedRows, setAll.
  induction input as [|r input IH]; [reflexivity|].
  cbn [map combine List.filter fst]. rewrite IH. reflexivity.
Qed.

Lemma selectedRows_deselect (input : Batch) :
  selectedRows input (deselectRowsWithNulls input (setAll input))
  = List.filter (fun r => negb (hasNullKey r)) input.
Proof.
  unfold selectedRows, deselectRowsWithNulls, setAll.
  induction input as [|r input IH]; [reflexivity|].
  cbn [map combine List.filter fst andb].
  destruct (negb (hasNullKey r)); cbn [map fst]; rewrite IH; reflexivity.
Qed.

Lemma selectedRows_none (input : Batch) (sel : Selection) :
  hasSelections sel = false -> selectedRows input sel = [].
Proof.
  unfold selectedRows, hasSelections. revert sel.
  induction input as [|r input IH]; intros [|b sel]; try reflexivity.
  cbn [existsb combine List.filter]. intros Hs.
  apply orb_false_iff in Hs. destruct Hs as [-> Hs].
  apply IH. exact Hs.
Qed.

Lemma hasSelections_cleared (sel : Selection) :
  hasSelections (map (fun _ => false) sel) = false.
Proof. induction sel as [|b sel IH]; [reflexivity | exact IH]. Qed.

Lemma selectedRows_removeInputRows (o : Op) (input : Batch) (sel : Selection) :
  selectedRows input (removeInputRowsForAntiJoinFilter o input sel)
  = List.filter (fun r => negb (readsNull o r)) (selectedRows input sel).
Proof.
  unfold selectedRows, removeInputRowsForAntiJoinFilter, readsNull.
  revert sel. induction input as [|r input IH]; intros [|s sel]; try reflexivity.
  cbn [combine map List.filter].
  destruct s; cbn [andb map fst List.filter]; [|apply IH].
  destruct (existsb (fun ch => nullAt ch (keys r)) (keyFilterChannels_ o));
    destruct (existsb (fun ch => nullAt ch (dependents r))
                (dependentFilterChannels_ o));
    cbn [negb andb orb map fst]; rewrite IH; reflexivity.
Qed.

Section StoreRows.
Variable ensureInputFits : nat -> Batch -> M World unit.
Variable ensureTableFits : nat -> Z -> M World unit.
Variable spillInputOrFuture : nat -> M World (option SpillInput).
Variable restoreSpillPartition : nat -> list Row -> M World unit.

Lemma addInputRows_at_op (i : nat) (os : list Op) (this : Op)
    (F : Op -> Op) (b : Bridge) (t : Task) (e : list Event)
    (input : Batch) (sel : Selection) (rows : list Row) :
  nth_error os i = Some this ->
  table_ (F this) = Some rows ->
  (forall sp, spiller_ (F this) = Some sp ->
              spillTriggered_ sp = true -> finalized_ sp = false) ->
  exists G,
    addInputRows i input sel (at_op i os F b t e)
      = (Ret tt, at_op i os G b t e) /\
    table_ (G this)
      = Some (if spilling t (F this) then rows
              else rows ++ selectedRows input sel) /\
    option_map spilled (spiller_ (G this))
      = option_map (fun sp => if spilling t (F this)
                              then spilled sp ++ selectedRows input sel
                              else spilled sp) (spiller_ (F this)) /\
    state_ (G this) = state_ (F this) /\
    numNullKeys (G this) = numNullKeys (F this) /\
    joinHasNullKeys_ (G this) = joinHasNullKeys_ (F this).
Proof.
  intros Hthis Htab Hfin.
  unfold addInputRows, spillInput, spilling. cbv [mbind mget mret mlift].
  rewrite (getOp_at_op i os this Hthis). cbn [task at_op].
  fold (at_op i os F b t e).
  destruct (spiller_ (F this)) as [sp|] eqn:Esp.
  - destruct (canSpill t (F this)) eqn:Ec; cbn [negb orb andb].
    + destruct (spillTriggered_ sp) eqn:Et; cbn [negb orb].
      * destruct (hasSelections sel) eqn:Eh; cbn [negb].
        -- rewrite (Hfin sp eq_refl Et). cbn [negb velox_check].
           rewrite (modifyOp_at_op i os). rewrite hasSelections_cleared.
           cbn [negb]. eexists. split; [reflexivity|].
           cbn [set_spiller table_ spiller_ state_ numNullKeys
                joinHasNullKeys_ option_map spilled].
           rewrite Htab. repeat split; reflexivity.
        -- rewrite Eh. cbn [negb]. exists F. split; [reflexivity|].
           rewrite Htab, Esp. cbn [option_map].
           rewrite (selectedRows_none _ _ Eh), ?app_nil_r.
           repeat split; reflexivity.
      * destruct (hasSelections sel) eqn:Eh; cbn [negb].
        -- rewrite (getOp_at_op i os this Hthis), Htab.
           rewrite (modifyOp_at_op i os). eexists. split; [reflexivity|].
           cbn [set_table table_ spiller_ state_ numNullKeys joinHasNullKeys_].
           rewrite Esp. repeat split; reflexivity.
        -- exists F. split; [reflexivity|].
           rewrite Htab, Esp. cbn [option_map].
           rewrite (selectedRows_none _ _ Eh), ?app_nil_r.
           repeat split; reflexivity.
    + destruct (hasSelections sel) eqn:Eh; cbn [negb].
      * rewrite (getOp_at_op i os this Hthis), Htab.
        rewrite (modifyOp_at_op i os). eexists. split; [reflexivity|].
        cbn [set_table table_ spiller_ state_ numNullKeys joinHasNullKeys_].
        rewrite Esp. repeat split; reflexivity.
      * exists F. split; [reflexivity|].
        rewrite Htab, Esp. cbn [option_map].
        rewrite (selectedRows_none _ _ Eh), ?app_nil_r.
        repeat split; reflexivity.
  - rewrite andb_false_r.
    destruct (hasSelections sel) eqn:Eh; cbn [negb].
    + rewrite (getOp_at_op i os this Hthis), Htab.
      rewrite (modifyOp_at_op i os). eexists. split; [reflexivity|].
      cbn [set_table table_ spiller_ state_ numNullKeys joinHasNullKeys_].
      rewrite Esp. repeat split; reflexivity.
    + exists F. split; [reflexivity|].
      rewrite Htab, Esp. cbn [option_map].
      rewrite (selectedRows_none _ _ Eh), ?app_nil_r.
      repeat split; reflexivity.
Qed.

Lemma count_null_rows (input : Batch) :
  Z.of_nat (List.length (setAll input))
  - countSelected (deselectRowsWithNulls input (setAll input))
  = nullKeyRows input.
Proof.
  rewrite deselect_all_count. unfold nullKeyRows, setAll.
  rewrite length_map.
  induction input as [|r input IH]; [reflexivity|].
  cbn [List.filter List.length]. destruct (hasNullKey r); cbn [negb List.length]; lia.
Qed.

Lemma count_lt_iff_null (input : Batch) :
  (countSelected (deselectRowsWithNulls input (setAll input))
     <? Z.of_nat (List.length input)) = existsb hasNullKey input.
Proof.
  destruct (existsb hasNullKey input) eqn:E.
  - apply null_key_deselects. exact E.
  - apply Z.ltb_ge. rewrite deselect_all_count. apply Nat2Z.inj_le.
    apply Nat.eq_le_incl. clear - E.
    induction input as [|r input IH]; [reflexivity|].
    cbn [existsb] in E. apply orb_false_iff in E. destruct E as [Hr E].
    cbn [List.filter]. rewrite Hr. cbn [negb List.length]. rewrite IH; auto.
Qed.

Lemma addInput_spec (i : nat) (w w1 : World) (this0 this : Op)
    (input : Batch) (rows : list Row) :
  nth_error (ops w) i = Some this0 ->
  state_ this0 = kRunning ->
  ensureInputFits i input w = (Ret tt, w1) ->
  nth_error (ops w1) i = Some this ->
  isAntiJoin (joinType_ this) = false \/ filter (joinNode_ this) = true ->
  table_ this = Some rows ->
  (forall sp, spiller_ this = Some sp ->
              spillTriggered_ sp = true -> finalized_ sp = false) ->
  let kept :=
    if ignoresNullKeys (joinNode_ this)
    then List.filter (fun r => negb (hasNullKey r)) input
    else input in
  let stored :=
    if isAntiJoin (joinType_ this) && filter (joinNode_ this)
       && filterPropagatesNulls_ this
    then List.filter (fun r => negb (readsNull this r)) kept
    else kept in
  exists w' o',
    addInput ensureInputFits ensureTableFits spillInputOrFuture
      restoreSpillPartition i input w = (Ret tt, w') /\
    nth_error (ops w') i = Some o' /\
    table_ o' = Some (if spilling (task w1) this then rows else rows ++ stored) /\
    option_map spilled (spiller_ o')
      = option_map (fun sp => if spilling (task w1) this
                              then spilled sp ++ stored
                              else spilled sp) (spiller_ this) /\
    numNullKeys o'
      = numNullKeys this
        + (if isInputFromSpill this then 0 else nullKeyRows input) /\
    joinHasNullKeys_ o'
      = joinHasNullKeys_ this || (nullAware_ this && existsb hasNullKey input) /\
    state_ o' = state_ this /\
    (forall j, j <> i -> nth_error (ops w') j = nth_error (ops w1) j) /\
    bridge w' = bridge w1 /\ task w' = task w1 /\ events w' = events w1.
Proof.
  intros Hthis0 Hrun Hfits Hthis Hpath Htab Hfin kept stored.
  destruct w1 as [os b t e]. cbn [ops task bridge events] in *.
  unfold addInput, checkRunning. cbv [mbind mget mret mlift].
  unfold getOp at 1. rewrite Hthis0.
  unfold isRunning. rewrite Hrun. cbn [State_eqb velox_check].
  rewrite Hfits. rewrite (at_op_id i os this Hthis).
  rewrite (getOp_at_op i os this Hthis). cbv beta.
  rewrite count_null_rows.
  unfold joinType_, nullAware_ in *.
  assert (Hfin' : forall F, spiller_ (F this) = spiller_ this ->
            forall sp, spiller_ (F this) = Some sp ->
              spillTriggered_ sp = true -> finalized_ sp = false).
  { intros F ->. exact Hfin. }
  set (sel := if ignoresNullKeys (joinNode_ this)
              then deselectRowsWithNulls input (setAll input)
              else setAll input).
  assert (Hkept : selectedRows input sel = kept).
  { unfold kept, sel. destruct (ignoresNullKeys (joinNode_ this));
      [apply selectedRows_deselect | apply selectedRows_setAll]. }
  assert (Hsel : selectedRows input
                   (if isAntiJoin (joinType (joinNode_ this))
                       && filter (joinNode_ this)
                       && filterPropagatesNulls_ this
                    then removeInputRowsForAntiJoinFilter this input sel
                    else sel) = stored).
  { unfold stored.
    destruct (isAntiJoin (joinType (joinNode_ this)) && filter (joinNode_ this)
              && filterPropagatesNulls_ this);
      [rewrite selectedRows_removeInputRows, Hkept; reflexivity | exact Hkept]. }
  clearbody stored. clear Hkept. unfold sel in Hsel. clear sel.
  assert (Hbranch : isAntiJoin (joinType (joinNode_ this))
                    && filter (joinNode_ this) = true
                    \/ isAntiJoin (joinType (joinNode_ this)) = false).
  { destruct Hpath as [-> | ->]; [right; reflexivity|].
    destruct (isAntiJoin (joinType (joinNode_ this)));
      [left | right]; reflexivity. }
  destruct (isInputFromSpill this) eqn:Efs; cbn [negb];
    rewrite ?(modifyOp_at_op i os); cbv beta iota;
    rewrite (getOp_at_op i os this Hthis); cbv beta iota;
    cbn [set_numNullKeys joinNode_ joinHasNullKeys_];
    fold (ignoresNullKeys (joinNode_ this));
    destruct (ignoresNullKeys (joinNode_ this)) eqn:Eig;
    rewrite ?count_lt_iff_null;
    destruct (isNullAware (joinNode_ this) && negb (joinHasNullKeys_ this)
              && existsb hasNullKey input) eqn:Ecnd;
    rewrite ?(modifyOp_at_op i os); cbv beta iota;
    rewrite (getOp_at_op i os this Hthis); cbv beta iota;
    cbn [set_numNullKeys set_joinHasNullKeys joinNode_ joinHasNullKeys_
         filterPropagatesNulls_];
    (destruct Hbranch as [Hb | Hb]; rewrite Hb in *; cbn [andb] in *).
  all: match goal with
       | |- context [addInputRows _ _ ?sel (at_op _ _ ?F _ _ _)] =>
           destruct (addInputRows_at_op i os this F b t e input sel rows Hthis)
             as (G & Hrun' & Htab' & Hsp' & Hst' & Hnn' & Hhn');
           [ exact Htab | apply (Hfin' F); reflexivity | ];
           rewrite Hrun'; exists (at_op i os G b t e), (G this);
           (split; [reflexivity|]); (split; [apply at_op_this; exact Hthis|]);
           (split; [rewrite <- Hsel; exact Htab'|]);
           (split; [rewrite <- Hsel; exact Hsp'|]);
           rewrite Hnn', Hhn', Hst';
           cbn [set_numNullKeys set_joinHasNullKeys numNullKeys joinHasNullKeys_
                state_];
           repeat split; try assumption; try reflexivity; try lia;
           try (intros j Hj; apply at_op_other; exact Hj);
           destruct (isNullAware (joinNode_ this)), (joinHasNullKeys_ this),
             (existsb hasNullKey input); try discriminate Ecnd; reflexivity
       end.
Qed.
(** X19: [addInput] of a running operator continues from whatever world
    the reservation for the batch returns with (the reservation may have
    spilled the operator).  If in that world the operator holds its table
    and its spiller, once triggered, is not finalized, and the join is not
    an anti join without filter, [addInput] returns; the rows it keeps are
    those of the batch, less the rows with a null key if the join drops
    them, less the rows with a null in a column the anti-join filter reads;
    they go to the spiller if spilling has been triggered by then and to
    the table otherwise.  The null-key rows are counted unless the input
    comes from a spill, a null key is remembered for a null-aware join, and
    the state of the operator, the other operators, the bridge, the task
    and the events are as the reservation left them. *)
Theorem addInput_stores_or_spills (i : nat) (w w1 : World) (this0 this : Op)
    (input : Batch) (rows : list Row) :
  nth_error (ops w) i = Some this0 ->
  state_ this0 = kRunning ->
  ensureInputFits i input w = (Ret tt, w1) ->
  nth_error (ops w1) i = Some this ->
  isAntiJoin (joinType_ this) = false \/ filter (joinNode_ this) = true ->
  table_ this = Some rows ->
  (forall sp, spiller_ this = Some sp ->
              spillTriggered_ sp = true -> finalized_ sp = false) ->
  let kept :=
    if ignoresNullKeys (joinNode_ this)
    then List.filter (fun r => negb (hasNullKey r)) input
    else input in
  let stored :=
    if isAntiJoin (joinType_ this) && filter (joinNode_ this)
       && filterPropagatesNulls_ this
    then List.filter (fun r => negb (readsNull this r)) kept
    else kept in
  exists w' o',
    addInput ensureInputFits ensureTableFits spillInputOrFuture
      restoreSpillPartition i input w = (Ret tt, w') /\
    nth_error (ops w') i = Some o' /\
    table_ o' = Some (if spilling (task w1) this then rows else rows ++ stored) /\
    option_map spilled (spiller_ o')
      = option_map (fun sp => if spilling (task w1) this
                              then spilled sp ++ stored
                              else spilled sp) (spiller_ this) /\
    numNullKeys o'
      = numNullKeys this
        + (if isInputFromSpill this then 0 else nullKeyRows input) /\
    joinHasNullKeys_ o'
      = joinHasNullKeys_ this || (nullAware_ this && existsb hasNullKey input) /\
    state_ o' = state_ this /\
    (forall j, j <> i -> nth_error (ops w') j = nth_error (ops w1) j) /\
    bridge w' = bridge w1 /\ task w' = task w1 /\ events w' = events w1.
Proof.
  intros Hthis0 Hrun Hfits Hthis Hpath Htab Hfin kept stored.
  destruct (addInput_spec i w w1 this0 this input rows Hthis0 Hrun Hfits Hthis
              Hpath Htab Hfin)
    as (w' & o' & Hspec).
  exists w', o'. exact Hspec.
Qed.

Lemma setupTable_ignoreNullKeys (n : JoinNode) :
  ignoreNullKeys (setupTable n) = ignoresNullKeys n.
Proof.
  unfold setupTable, ignoresNullKeys.
  destruct (isRightJoin (joinType n)), (isFullJoin (joinType n)),
    (isRightSemiProjectJoin (joinType n)),
    (isLeftNullAwareJoinWithFilter n); reflexivity.
Qed.

(** X20: [addInput] agrees with the table that [setupTable] creates for
    the join: whatever world the reservation for the batch returns with, if
    in that world the operator holds its table and its spiller, once
    triggered, is not finalized, and the join is not an anti join without
    filter, the rows that [addInput] of a running operator adds to the
    table or the spiller are rows of the batch; none of them has a null key
    when the table was created to ignore null keys; and when the table
    keeps null keys and the join is not an anti join, every row of the
    batch is added. *)
Theorem addInput_follows_table_mode (i : nat) (w w1 : World) (this0 this : Op)
    (input : Batch) (rows : list Row) :
  nth_error (ops w) i = Some this0 ->
  state_ this0 = kRunning ->
  ensureInputFits i input w = (Ret tt, w1) ->
  nth_error (ops w1) i = Some this ->
  isAntiJoin (joinType_ this) = false \/ filter (joinNode_ this) = true ->
  table_ this = Some rows ->
  (forall sp, spiller_ this = Some sp ->
              spillTriggered_ sp = true -> finalized_ sp = false) ->
  exists w' o' added,
    addInput ensureInputFits ensureTableFits spillInputOrFuture
      restoreSpillPartition i input w = (Ret tt, w') /\
    nth_error (ops w') i = Some o' /\
    table_ o' = Some (if spilling (task w1) this then rows else rows ++ added) /\
    option_map spilled (spiller_ o')
      = option_map (fun sp => if spilling (task w1) this
                              then spilled sp ++ added
                              else spilled sp) (spiller_ this) /\
    (forall r, In r added -> In r input) /\
    (ignoreNullKeys (setupTable (joinNode_ this)) = true ->
     forall r, In r added -> hasNullKey r = false) /\
    (ignoreNullKeys (setupTable (joinNode_ this)) = false ->
     isAntiJoin (joinType_ this) = false ->
     added = input).
Proof.
  intros Hthis0 Hrun Hfits Hthis Hpath Htab Hfin.
  pose proof (addInput_spec i w w1 this0 this input rows Hthis0 Hrun Hfits
                Hthis Hpath Htab Hfin) as Hspec.
  cbv zeta in Hspec.
  destruct Hspec as (w' & o' & Hr & Ho & Ht & Hs & _).
  rewrite setupTable_ignoreNullKeys.
  eexists w', o', _. split; [exact Hr|]. split; [exact Ho|].
  split; [exact Ht|]. split; [exact Hs|].
  destruct (ignoresNullKeys (joinNode_ this)) eqn:Eig;
    destruct (isAntiJoin (joinType_ this) && filter (joinNode_ this)
              && filterPropagatesNulls_ this) eqn:Ef.
  - split; [|split].
    + intros r Hin. apply filter_In in Hin. destruct Hin as [Hin _].
      apply filter_In in Hin. apply Hin.
    + intros _ r Hin. apply filter_In in Hin. destruct Hin as [Hin _].
      apply filter_In in Hin. destruct Hin as [_ Hn].
      destruct (hasNullKey r); [discriminate Hn | reflexivity].
    + discriminate.
  - split; [|split].
    + intros r Hin. apply filter_In in Hin. apply Hin.
    + intros _ r Hin. apply filter_In in Hin. destruct Hin as [_ Hn].
      destruct (hasNullKey r); [discriminate Hn | reflexivity].
    + discriminate.
  - split; [|split].
    + intros r Hin. apply filter_In in Hin. apply Hin.
    + discriminate.
    + intros _ Hanti. rewrite Hanti in Ef. discriminate Ef.
  - split; [|split].
    + intros r Hin. exact Hin.
    + discriminate.
    + reflexivity.
Qed.
End StoreRows.

Lemma addInput_stores_or_spills_witness :
  exists w' o',
    addInput inputFitsAfterSpill tableFits probeRunning nothingToRestore 0
      c5_batch c6_world = (Ret tt, w') /\
    nth_error (ops w') 0 = Some o' /\
    table_ o' = Some [] /\
    option_map spilled (spiller_ o')
      = Some [sampleRow 1; sampleRow 2; sampleRow 3] /\
    numNullKeys o' = 1.
Proof.
  destruct (addInput_stores_or_spills inputFitsAfterSpill tableFits
              probeRunning nothingToRestore 0 c6_world
              (snd (inputFitsAfterSpill 0 c5_batch c6_world))
              (sampleOp [sampleRow 1; sampleRow 2])
              (reclaimedOp (sampleOp [sampleRow 1; sampleRow 2]))
              c5_batch [])
    as (w' & o' & Hr & Ho & Ht & Hs & Hn & _).
  - reflexivity.
  - reflexivity.
  - reflexivity.
  - reflexivity.
  - left. reflexivity.
  - reflexivity.
  - intros sp Hsp Htrig. vm_compute in Hsp. injection Hsp as <-. reflexivity.
  - exists w', o'. split; [exact Hr|]. split; [exact Ho|].
    split; [exact Ht|]. split; [exact Hs | exact Hn].
Defined.

Lemma addInput_follows_table_mode_witness :
  exists w' o' added,
    addInput inputFitsAfterSpill tableFits probeRunning nothingToRestore 0
      c5_batch c6_world = (Ret tt, w') /\
    nth_error (ops w') 0 = Some o' /\
    option_map spilled (spiller_ o')
      = Some ([sampleRow 1; sampleRow 2] ++ added) /\
    forall r, In r added -> hasNullKey r = false.
Proof.
  destruct (addInput_follows_table_mode inputFitsAfterSpill tableFits
              probeRunning nothingToRestore 0 c6_world
              (snd (inputFitsAfterSpill 0 c5_batch c6_world))
              (sampleOp [sampleRow 1; sampleRow 2])
              (reclaimedOp (sampleOp [sampleRow 1; sampleRow 2]))
              c5_batch [])
    as (w' & o' & added & Hr & Ho & _ & Hs & _ & Hnull & _).
  - reflexivity.
  - reflexivity.
  - reflexivity.
  - reflexivity.
  - left. reflexivity.
  - reflexivity.
  - intros sp Hsp Htrig. vm_compute in Hsp. injection Hsp as <-. reflexivity.
  - exists w', o', added. split; [exact Hr|]. split; [exact Ho|].
    split; [exact Hs | apply Hnull; reflexivity].
Defined.
End HashBuildMemberProofs.

(** * The merge of the last driver *)

Module HashBuildMergeProofs.
Import HashBuild HashBuildStatements HashBuildMembers MemberStatements.
Import HashBuildProofs HashBuildMemberProofs.
Local Open Scope list_scope.


Lemma getOp_some (k : nat) (w : World) (o : Op) :
  nth_error (ops w) k = Some o -> getOp k w = (Ret o, w).
Proof. intros Hk. unfold getOp. rewrite Hk. reflexivity. Qed.

Lemma takeAll_other (bs : list nat) (os : list Op) (j : nat) :
  ~ In j bs -> nth_error (takeAll bs os) j = nth_error os j.
Proof.
  revert os. induction bs as [|b bs IH]; intros os Hj; [reflexivity|].
  cbn [takeAll fold_left]. fold (takeAll bs (update b takenOp os)).
  rewrite IH by (intros Hin; apply Hj; right; exact Hin).
  apply nth_error_update_other. intros ->. apply Hj. left. reflexivity.
Qed.

Lemma takeAll_taken (bs : list nat) (os : list Op) (b : nat) (o : Op) :
  NoDup bs -> In b bs -> nth_error os b = Some o ->
  nth_error (takeAll bs os) b = Some (takenOp o).
Proof.
  revert os. induction bs as [|c bs IH]; intros os Hnd Hin Hb; [contradiction|].
  inversion Hnd as [|? ? Hc Hnd']; subst.
  cbn [takeAll fold_left]. fold (takeAll bs (update c takenOp os)).
  destruct Hin as [-> | Hin].
  - rewrite takeAll_other by exact Hc. apply nth_error_update. exact Hb.
  - apply IH; [exact Hnd' | exact Hin |].
    rewrite nth_error_update_other; [exact Hb|].
    intros ->. contradiction.
Qed.

Lemma readyPeer_update (os : list Op) (k p : nat) (f : Op -> Op) :
  p <> k -> readyPeer os p -> readyPeer (update k f os) p.
Proof.
  intros Hne (o & rows & Ho & Hc & Ht). exists o, rows.
  rewrite nth_error_update_other by exact Hne. repeat split; assumption.
Qed.

Lemma takeTables_spec (bs : list nat) :
  forall (w : World) (T : list (list Row)) (S : list Row),
    NoDup bs ->
    (forall b, In b bs -> readyPeer (ops w) b) ->
    takeTables bs T S w
    = (Ret (T ++ map (tableRows (ops w)) bs,
            S ++ flat_map (spilledRows (ops w)) bs),
       mkWorld (takeAll bs (ops w)) (bridge w) (task w)
               (events w ++ finishSpillEvents (ops w) bs)).
Proof.
  induction bs as [|b bs IH]; intros w T S Hnd Hready.
  - cbn [takeTables map flat_map takeAll fold_left finishSpillEvents].
    rewrite !app_nil_r. destruct w; reflexivity.
  - inversion Hnd as [|? ? Hb Hnd']; subst.
    destruct (Hready b (or_introl eq_refl)) as (o & rows & Ho & Hc & Ht).
    cbn [takeTables]. cbv [mbind mlift].
    rewrite (getOp_some b w o Ho). rewrite Hc. cbn [negb velox_check].
    unfold modifyOp, mmodify. rewrite Ht.
    unfold set_ops. cbn [ops bridge task events].
    rewrite !update_update.
    fold (takenOp).
    change (fun x : Op => set_spiller None (set_table None (set_stateCleared true x)))
      with takenOp.
    assert (Hrest : forall b', In b' bs ->
              readyPeer (update b takenOp (ops w)) b').
    { intros b' Hin. apply readyPeer_update; [|apply Hready; right; exact Hin].
      intros ->. contradiction. }
    assert (Hrows : map (tableRows (update b takenOp (ops w))) bs
                    = map (tableRows (ops w)) bs).
    { apply map_ext_in. intros b' Hin. unfold tableRows.
      rewrite nth_error_update_other; [reflexivity|]. intros ->. contradiction. }
    assert (Hspl : flat_map (spilledRows (update b takenOp (ops w))) bs
                   = flat_map (spilledRows (ops w)) bs).
    { rewrite !flat_map_concat_map. f_equal. apply map_ext_in.
      intros b' Hin. unfold spilledRows.
      rewrite nth_error_update_other; [reflexivity|]. intros ->. contradiction. }
    assert (Hev : finishSpillEvents (update b takenOp (ops w)) bs
                  = finishSpillEvents (ops w) bs).
    { unfold finishSpillEvents. rewrite !flat_map_concat_map. f_equal.
      apply map_ext_in. intros b' Hin.
      rewrite nth_error_update_other; [reflexivity|]. intros ->. contradiction. }
    cbn [map flat_map takeAll fold_left finishSpillEvents].
    fold (takeAll bs (update b takenOp (ops w))).
    fold (finishSpillEvents (ops w) bs).
    unfold tableRows at 1. unfold spilledRows at 1. rewrite Ho, Ht.
    destruct (spiller_ o) as [sp|] eqn:Esp.
    + unfold log, mmodify, emit. cbn [ops bridge task events].
      rewrite (IH _ _ _ Hnd'); cbn [ops bridge task events]; [|exact Hrest].
      rewrite Hrows, Hspl, Hev. cbn [finishSpill snd].
      rewrite <- !app_assoc. reflexivity.
    + rewrite (IH _ _ _ Hnd'); cbn [ops bridge task events]; [|exact Hrest].
      rewrite Hrows, Hspl, Hev. rewrite <- !app_assoc. reflexivity.
Qed.

Lemma set_joinHasNullKeys_twice (o : Op) :
  set_joinHasNullKeys true (set_joinHasNullKeys true o)
  = set_joinHasNullKeys true o.
Proof. reflexivity. Qed.

Lemma gatheredRows_ext (os os' : list Op) (peers : list nat) :
  (forall p, In p peers -> nth_error os' p = nth_error os p) ->
  forall n, gatheredRows os' peers n = gatheredRows os peers n.
Proof.
  induction peers as [|p peers IH]; intros Hsame n; [reflexivity|].
  cbn [gatheredRows]. unfold tableRows.
  rewrite (Hsame p (or_introl eq_refl)).
  apply IH. intros q Hq. apply Hsame. right. exact Hq.
Qed.

(** The gathering loop when the join does not stop at a null key. *)
Lemma gatherPeers_spec (i : nat) (peers : list nat) :
  forall (w : World) (this : Op) (numRows : Z) (otherBuilds : list nat),
    nth_error (ops w) i = Some this ->
    antiNoFilter this = false ->
    ~ In i peers ->
    (forall p, In p peers -> readyPeer (ops w) p) ->
    gatherPeers i peers numRows otherBuilds w
    = (Ret (None, gatheredRows (ops w) peers numRows, otherBuilds ++ peers),
       mkWorld (update i (fun o => if existsb (sawNullKey (ops w)) peers
                                   then set_joinHasNullKeys true o else o)
                  (ops w))
               (bridge w) (task w) (events w)).
Proof.
  induction peers as [|p peers IH]; intros w this numRows otherBuilds
    Hthis Hanti Hi Hready.
  - cbn [gatherPeers existsb gatheredRows]. rewrite app_nil_r.
    rewrite (update_nth_error_same _ _ _ _ Hthis) by reflexivity.
    destruct w; reflexivity.
  - destruct (Hready p (or_introl eq_refl)) as (o & rows & Ho & Hc & Ht).
    assert (Hpi : p <> i) by (intros ->; apply Hi; left; reflexivity).
    assert (Hi' : ~ In i peers) by (intros Hin; apply Hi; right; exact Hin).
    assert (Hrows : tableRows (ops w) p = rows)
      by (unfold tableRows; rewrite Ho, Ht; reflexivity).
    cbn [gatherPeers gatheredRows]. rewrite Hrows. cbv [mbind mlift mret].
    rewrite (getOp_some p w o Ho), (getOp_some i w this Hthis).
    unfold antiNoFilter in Hanti.
    cbn [existsb]. unfold sawNullKey at 1. rewrite Ho.
    destruct (joinHasNullKeys_ o) eqn:Eh.
    + unfold modifyOp, mmodify. rewrite Hanti. rewrite Hc.
      cbn [negb velox_check]. rewrite Ht.
      set (w1 := set_ops (update i (set_joinHasNullKeys true) (ops w)) w).
      assert (Hthis1 : nth_error (ops w1) i = Some (set_joinHasNullKeys true this)).
      { unfold w1, set_ops. cbn [ops]. apply nth_error_update. exact Hthis. }
      assert (Hready1 : forall q, In q peers -> readyPeer (ops w1) q).
      { intros q Hq. unfold w1, set_ops. cbn [ops].
        apply readyPeer_update; [|apply Hready; right; exact Hq].
        intros ->. contradiction. }
      rewrite (IH w1 _ (U64.wrap (numRows + Z.of_nat (List.length rows)))
                 (otherBuilds ++ [p]) Hthis1 Hanti Hi' Hready1).
      rewrite <- app_assoc. cbn [app orb].
      rewrite (gatheredRows_ext (ops w) (ops w1) peers).
      2:{ intros q Hq. unfold w1, set_ops. cbn [ops].
          apply nth_error_update_other. intros ->. contradiction. }
      unfold w1, set_ops. cbn [ops bridge task events].
      rewrite update_update. do 2 f_equal.
      apply (update_ext_at _ _ _ _ _ Hthis).
      destruct (existsb _ peers); reflexivity.
    + rewrite Hc. cbn [negb velox_check]. rewrite Ht.
      rewrite (IH w this (U64.wrap (numRows + Z.of_nat (List.length rows)))
                 (otherBuilds ++ [p]) Hthis Hanti Hi'
                 (fun q Hq => Hready q (or_intror Hq))).
      rewrite <- app_assoc. reflexivity.
Qed.

Lemma setHashTable_at_op i os F b t e table parts hasNull :
  setHashTable table parts hasNull (at_op i os F b t e)
  = (Ret tt,
     at_op i os F (mkBridge (antiJoinHasNullKeys b) table parts hasNull) t
       (e ++ [EvSetHashTable])).
Proof. reflexivity. Qed.

Lemma getOp_mk (k : nat) (os : list Op) (b : Bridge) (t : Task)
    (e : list Event) (o : Op) :
  nth_error os k = Some o ->
  getOp k (mkWorld os b t e) = (Ret o, mkWorld os b t e).
Proof. intros Hk. apply getOp_some. exact Hk. Qed.

Lemma poolRelease_mk (i : nat) (os : list Op) (b : Bridge) (t : Task)
    (e : list Event) :
  poolRelease i (mkWorld os b t e)
  = (Ret tt, mkWorld (update i (set_reservation 0) os) b t (e ++ [EvPoolRelease i])).
Proof. reflexivity. Qed.

Lemma poolRelease_at_op i os F b t e :
  poolRelease i (at_op i os F b t e)
  = (Ret tt, at_op i os (fun o => set_reservation 0 (F o)) b t
               (e ++ [EvPoolRelease i])).
Proof.
  unfold poolRelease. cbv [mbind]. rewrite modifyOp_at_op. reflexivity.
Qed.

Lemma task_at_op i os F b t e : task (at_op i os F b t e) = t.
Proof. reflexivity. Qed.

Lemma canSpill_set_table t v o : canSpill t (set_table v o) = canSpill t o.
Proof. reflexivity. Qed.
Lemma canSpill_set_spiller t v o : canSpill t (set_spiller v o) = canSpill t o.
Proof. reflexivity. Qed.
Lemma canReclaim_set_table t v o : canReclaim t (set_table v o) = canReclaim t o.
Proof. reflexivity. Qed.
Lemma canReclaim_set_spiller t v o :
  canReclaim t (set_spiller v o) = canReclaim t o.
Proof. reflexivity. Qed.

Lemma app_three {A} (l : list A) (x y z : A) :
  ((l ++ [x]) ++ [y]) ++ [z] = l ++ [x; y; z].
Proof. rewrite <- !app_assoc. reflexivity. Qed.

Lemma setState_from_running (i : nat) (w : World) (o : Op) (state : State) :
  nth_error (ops w) i = Some o ->
  state_ o = kRunning ->
  state = kFinish \/ state = kWaitForProbe \/ state = kWaitForBuild ->
  setState i state w = (Ret tt, set_ops (update i (set_state state) (ops w)) w).
Proof.
  intros Hi Hs Hst. unfold setState, getOp, modifyOp, checkStateTransition.
  run_m. rewrite Hi, Hs.
  destruct Hst as [-> | [-> | ->]]; reflexivity.
Qed.

Lemma checkRunning_not_running (i : nat) (w : World) (o : Op) :
  nth_error (ops w) i = Some o ->
  state_ o <> kRunning ->
  checkRunning i w = (Throw (VeloxRuntimeError "isRunning()"), w).
Proof.
  intros Hi Hs. unfold checkRunning, getOp. run_m. rewrite Hi. unfold isRunning.
  destruct (state_ o); try reflexivity. contradiction.
Qed.

Lemma sawNullKey_ext (os os' : list Op) (peers : list nat) :
  (forall p, In p peers -> nth_error os' p = nth_error os p) ->
  existsb (sawNullKey os') peers = existsb (sawNullKey os) peers.
Proof.
  induction peers as [|p peers IH]; intros Hsame; [reflexivity|].
  cbn [existsb]. unfold sawNullKey at 1 3.
  rewrite (Hsame p (or_introl eq_refl)). f_equal.
  apply IH. intros q Hq. apply Hsame. right. exact Hq.
Qed.

Section Merge.
Variable ensureTableFits : nat -> Z -> M World unit.

Lemma finishHashBuild_merge_spec (i : nat) (w w3 : World) (this this3 : Op)
    (ownRows ownRows3 : list Row) :
  nth_error (ops w) i = Some this ->
  state_ this = kRunning ->
  table_ this = Some ownRows ->
  antiNoFilter this = false ->
  (List.length (barrier (task w)) + 1 = List.length (ops w))%nat ->
  NoDup (barrier (task w)) ->
  ~ In i (barrier (task w)) ->
  (forall p, In p (barrier (task w)) -> readyPeer (ops w) p) ->
  ensureTableFits i
    (gatheredRows (ops w) (barrier (task w))
       (U64.wrap (0 + Z.of_nat (List.length ownRows))))
    (beforeTableFits i w) = (Ret tt, w3) ->
  nth_error (ops w3) i = Some this3 ->
  table_ this3 = Some ownRows3 ->
  (canReclaim (task w3) this3 = true -> spiller_ this3 <> None) ->
  (forall p, In p (barrier (task w)) -> readyPeer (ops w3) p) ->
  let peers := barrier (task w) in
  exists w' o',
    finishHashBuild ensureTableFits i w = (Ret true, w') /\
    bridgeTable (bridge w')
      = Some (prepareJoinTable ownRows3 (map (tableRows (ops w3)) peers)) /\
    bridgeSpillPartitions (bridge w')
      = flat_map (spilledRows (ops w3)) peers ++ spilledRows (ops w3) i /\
    bridgeHasNullKeys (bridge w') = joinHasNullKeys_ this3 /\
    antiJoinHasNullKeys (bridge w') = antiJoinHasNullKeys (bridge w3) /\
    (forall p o, In p peers -> nth_error (ops w3) p = Some o ->
                 nth_error (ops w') p = Some (takenOp o)) /\
    nth_error (ops w') i = Some o' /\
    table_ o' = None /\ reservation o' = 0 /\ state_ o' = state_ this3 /\
    stateCleared_ o' = (canSpill (task w3) this3 || stateCleared_ this3) /\
    canSpill (task w') o' = canSpill (task w3) this3 /\
    noMoreInput_ o' = noMoreInput_ this3 /\
    task w' = task w3 /\
    exists pre, events w' = pre ++ [EvSetHashTable; EvPoolRelease i;
                                    EvReleasePeers peers].
Proof.
  intros Hthis Hrun Htab Hanti Hlast Hnd Hni Hready Hfits Hthis3 Htab3 Hsp
    Hready3 peers.
  destruct w as [os b t e]. cbn [ops task bridge events] in *.
  unfold finishHashBuild, checkRunning.
  cbv [mbind mget mret mlift].
  rewrite (getOp_mk i os b t e this Hthis). unfold isRunning. rewrite Hrun.
  cbn [State_eqb velox_check].
  rewrite poolRelease_mk. unfold allPeersFinished. cbn [ops task].
  rewrite update_length.
  apply Nat.eqb_eq in Hlast. rewrite Hlast. cbn [negb].
  unfold scope_exit at 1.
  unfold set_barrier at 1. cbn [ops bridge task events].
  set (t0 := mkTask (hasMixedExecutionGroupJoin t)
               (mixedGroupedModeHashJoinSpillEnabled t)
               (concurrentSplitGroups t) (pauseRequested t) []).
  set (os1 := update i (set_reservation 0) os).
  set (e1 := e ++ [EvPoolRelease i]).
  assert (Hthis1 : nth_error os1 i = Some (set_reservation 0 this))
    by (apply nth_error_update; exact Hthis).
  rewrite (getOp_mk i os1 b t0 e1 _ Hthis1).
  unfold joinType_, nullAware_.
  cbn [set_reservation joinHasNullKeys_ joinNode_ table_].
  assert (Hc : joinHasNullKeys_ this && isAntiJoin (joinType (joinNode_ this))
               && isNullAware (joinNode_ this)
               && negb (filter (joinNode_ this)) = false).
  { unfold antiNoFilter, joinType_, nullAware_ in Hanti.
    destruct (joinHasNullKeys_ this); [exact Hanti | reflexivity]. }
  rewrite Hc, Htab.
  assert (Hsame1 : forall p, In p (barrier t) -> nth_error os1 p = nth_error os p).
  { intros p Hp. unfold os1. apply nth_error_update_other.
    intros ->. contradiction. }
  assert (Hready1 : forall p, In p (barrier t) -> readyPeer os1 p).
  { intros p Hp. apply readyPeer_update; [|apply Hready; exact Hp].
    intros ->. contradiction. }
  rewrite (gatherPeers_spec i (barrier t) (mkWorld os1 b t0 e1)
             (set_reservation 0 this)
             (U64.wrap (0 + Z.of_nat (List.length ownRows))) []
             Hthis1 Hanti Hni Hready1).
  cbv beta iota. cbn [ops bridge task events app].
  rewrite (gatheredRows_ext os os1 (barrier t) Hsame1).
  rewrite (sawNullKey_ext os os1 (barrier t) Hsame1).
  assert (Hw : mkWorld
                 (update i (fun o => if existsb (sawNullKey os) (barrier t)
                                     then set_joinHasNullKeys true o else o) os1)
                 b t0 e1
               = beforeTableFits i (mkWorld os b t e)).
  { unfold beforeTableFits, set_barrier, os1. cbn [ops bridge task events].
    rewrite update_update. reflexivity. }
  rewrite Hw, Hfits. clear Hw Hfits.
  destruct w3 as [os3 b3 t3 e3]. cbn [ops task bridge events] in *.
  rewrite takeTables_spec; cbn [ops bridge task events app];
    [| exact Hnd | exact Hready3].
  set (os4 := takeAll (barrier t) os3).
  set (e4 := e3 ++ finishSpillEvents os3 (barrier t)).
  assert (Hthis4 : nth_error os4 i = Some this3)
    by (unfold os4; rewrite takeAll_other by exact Hni; exact Hthis3).
  rewrite (at_op_id i os4 this3 Hthis4).
  rewrite (getOp_at_op i os4 this3 Hthis4). cbv beta.
  assert (Hcheck : negb (canReclaim t3 this3)
                   || match spiller_ this3 with Some _ => true | None => false end
                   = true).
  { destruct (spiller_ this3) eqn:Esp; [apply orb_true_r|].
    destruct (canReclaim t3 this3); [|reflexivity].
    exfalso. apply Hsp; reflexivity. }
  assert (Hown : spilledRows os3 i
                 = match spiller_ this3 with
                   | Some sp => spilled sp
                   | None => []
                   end)
    by (unfold spilledRows; rewrite Hthis3; reflexivity).
  destruct (spiller_ this3) as [sp|] eqn:Esp;
    rewrite ?(modifyOp_at_op i os4), ?(log_at_op i os4); cbv beta iota;
    unfold scope_exit;
    rewrite (getOp_at_op i os4 this3 Hthis4); cbv beta iota;
    cbn [set_spiller table_]; rewrite Htab3;
    rewrite (modifyOp_at_op i os4), (log_at_op i os4); cbv beta iota;
    rewrite (getOp_at_op i os4 this3 Hthis4); cbv beta iota;
    rewrite task_at_op;
    rewrite ?canReclaim_set_table, ?canReclaim_set_spiller,
      ?canSpill_set_table, ?canSpill_set_spiller;
    cbn [set_table set_spiller spiller_ table_ joinHasNullKeys_];
    rewrite ?Esp; rewrite ?orb_true_r; rewrite ?Hcheck;
    cbn [velox_check];
    rewrite setHashTable_at_op; cbv beta iota;
    rewrite (modifyOp_at_op i os4); cbv beta iota;
    (destruct (canSpill t3 this3) eqn:Ecs;
     rewrite ?(modifyOp_at_op i os4); cbv beta iota;
     rewrite poolRelease_at_op; cbn [snd];
     rewrite log_at_op; cbn [snd];
     eexists; eexists; (split; [reflexivity|]);
     rewrite (at_op_this i os4 this3 Hthis4);
     cbn [bridge task events at_op ops bridgeTable bridgeSpillPartitions
          bridgeHasNullKeys antiJoinHasNullKeys existsb finishSpill snd];
     (split; [reflexivity|]);
     (split; [rewrite Hown, ?app_nil_r; reflexivity|]);
     (split; [reflexivity|]);
     (split; [reflexivity|]);
     (split; [intros p o Hp Ho; rewrite nth_error_update_other
                by (intros ->; contradiction);
              apply takeAll_taken; [exact Hnd | exact Hp | exact Ho]|]);
     (split; [reflexivity|]);
     cbn [set_reservation set_stateCleared set_table set_spiller table_
          reservation state_ stateCleared_ noMoreInput_];
     repeat split; try reflexivity; try exact Ecs;
     eexists; apply app_three).
Qed.

(** X21: [finishHashBuild] of the last driver, a running operator that
    holds its table, the join not being a null-aware anti join without
    filter and the peers at the barrier being distinct drivers that hold
    their tables, asks [ensureTableFits] for the rows of all these tables
    after it has released its reservation and recorded whether a peer saw a
    null key, and continues from whatever world the reservation returns
    with (the reservation may have spilled the operators).  If in that
    world the operator and the peers still hold their tables and the
    operator has a spiller if it can reclaim, the call returns true and
    hands to the bridge the table that [prepareJoinTable] makes of its own
    table and the tables of the peers in barrier order, the spilled rows of
    the peers followed by its own, and whether the operator has recorded a
    null key, all as they are after the reservation.  Each peer is left
    without table and spiller and with its state cleared, the operator
    itself without table and reservation, and the call ends by publishing
    the table, releasing the pool and releasing the peers, in this
    order. *)
Theorem finishHashBuild_merges_tables (i : nat) (w w3 : World)
    (this this3 : Op) (ownRows ownRows3 : list Row) :
  nth_error (ops w) i = Some this ->
  state_ this = kRunning ->
  table_ this = Some ownRows ->
  antiNoFilter this = false ->
  (List.length (barrier (task w)) + 1 = List.length (ops w))%nat ->
  NoDup (barrier (task w)) ->
  ~ In i (barrier (task w)) ->
  (forall p, In p (barrier (task w)) -> readyPeer (ops w) p) ->
  ensureTableFits i
    (gatheredRows (ops w) (barrier (task w))
       (U64.wrap (0 + Z.of_nat (List.length ownRows))))
    (beforeTableFits i w) = (Ret tt, w3) ->
  nth_error (ops w3) i = Some this3 ->
  table_ this3 = Some ownRows3 ->
  (canReclaim (task w3) this3 = true -> spiller_ this3 <> None) ->
  (forall p, In p (barrier (task w)) -> readyPeer (ops w3) p) ->
  let peers := barrier (task w) in
  exists w' o',
    finishHashBuild ensureTableFits i w = (Ret true, w') /\
    bridgeTable (bridge w')
      = Some (prepareJoinTable ownRows3 (map (tableRows (ops w3)) peers)) /\
    bridgeSpillPartitions (bridge w')
      = flat_map (spilledRows (ops w3)) peers ++ spilledRows (ops w3) i /\
    bridgeHasNullKeys (bridge w') = joinHasNullKeys_ this3 /\
    antiJoinHasNullKeys (bridge w') = antiJoinHasNullKeys (bridge w3) /\
    (forall p o, In p peers -> nth_error (ops w3) p = Some o ->
                 nth_error (ops w') p = Some (takenOp o)) /\
    nth_error (ops w') i = Some o' /\
    table_ o' = None /\ reservation o' = 0 /\ state_ o' = state_ this3 /\
    stateCleared_ o' = (canSpill (task w3) this3 || stateCleared_ this3) /\
    task w' = task w3 /\
    exists pre, events w' = pre ++ [EvSetHashTable; EvPoolRelease i;
                                    EvReleasePeers peers].
Proof.
  intros Hthis Hrun Htab Hanti Hlast Hnd Hni Hready Hfits Hthis3 Htab3 Hsp
    Hready3 peers.
  destruct (finishHashBuild_merge_spec i w w3 this this3 ownRows ownRows3
              Hthis Hrun Htab Hanti Hlast Hnd Hni Hready Hfits Hthis3 Htab3
              Hsp Hready3)
    as (w' & o' & H1 & H2 & H3 & H4 & H5 & H6 & H7 & H8 & H9 & H10 & H11
        & _ & _ & H12 & H13).
  exists w', o'. repeat (split; [assumption|]). exact H13.
Qed.

Variable spillInputOrFuture : nat -> M World (option SpillInput).
Variable restoreSpillPartition : nat -> list Row -> M World unit.

(** X22: the first [noMoreInput] of the last driver (a running
    operator that holds its table, the join not being a null-aware anti join
    without filter, the peers at the barrier being distinct drivers that
    hold their tables) calls the table reservation, as [finishHashBuild]
    does, after it has set [noMoreInput_], and continues from whatever
    world the reservation returns with.  If in that world the operator is still running, the
    operator and the peers still hold their tables and the operator has a
    spiller if it can reclaim, and if the bridge answers that the probe side
    has not finished without touching the operators, the task or its table,
    the call returns with the merged table and the spilled rows on the
    bridge, the operator without table and in state [kWaitForProbe] if it
    can spill and [kFinish] otherwise; a second [noMoreInput] then throws
    and changes nothing. *)
Theorem noMoreInput_last_driver_hands_off (i : nat) (w w3 : World)
    (this this3 : Op) (ownRows ownRows3 : list Row) :
  nth_error (ops w) i = Some this ->
  state_ this = kRunning ->
  noMoreInput_ this = false ->
  table_ this = Some ownRows ->
  antiNoFilter this = false ->
  (List.length (barrier (task w)) + 1 = List.length (ops w))%nat ->
  NoDup (barrier (task w)) ->
  ~ In i (barrier (task w)) ->
  (forall p, In p (barrier (task w)) -> readyPeer (ops w) p) ->
  ensureTableFits i
    (gatheredRows (ops w) (barrier (task w))
       (U64.wrap (0 + Z.of_nat (List.length ownRows))))
    (beforeTableFits i (afterNoMoreInput i w)) = (Ret tt, w3) ->
  nth_error (ops w3) i = Some this3 ->
  state_ this3 = kRunning ->
  table_ this3 = Some ownRows3 ->
  (canReclaim (task w3) this3 = true -> spiller_ this3 <> None) ->
  (forall p, In p (barrier (task w)) -> readyPeer (ops w3) p) ->
  (forall w4, exists w5,
      spillInputOrFuture i w4 = (Ret None, w5) /\
      ops w5 = ops w4 /\ task w5 = task w4 /\ bridge w5 = bridge w4) ->
  let peers := barrier (task w) in
  exists w' o',
    noMoreInput ensureTableFits spillInputOrFuture restoreSpillPartition i w
      = (Ret tt, w') /\
    bridgeTable (bridge w')
      = Some (prepareJoinTable ownRows3 (map (tableRows (ops w3)) peers)) /\
    bridgeSpillPartitions (bridge w')
      = flat_map (spilledRows (ops w3)) peers ++ spilledRows (ops w3) i /\
    nth_error (ops w') i = Some o' /\
    noMoreInput_ o' = noMoreInput_ this3 /\
    table_ o' = None /\
    state_ o' = (if canSpill (task w3) this3 then kWaitForProbe else kFinish) /\
    noMoreInput ensureTableFits spillInputOrFuture restoreSpillPartition i w'
      = (Throw (VeloxRuntimeError "isRunning()"), w').
Proof.
  intros Hthis Hrun Hnm Htab Hanti Hlast Hnd Hni Hready Hfits Hthis3 Hrun3
    Htab3 Hsp Hready3 Hprobe peers.
  set (w1 := afterNoMoreInput i w) in *.
  assert (Hthis1 : nth_error (ops w1) i = Some (set_noMoreInput true this))
    by (apply nth_error_update; exact Hthis).
  assert (Hother : forall p, In p peers -> nth_error (ops w1) p = nth_error (ops w) p).
  { intros p Hp. apply nth_error_update_other. intros ->. contradiction. }
  rewrite <- (gatheredRows_ext (ops w) (ops w1) peers Hother) in Hfits.
  assert (Hlast1 : (List.length (barrier (task w1)) + 1
                    = List.length (ops w1))%nat).
  { unfold w1, afterNoMoreInput, set_ops. cbn [ops task].
    rewrite update_length. exact Hlast. }
  assert (Hready1 : forall p, In p (barrier (task w1)) -> readyPeer (ops w1) p).
  { intros p Hp. apply readyPeer_update; [intros ->; contradiction|].
    apply Hready. exact Hp. }
  destruct (finishHashBuild_merge_spec i w1 w3 (set_noMoreInput true this)
              this3 ownRows ownRows3 Hthis1 Hrun Htab Hanti Hlast1 Hnd Hni
              Hready1 Hfits Hthis3 Htab3 Hsp Hready3)
    as (wf & o1 & Hfin & Hbt & Hbs & _ & _ & _ & Hof & Htof & _ & Hsof & _
        & Hcs & Hnmf & Htask & _).
  rewrite Hrun3 in Hsof.
  set (final := if canSpill (task w3) this3 then kWaitForProbe else kFinish).
  assert (Hpost : exists w',
             postHashBuildProcess spillInputOrFuture restoreSpillPartition i wf
             = (Ret tt, w') /\
             ops w' = update i (set_state final) (ops wf) /\
             bridge w' = bridge wf).
  { unfold postHashBuildProcess, checkRunning. cbv [mbind mget mlift mret].
    rewrite (getOp_some i wf o1 Hof). unfold isRunning. rewrite Hsof.
    cbn [State_eqb velox_check]. rewrite (getOp_some i wf o1 Hof). cbv beta iota.
    rewrite Hcs. unfold final.
    destruct (canSpill (task w3) this3); cbn [negb].
    - destruct (Hprobe wf) as (w5 & H5 & Hops5 & Htask5 & Hbridge5).
      rewrite H5. cbv beta iota.
      assert (Hof5 : nth_error (ops w5) i = Some o1) by (rewrite Hops5; exact Hof).
      rewrite (setState_from_running i w5 o1 kWaitForProbe Hof5 Hsof); auto.
      eexists. split; [reflexivity|]. cbn [set_ops ops bridge].
      rewrite Hops5, Hbridge5. split; reflexivity.
    - rewrite (setState_from_running i wf o1 kFinish Hof Hsof); auto.
      eexists. split; [reflexivity|]. split; reflexivity. }
  destruct Hpost as (w' & Hpost & Hops' & Hbridge').
  assert (Hend : nth_error (ops w') i = Some (set_state final o1))
    by (rewrite Hops'; apply nth_error_update; exact Hof).
  exists w', (set_state final o1).
  split.
  - unfold noMoreInput, noMoreInputInternal, checkRunning.
    cbv [mbind mget mlift mret].
    rewrite (getOp_some i w this Hthis). unfold isRunning. rewrite Hrun.
    cbn [State_eqb velox_check]. rewrite (getOp_some i w this Hthis).
    cbv beta iota. rewrite Hnm.
    unfold modifyOp, mmodify. fold (afterNoMoreInput i w). fold w1.
    rewrite Hfin. exact Hpost.
  - rewrite Hbridge'. split; [exact Hbt|]. split; [exact Hbs|].
    split; [exact Hend|].
    split; [exact Hnmf|]. split; [exact Htof|]. split; [reflexivity|].
    unfold noMoreInput. cbv [mbind].
    rewrite (checkRunning_not_running _ _ _ Hend); [reflexivity|].
    cbn [set_state state_]. unfold final.
    destruct (canSpill (task w3) this3); discriminate.
Qed.
End Merge.

Lemma finishHashBuild_merges_tables_witness :
  exists w',
    finishHashBuild tableFitsAfterSpill 0 mergeWorld = (Ret true, w') /\
    bridgeTable (bridge w') = Some [sampleRow 2] /\
    bridgeSpillPartitions (bridge w') = [sampleRow 1] /\
    option_map table_ (nth_error (ops w') 1) = Some None.
Proof.
  destruct (finishHashBuild_merges_tables tableFitsAfterSpill 0 mergeWorld
              (snd (tableFitsAfterSpill 0 0 (beforeTableFits 0 mergeWorld)))
              (sampleOp [sampleRow 1]) (reclaimedOp (sampleOp [sampleRow 1]))
              [sampleRow 1] [])
    as (w' & o' & Hr & Ht & Hs & _ & _ & Hpeers & _).
  - reflexivity.
  - reflexivity.
  - reflexivity.
  - reflexivity.
  - reflexivity.
  - repeat constructor. intros [].
  - intros [Hi | []]. discriminate Hi.
  - intros p [<- | []]. eexists _, _. repeat split; reflexivity.
  - reflexivity.
  - reflexivity.
  - reflexivity.
  - intros _. discriminate.
  - intros p [<- | []]. eexists _, _. repeat split; reflexivity.
  - exists w'. split; [exact Hr|]. split; [exact Ht|]. split; [exact Hs|].
    rewrite (Hpeers 1%nat _ (or_introl eq_refl) eq_refl). reflexivity.
Defined.

Lemma noMoreInput_last_driver_hands_off_witness :
  exists w',
    noMoreInput tableFitsAfterSpill probeRunning nothingToRestore 0 mergeWorld
      = (Ret tt, w') /\
    bridgeTable (bridge w') = Some [sampleRow 2] /\
    bridgeSpillPartitions (bridge w') = [sampleRow 1] /\
    option_map state_ (nth_error (ops w') 0) = Some kWaitForProbe.
Proof.
  destruct (noMoreInput_last_driver_hands_off tableFitsAfterSpill
              probeRunning nothingToRestore 0 mergeWorld
              (snd (tableFitsAfterSpill 0 0
                      (beforeTableFits 0 (afterNoMoreInput 0 mergeWorld))))
              (sampleOp [sampleRow 1])
              (reclaimedOp (set_noMoreInput true (sampleOp [sampleRow 1])))
              [sampleRow 1] [])
    as (w' & o' & Hr & Ht & Hs & Ho & _ & _ & Hst & _).
  - reflexivity.
  - reflexivity.
  - reflexivity.
  - reflexivity.
  - reflexivity.
  - reflexivity.
  - repeat constructor. intros [].
  - intros [Hi | []]. discriminate Hi.
  - intros p [<- | []]. eexists _, _. repeat split; reflexivity.
  - reflexivity.
  - reflexivity.
  - reflexivity.
  - reflexivity.
  - intros _. discriminate.
  - intros p [<- | []]. eexists _, _. repeat split; reflexivity.
  - intros w4. exists w4. repeat split; reflexivity.
  - exists w'. split; [exact Hr|]. split; [exact Ht|]. split; [exact Hs|].
    rewrite Ho. cbn [option_map]. rewrite Hst. reflexivity.
Defined.
End HashBuildMergeProofs.

(** * Columns of the build side *)

Module HashBuildChannelProofs.
Import HashBuild HashBuildChannels HashBuildMembers MemberStatements.
Local Open Scope list_scope.
Local Open Scope nat_scope.

Lemma setupKeyChannels_spec (rightKeys : list nat) :
  forall i m acc,
    List.length acc = i ->
    (forall ch k, m ch = Some k -> nth_error acc k = Some ch) ->
    (forall ch, In ch acc -> exists k, m ch = Some k) ->
    (forall ch, m ch <> None -> In ch acc) ->
    (forall ch k k', m ch = Some k -> nth_error acc k' = Some ch -> k' <= k) ->
    let '(m', keyChannels) := setupKeyChannels rightKeys i m acc in
    keyChannels = acc ++ rightKeys /\
    (forall ch k, m' ch = Some k -> nth_error keyChannels k = Some ch) /\
    (forall ch, In ch keyChannels -> exists k, m' ch = Some k) /\
    (forall ch, m' ch <> None -> In ch keyChannels) /\
    (forall ch k k', m' ch = Some k -> nth_error keyChannels k' = Some ch ->
                     k' <= k).
Proof.
  induction rightKeys as [|channel rest IH];
    intros i m acc Hlen Hfind Hin Hdom Hlast.
  - cbn [setupKeyChannels]. cbv beta iota zeta. rewrite app_nil_r.
    repeat split; try reflexivity; assumption.
  - cbn [setupKeyChannels].
    assert (H1 : List.length (acc ++ [channel]) = S i)
      by (rewrite length_app; cbn [List.length]; lia).
    assert (H2 : forall ch k, assign m channel i ch = Some k ->
                   nth_error (acc ++ [channel]) k = Some ch).
    { intros ch k. unfold assign. destruct (ch =? channel) eqn:E.
      - apply Nat.eqb_eq in E. subst ch. intros [= <-].
        rewrite nth_error_app2 by lia. rewrite Hlen, Nat.sub_diag. reflexivity.
      - intros Hm. specialize (Hfind ch k Hm).
        rewrite nth_error_app1; [exact Hfind|].
        apply nth_error_Some. rewrite Hfind. discriminate. }
    assert (H3 : forall ch, In ch (acc ++ [channel]) ->
                   exists k, assign m channel i ch = Some k).
    { intros ch Hch. unfold assign. destruct (ch =? channel) eqn:E.
      - eexists. reflexivity.
      - apply in_app_or in Hch. destruct Hch as [Hch | [-> | []]].
        + apply Hin. exact Hch.
        + rewrite Nat.eqb_refl in E. discriminate. }
    assert (H4 : forall ch, assign m channel i ch <> None ->
                   In ch (acc ++ [channel])).
    { intros ch. unfold assign. destruct (ch =? channel) eqn:E.
      - apply Nat.eqb_eq in E. subst ch. intros _. apply in_or_app. right.
        left. reflexivity.
      - intros Hm. apply in_or_app. left. apply Hdom. exact Hm. }
    assert (H5 : forall ch k k', assign m channel i ch = Some k ->
                   nth_error (acc ++ [channel]) k' = Some ch -> k' <= k).
    { intros ch k k'. unfold assign. destruct (ch =? channel) eqn:E.
      - intros [= <-] Hk'.
        assert (k' < List.length (acc ++ [channel]))
          by (apply nth_error_Some; rewrite Hk'; discriminate).
        rewrite H1 in *. lia.
      - intros Hm Hk'. apply (Hlast ch k k' Hm).
        assert (Hlt : k' < List.length (acc ++ [channel]))
          by (apply nth_error_Some; rewrite Hk'; discriminate).
        rewrite H1 in Hlt.
        destruct (Nat.eq_dec k' i) as [-> | Hne].
        + rewrite nth_error_app2 in Hk' by lia.
          rewrite Hlen, Nat.sub_diag in Hk'. cbn [nth_error] in Hk'.
          injection Hk' as <-. rewrite Nat.eqb_refl in E. discriminate E.
        + rewrite nth_error_app1 in Hk' by lia. exact Hk'. }
    pose proof (IH (S i) (assign m channel i) (acc ++ [channel]) H1 H2 H3 H4 H5)
      as IH'.
    destruct (setupKeyChannels rest (S i) (assign m channel i) (acc ++ [channel]))
      as [m' keyChannels].
    destruct IH' as (Heq & Hfind' & Hin' & Hdom' & Hlast').
    rewrite <- app_assoc in Heq. cbn [app] in Heq.
    repeat split; assumption.
Qed.

Lemma HashBuild_new_keys (inputSize : nat) (rightKeys : list nat) :
  let c := HashBuild_new inputSize rightKeys in
  keyChannels_ c = rightKeys /\
  (forall ch k, keyChannelMap_ c ch = Some k -> nth_error rightKeys k = Some ch) /\
  (forall ch, In ch rightKeys -> exists k, keyChannelMap_ c ch = Some k) /\
  dependentChannels_ c
  = List.filter (fun i => match keyChannelMap_ c i with
                          | None => true
                          | Some _ => false
                          end) (seq 0 inputSize).
Proof.
  unfold HashBuild_new.
  pose proof (setupKeyChannels_spec rightKeys 0 (fun _ => None) []) as H.
  destruct (setupKeyChannels rightKeys 0 (fun _ => None) []) as [m keyChannels].
  destruct H as (Heq & Hfind & Hin & _).
  - reflexivity.
  - discriminate.
  - intros ch [].
  - intros ch Hch. exfalso. apply Hch. reflexivity.
  - discriminate.
  - cbn [app] in Heq. subst keyChannels. cbn [keyChannels_ keyChannelMap_
      dependentChannels_]. repeat split; assumption.
Qed.

Lemma HashBuild_new_last_key (inputSize : nat) (rightKeys : list nat) :
  forall ch k k',
    keyChannelMap_ (HashBuild_new inputSize rightKeys) ch = Some k ->
    nth_error rightKeys k' = Some ch -> k' <= k.
Proof.
  unfold HashBuild_new.
  pose proof (setupKeyChannels_spec rightKeys 0 (fun _ => None) []) as H.
  destruct (setupKeyChannels rightKeys 0 (fun _ => None) []) as [m keyChannels].
  destruct H as (Heq & _ & _ & _ & Hlast).
  - reflexivity.
  - discriminate.
  - intros ch [].
  - intros ch Hch. exfalso. apply Hch. reflexivity.
  - discriminate.
  - cbn [app] in Heq. subst keyChannels. cbn [keyChannelMap_]. exact Hlast.
Qed.

Lemma filter_seq_sorted (f : nat -> bool) (n a : nat) :
  StronglySorted lt (List.filter f (seq a n)).
Proof.
  revert a. induction n as [|n IH]; intros a; cbn [seq List.filter].
  - constructor.
  - destruct (f a); [|apply IH].
    constructor; [apply IH|].
    apply Forall_forall. intros x Hx. apply filter_In in Hx.
    destruct Hx as [Hx _]. apply in_seq in Hx. lia.
Qed.

Lemma lower_bound_finds (l : list nat) (x : nat) :
  StronglySorted lt l -> In x l -> nth_error l (lower_bound l x) = Some x.
Proof.
  induction 1 as [|y l Hs IH Hall]; intros Hin; [destruct Hin|].
  cbn [lower_bound]. destruct Hin as [-> | Hin].
  - rewrite Nat.ltb_irrefl. reflexivity.
  - assert (y < x) as Hlt by (rewrite Forall_forall in Hall; auto).
    apply Nat.ltb_lt in Hlt. rewrite Hlt. cbn [nth_error]. apply IH, Hin.
Qed.

Lemma columns_nth (row : InputRow) :
  forall channels vs k ch,
    columns row channels = Some vs ->
    nth_error channels k = Some ch ->
    nth_error vs k = nth_error row ch.
Proof.
  induction channels as [|c rest IH]; intros vs k ch Hc Hk.
  - destruct k; discriminate.
  - cbn [columns] in Hc. destruct (nth_error row c) as [v|] eqn:Ev; [|discriminate].
    destruct (columns row rest) as [vs'|] eqn:Er; [|discriminate].
    injection Hc as <-. destruct k as [|k]; cbn [nth_error] in *.
    + injection Hk as <-. symmetry. exact Ev.
    + eapply IH; [reflexivity | exact Hk].
Qed.

Lemma columns_length (row : InputRow) :
  forall channels vs,
    columns row channels = Some vs -> List.length vs = List.length channels.
Proof.
  induction channels as [|c rest IH]; intros vs Hc; cbn [columns] in Hc.
  - injection Hc as <-. reflexivity.
  - destruct (nth_error row c); [|discriminate].
    destruct (columns row rest) as [vs'|]; [|discriminate].
    injection Hc as <-. cbn [List.length]. f_equal. apply IH. reflexivity.
Qed.

Lemma columns_seq (pre mid post : list (option Z)) :
  columns (pre ++ mid ++ post) (seq (List.length pre) (List.length mid))
  = Some mid.
Proof.
  revert pre. induction mid as [|v mid IH]; intros pre; [reflexivity|].
  cbn [List.length seq columns].
  rewrite nth_error_app2 by lia. rewrite Nat.sub_diag. cbn [app nth_error].
  specialize (IH (pre ++ [v])).
  rewrite length_app, Nat.add_1_r, <- app_assoc in IH. cbn [List.length app] in IH.
  rewrite IH. reflexivity.
Qed.

Lemma constructor_columns_facts (inputSize : nat) (rightKeys : list nat) :
  let c := HashBuild_new inputSize rightKeys in
  keyChannels_ c = rightKeys /\
  (forall ch k, keyChannelMap_ c ch = Some k -> nth_error rightKeys k = Some ch) /\
  (forall ch, In ch rightKeys <-> keyChannelMap_ c ch <> None) /\
  StronglySorted lt (dependentChannels_ c) /\
  (forall ch, In ch (dependentChannels_ c)
              <-> ch < inputSize /\ ~ In ch rightKeys).
Proof.
  intros c. destruct (HashBuild_new_keys inputSize rightKeys)
    as (Hk & Hfind & Hin & Hdep). fold c in Hk, Hfind, Hin, Hdep.
  assert (Hiff : forall ch, In ch rightKeys <-> keyChannelMap_ c ch <> None).
  { intros ch. split.
    - intros H. destruct (Hin ch H) as [k ->]. discriminate.
    - intros H. destruct (keyChannelMap_ c ch) as [k|] eqn:E; [|congruence].
      eapply nth_error_In. apply Hfind. exact E. }
  split; [exact Hk|]. split; [exact Hfind|]. split; [exact Hiff|].
  split; [rewrite Hdep; apply filter_seq_sorted|].
  intros ch. rewrite Hdep, filter_In, in_seq. split.
  - intros [Hlt Hm]. split; [lia|]. intros Hc. apply Hiff in Hc.
    destruct (keyChannelMap_ c ch); congruence.
  - intros [Hlt Hn]. split; [lia|].
    destruct (keyChannelMap_ c ch) eqn:E; [|reflexivity].
    exfalso. apply Hn, Hiff. congruence.
Qed.

(** X23: the constructor splits the columns of the build side: the key
    channels are the columns of the join keys in their order, the map sends
    a column to the index of a key with that column, the last such key when
    several keys have the column, the dependent channels are strictly
    increasing and are exactly the columns that are not a key, and
    [std::lower_bound] finds each of them at its position. *)
Theorem constructor_partitions_columns (inputSize : nat) (rightKeys : list nat) :
  let c := HashBuild_new inputSize rightKeys in
  keyChannels_ c = rightKeys /\
  (forall ch k, keyChannelMap_ c ch = Some k -> nth_error rightKeys k = Some ch) /\
  (forall ch k k', keyChannelMap_ c ch = Some k ->
                   nth_error rightKeys k' = Some ch -> k' <= k) /\
  (forall ch, In ch rightKeys <-> keyChannelMap_ c ch <> None) /\
  StronglySorted lt (dependentChannels_ c) /\
  (forall ch, In ch (dependentChannels_ c)
              <-> ch < inputSize /\ ~ In ch rightKeys) /\
  (forall ch, In ch (dependentChannels_ c) ->
       nth_error (dependentChannels_ c) (lower_bound (dependentChannels_ c) ch)
       = Some ch).
Proof.
  intros c. destruct (constructor_columns_facts inputSize rightKeys)
    as (Hk & Hfind & Hiff & Hs & Hdeps). fold c in Hk, Hfind, Hiff, Hs, Hdeps.
  split; [exact Hk|]. split; [exact Hfind|].
  split; [exact (HashBuild_new_last_key inputSize rightKeys)|].
  repeat (split; [assumption|]).
  intros ch Hch. apply lower_bound_finds; assumption.
Qed.

Lemma filterChannels_step (c : Channels) (row : InputRow) (r : Row)
    (inputSize : nat) (rightKeys : list nat) :
  c = HashBuild_new inputSize rightKeys ->
  decodeRow c row = Some r ->
  forall idx, idx < inputSize ->
    match keyChannelMap_ c idx with
    | Some key => nullAt key (keys r)
    | None => nullAt (lower_bound (dependentChannels_ c) idx) (dependents r)
    end = nullAt idx row.
Proof.
  intros -> Hd idx Hlt.
  destruct (constructor_columns_facts inputSize rightKeys)
    as (Hk & Hfind & Hiff & Hs & Hdeps).
  unfold decodeRow in Hd.
  destruct (columns row (keyChannels_ (HashBuild_new inputSize rightKeys)))
    as [ks|] eqn:Eks; [|discriminate].
  destruct (columns row (dependentChannels_ (HashBuild_new inputSize rightKeys)))
    as [ds|] eqn:Eds; [|discriminate].
  injection Hd as <-. cbn [keys dependents]. unfold nullAt.
  destruct (keyChannelMap_ (HashBuild_new inputSize rightKeys) idx) as [key|] eqn:E.
  - rewrite (columns_nth _ _ _ key idx Eks); [reflexivity|].
    rewrite Hk. apply Hfind. exact E.
  - rewrite (columns_nth _ _ _ _ idx Eds); [reflexivity|].
    apply lower_bound_finds; [exact Hs|]. apply Hdeps. split; [exact Hlt|].
    intros Hc. apply Hiff in Hc. congruence.
Qed.

Lemma setupFilter_fold (c : Channels) (row : InputRow) (r : Row)
    (inputSize : nat) (rightKeys : list nat) :
  c = HashBuild_new inputSize rightKeys ->
  decodeRow c row = Some r ->
  forall fields keyFilter dependentFilter,
    Forall (fun f => forall idx, f = Some idx -> idx < inputSize) fields ->
    let '(kf, df) :=
      fold_left
        (fun '(keyFilter, dependentFilter) field =>
           match field with
           | None => (keyFilter, dependentFilter)
           | Some index =>
               match keyChannelMap_ c index with
               | Some key => (keyFilter ++ [key], dependentFilter)
               | None =>
                   (keyFilter,
                    dependentFilter ++ [lower_bound (dependentChannels_ c) index])
               end
           end)
        fields (keyFilter, dependentFilter) in
    existsb (fun ch => nullAt ch (keys r)) kf
    || existsb (fun ch => nullAt ch (dependents r)) df
    = (existsb (fun ch => nullAt ch (keys r)) keyFilter
       || existsb (fun ch => nullAt ch (dependents r)) dependentFilter)
      || existsb (fieldIsNull row) fields.
Proof.
  intros Hc Hd. induction fields as [|f fields IH]; intros kf0 df0 Hall.
  - cbn [fold_left existsb]. rewrite orb_false_r. reflexivity.
  - inversion Hall as [|? ? Hf Hrest]; subst.
    cbn [fold_left existsb]. destruct f as [idx|].
    + pose proof (filterChannels_step _ row r inputSize rightKeys eq_refl Hd idx
                    (Hf idx eq_refl)) as Hstep.
      cbn [fieldIsNull].
      destruct (keyChannelMap_ (HashBuild_new inputSize rightKeys) idx) as [key|].
      * specialize (IH (kf0 ++ [key]) df0 Hrest).
        destruct (fold_left _ fields (kf0 ++ [key], df0)) as [kf df].
        rewrite IH, existsb_app. cbn [existsb]. rewrite Hstep, orb_false_r.
        destruct (existsb _ kf0), (existsb _ df0), (nullAt idx row);
          reflexivity.
      * set (lb := lower_bound _ idx) in *.
        specialize (IH kf0 (df0 ++ [lb]) Hrest).
        destruct (fold_left _ fields (kf0, df0 ++ [lb])) as [kf df].
        rewrite IH, existsb_app. cbn [existsb]. rewrite Hstep, orb_false_r.
        destruct (existsb _ kf0), (existsb _ df0), (nullAt idx row);
          reflexivity.
    + specialize (IH kf0 df0 Hrest).
      destruct (fold_left _ fields (kf0, df0)) as [kf df].
      rewrite IH. cbn [fieldIsNull orb]. reflexivity.
Qed.

(** X24: with the filter channels that [setupFilterForAntiJoins]
    records, for a filter that propagates nulls, from the channels the
    constructor set up, [removeInputRowsForAntiJoinFilter] keeps a selected
    row exactly when none of the columns of the build side that the filter
    names is null in the input row, whether the column is a join key or a
    dependent; the rows are those [addInput] decodes, and a field of the
    filter that names no column of the build side is ignored. *)
Theorem antiJoin_filter_removes_null_fields (inputSize : nat)
    (rightKeys : list nat) (fields : list (option nat)) (o : Op)
    (inputs : list InputRow) (batch : Batch) (activeRows : Selection) :
  let c := HashBuild_new inputSize rightKeys in
  Forall (fun f => forall idx, f = Some idx -> idx < inputSize) fields ->
  Forall2 (fun row r => decodeRow c row = Some r) inputs batch ->
  (keyFilterChannels_ o, dependentFilterChannels_ o)
  = setupFilterForAntiJoins c true fields ->
  removeInputRowsForAntiJoinFilter o batch activeRows
  = map (fun '(row, b) => b && negb (existsb (fieldIsNull row) fields))
      (combine inputs activeRows).
Proof.
  intros c Hfields Hdec Hset. unfold removeInputRowsForAntiJoinFilter.
  revert activeRows. induction Hdec as [|row r inputs batch Hd Hrest IH];
    intros [|b sel]; try reflexivity.
  cbn [combine map]. rewrite IH. f_equal.
    pose proof (setupFilter_fold c row r inputSize rightKeys eq_refl Hd
                  fields [] [] Hfields) as Hfold.
    unfold setupFilterForAntiJoins in Hset. rewrite <- Hset in Hfold.
    cbn [existsb orb] in Hfold. rewrite <- Hfold.
    destruct b, (existsb (fun ch => nullAt ch (keys r)) (keyFilterChannels_ o)),
      (existsb (fun ch => nullAt ch (dependents r)) (dependentFilterChannels_ o));
      reflexivity.
Qed.

Lemma antiJoin_filter_removes_null_fields_witness :
  removeInputRowsForAntiJoinFilter filterOp filterBatch [true; true]
  = [false; true].
Proof.
  apply (antiJoin_filter_removes_null_fields 3 [1%nat] filterFields filterOp
           filterInputs filterBatch [true; true]).
  - unfold filterFields.
    repeat (apply Forall_cons; [intros idx Hidx; inversion Hidx; lia|]).
    apply Forall_nil.
  - repeat (apply Forall2_cons; [reflexivity|]). apply Forall2_nil.
  - reflexivity.
Defined.

(** X25: a row that [addInput] can decode is spilled as exactly its key
    columns, then its dependent columns, then, if the join needs one, a
    probed flag that is false (the value 0, not null); decoding the spilled
    row through the channels that [setupSpillInput] resets gives the same
    keys and dependents. *)
Theorem spilled_row_decodes_back (c : Channels) (needProbedFlagSpill : bool)
    (row : InputRow) (r : Row) :
  decodeRow c row = Some r ->
  let s := keys r ++ dependents r
           ++ (if needProbedFlagSpill then [Some 0%Z] else []) in
  spillRow c needProbedFlagSpill row = Some s /\
  List.length (keys r) = List.length (keyChannels_ c) /\
  List.length (dependents r) = List.length (dependentChannels_ c) /\
  decodeRow (restoredChannels c) s = Some r.
Proof.
  unfold decodeRow, spillRow, restoredChannels. intros Hd.
  destruct (columns row (keyChannels_ c)) as [ks|] eqn:Eks; [|discriminate].
  destruct (columns row (dependentChannels_ c)) as [ds|] eqn:Eds; [|discriminate].
  injection Hd as <-. cbn [keys dependents keyChannels_ dependentChannels_].
  split; [reflexivity|].
  split; [exact (columns_length _ _ _ Eks)|].
  split; [exact (columns_length _ _ _ Eds)|].
  rewrite <- (columns_length _ _ _ Eks), <- (columns_length _ _ _ Eds).
  pose proof (columns_seq [] ks (ds ++ if needProbedFlagSpill
                                       then [Some 0%Z] else [])) as Hk.
  cbn [List.length app] in Hk. rewrite Hk.
  rewrite (columns_seq ks ds). reflexivity.
Qed.

Lemma spilled_row_decodes_back_witness :
  spillRow (HashBuild_new 3 [1%nat]) true [Some 5%Z; Some 7%Z; None]
  = Some [Some 7%Z; Some 5%Z; None; Some 0%Z] /\
  decodeRow (restoredChannels (HashBuild_new 3 [1%nat]))
    [Some 7%Z; Some 5%Z; None; Some 0%Z]
  = Some (mkRow [Some 7%Z] [Some 5%Z; None]).
Proof.
  destruct (spilled_row_decodes_back (HashBuild_new 3 [1%nat]) true
              [Some 5%Z; Some 7%Z; None] (mkRow [Some 7%Z] [Some 5%Z; None])
              eq_refl)
    as (Hs & _ & _ & Hd).
  split; [exact Hs | exact Hd].
Defined.
End HashBuildChannelProofs.
